(** * geojson: coordinates, rings, bounding boxes and the decode dispatcher

    A shallow embedding of the Go package [geojson] (coordinates.go,
    linear_ring.go, polygon.go, multi_polygon.go, the bounding-box file, the
    geometry variants and the feature/object decoders).

    Conventions of the embedding:
    - [float64] is Rocq's primitive binary64 type [float]; Go's [<], [>]
      and [==] are [PrimFloat.ltb] and [PrimFloat.eqb] (so NaN compares
      false with everything), and [+], [-], [*] round after each operation
      (no fused multiply-add).
    - a Go slice whose elements are only read is a [list]; the rings that
      [EnsureOrientation] reverses in place are also modelled as slices
      over a store of backing arrays (module [InPlace]).
    - a call returns [Ok v], [Err e] for a returned error, or [Panic] for a
      run-time panic (index out of range, nil dereference).
    - [error] keeps the [%w] wrapping of [fmt.Errorf]; [errors_Is] is
      [errors.Is]. *)

From Stdlib Require Import ZArith List Bool String Lia.
From Stdlib Require Import Floats.
Import ListNotations.
Open Scope bool_scope.
Open Scope list_scope.

(** ** float64 *)

Module F64.

(** [math.MaxFloat64 = 0x1p1023 * (1 + (1 - 0x1p-52))]. *)
Definition MaxFloat64 : float := 0x1.fffffffffffffp+1023%float.

(** Go's [x > y]. *)
Definition gtb (x y : float) : bool := PrimFloat.ltb y x.

(** Go's conversion [float64(c)] of an [int]: round to nearest, ties to
    even. *)
Definition of_int (z : Z) : float :=
  SF2Prim (binary_normalize prec emax z 0 false).

(** [cmp.Compare] at [float64]: NaN sorts before every other value and is
    equal to itself; [-0.0] equals [0.0]. *)
Definition cmp_Compare (x y : float) : comparison :=
  let xNaN := PrimFloat.is_nan x in
  let yNaN := PrimFloat.is_nan y in
  if xNaN then (if yNaN then Eq else Lt)
  else if yNaN then Gt
  else if PrimFloat.ltb x y then Lt
  else if gtb x y then Gt
  else Eq.

(** [slices.Compare] at [[]float64]. *)
Fixpoint slices_Compare (s1 s2 : list float) : comparison :=
  match s1, s2 with
  | [], [] => Eq
  | [], _ :: _ => Lt
  | _ :: _, [] => Gt
  | v1 :: t1, v2 :: t2 =>
      match cmp_Compare v1 v2 with
      | Eq => slices_Compare t1 t2
      | c => c
      end
  end.

(** What [encoding/json] accepts when it writes a float64: NaN and the
    infinities are an [UnsupportedValueError]. *)
Definition marshalable (x : float) : bool := PrimFloat.is_finite x.

End F64.

(** ** Errors and results *)

Inductive error : Type :=
| ErrLongitudeRange
| ErrLatitudeRange
| ErrCoordinatesSize
| ErrInvalidCoordinates
| ErrInvalidTypeField
| ErrGeometryNotDefined
| ErrGeometryTypeMismatch
| ErrLineStringTooShort
| ErrMultiLineStringTooShort
| ErrLinearRingSize
| ErrLinearRingClosed
| ErrPolygonLinearRingCount
| ErrGeometryCollectionBuildCoordinates
| ErrInvalidFeature
| ErrCodec (msg : string)                 (* an error of encoding/json *)
| Wrap (msg : string) (e : error).        (* fmt.Errorf("msg: %w", e) *)

(** Two sentinel errors are the same value. *)
Definition error_sentinel_eqb (a b : error) : bool :=
  match a, b with
  | ErrLongitudeRange, ErrLongitudeRange
  | ErrLatitudeRange, ErrLatitudeRange
  | ErrCoordinatesSize, ErrCoordinatesSize
  | ErrInvalidCoordinates, ErrInvalidCoordinates
  | ErrInvalidTypeField, ErrInvalidTypeField
  | ErrGeometryNotDefined, ErrGeometryNotDefined
  | ErrGeometryTypeMismatch, ErrGeometryTypeMismatch
  | ErrLineStringTooShort, ErrLineStringTooShort
  | ErrMultiLineStringTooShort, ErrMultiLineStringTooShort
  | ErrLinearRingSize, ErrLinearRingSize
  | ErrLinearRingClosed, ErrLinearRingClosed
  | ErrPolygonLinearRingCount, ErrPolygonLinearRingCount
  | ErrGeometryCollectionBuildCoordinates, ErrGeometryCollectionBuildCoordinates
  | ErrInvalidFeature, ErrInvalidFeature => true
  | _, _ => false
  end.

(** [errors.Is err target] for a sentinel [target]: follow the [%w] chain. *)
Fixpoint errors_Is (err target : error) : bool :=
  error_sentinel_eqb err target ||
  match err with
  | Wrap _ e => errors_Is e target
  | _ => false
  end.

Inductive result (A : Type) : Type :=
| Ok (a : A)
| Err (e : error)
| Panic.
Arguments Ok {A} a.
Arguments Err {A} e.
Arguments Panic {A}.

Definition bind {A B : Type} (r : result A) (k : A -> result B) : result B :=
  match r with
  | Ok a => k a
  | Err e => Err e
  | Panic => Panic
  end.

Notation "'do' x <- r ; k" := (bind r (fun x => k))
  (at level 10, x name, r at level 100, k at level 200).

Definition is_Ok {A : Type} (r : result A) : bool :=
  match r with Ok _ => true | _ => false end.

(** [failsWith r e]: the call returned an error that [errors.Is] [e]. *)
Definition failsWith {A : Type} (r : result A) (e : error) : Prop :=
  exists e', r = Err e' /\ errors_Is e' e = true.

(** Mapping a fallible function over a slice, left to right, stopping at the
    first failure: the shape of every [for i, s := range rawSlice] loop of
    the coordinate builders. *)
Fixpoint mapM {A B : Type} (f : A -> result B) (l : list A) : result (list B) :=
  match l with
  | [] => Ok []
  | x :: t =>
      do y <- f x;
      do ys <- mapM f t;
      Ok (y :: ys)
  end.

(** ** coordinates.go *)

Definition LongitudeMin : float := (-180)%float.
Definition LongitudeMax : float := 180%float.
Definition LatitudeMin : float := (-90)%float.
Definition LatitudeMax : float := 90%float.

Definition idxCoordsLng : nat := 0.
Definition idxCoordsLat : nat := 1.
Definition idxCoordsAlt : nat := 2.

Definition coordsMinLen : nat := 2.
Definition coordsMaxLen : nat := 3.

(** [type Coordinates []float64]. *)
Definition Coordinates : Type := list float.

(** Indexing a slice: out of range panics. *)
Definition index {A : Type} (s : list A) (i : nat) : result A :=
  match nth_error s i with
  | Some x => Ok x
  | None => Panic
  end.

(** [validateCoordinates]: [None] is the [nil] error. *)
Definition validateCoordinates (longitude latitude : float) : option error :=
  if PrimFloat.ltb longitude LongitudeMin || F64.gtb longitude LongitudeMax
  then Some ErrLongitudeRange
  else if PrimFloat.ltb latitude LatitudeMin || F64.gtb latitude LatitudeMax
  then Some ErrLatitudeRange
  else None.

(** [NewCoordinates]: the result slice has the length of the input, holds
    its longitude and latitude, and its altitude when there are three
    elements. *)
Definition NewCoordinates (v : list float) : result Coordinates :=
  if negb (List.length v =? coordsMinLen)%nat && negb (List.length v =? coordsMaxLen)%nat
  then Err ErrCoordinatesSize
  else
    do lng <- index v idxCoordsLng;
    do lat <- index v idxCoordsLat;
    match validateCoordinates lng lat with
    | Some err => Err (Wrap "invalid coordinates" err)
    | None =>
        if (List.length v =? coordsMaxLen)%nat
        then do alt <- index v idxCoordsAlt; Ok [lng; lat; alt]
        else Ok [lng; lat]
    end.

Definition Longitude (c : Coordinates) : result float := index c idxCoordsLng.
Definition Latitude (c : Coordinates) : result float := index c idxCoordsLat.
Definition HasAltitude (c : Coordinates) : bool := (List.length c =? coordsMaxLen)%nat.
Definition Altitude (c : Coordinates) : result float := index c idxCoordsAlt.

(** [IsEqual]: [slices.Compare] of the two slices is [0]. *)
Definition IsEqual (c v : Coordinates) : bool :=
  match F64.slices_Compare c v with Eq => true | _ => false end.

(** [type Vertices []Coordinates]. *)
Definition Vertices : Type := list Coordinates.

(** ** linear_ring.go *)

Definition LinearRingMinimumSize : nat := 4.

(** [type LinearRing Vertices] and [type LinearRings []LinearRing]. *)
Definition LinearRing : Type := Vertices.
Definition LinearRings : Type := list LinearRing.

Definition HasValidSize (lr : LinearRing) : bool :=
  (LinearRingMinimumSize <=? List.length lr)%nat.

Definition IsClosed (lr : LinearRing) : bool :=
  match lr with
  | [] => false
  | first :: _ => IsEqual first (last lr first)
  end.

Definition IsValid (lr : LinearRing) : bool := HasValidSize lr && IsClosed lr.

(** The loop of [signedArea]: [v += x1*y2 - x2*y1] for each pair of
    consecutive vertices. Reading element 0 or 1 of a vertex that is too
    short panics. *)
Fixpoint signedArea_loop (ring : LinearRing) (v : float) : result float :=
  match ring with
  | p1 :: ((p2 :: _) as rest) =>
      do x1 <- index p1 idxCoordsLng;
      do y1 <- index p1 idxCoordsLat;
      do x2 <- index p2 idxCoordsLng;
      do y2 <- index p2 idxCoordsLat;
      signedArea_loop rest (v + (x1 * y2 - x2 * y1))%float
  | _ => Ok v
  end.

Definition signedArea (ring : LinearRing) : result float :=
  do v <- signedArea_loop ring 0%float;
  Ok (v * 0.5)%float.

Definition IsCounterClockwise (lr : LinearRing) : result bool :=
  do a <- signedArea lr;
  Ok (F64.gtb a 0%float).

Definition IsClockwise (lr : LinearRing) : result bool :=
  do ccw <- IsCounterClockwise lr;
  Ok (negb ccw).

Definition Area (lr : LinearRing) : result float :=
  do a <- signedArea lr;
  Ok (PrimFloat.abs a).

(** [EnsureOrientation] on the value of the ring: the vertex list the ring
    holds after the call ([slices.Reverse] is [rev]). *)
Definition EnsureOrientation (lr : LinearRing) (shouldBeCounterClockwise : bool)
  : result LinearRing :=
  do isCounterClockwise <- IsCounterClockwise lr;
  if Bool.eqb shouldBeCounterClockwise isCounterClockwise
  then Ok lr
  else Ok (rev lr).

Definition NewLinearRing (vertices : Vertices) : result LinearRing :=
  if negb (HasValidSize vertices) then Err ErrLinearRingSize
  else if negb (IsClosed vertices) then Err ErrLinearRingClosed
  else Ok vertices.

(** ** The bounding box *)

Definition bboxSize2D : nat := 4.
Definition bboxSize3D : nat := 6.

(** [type BoundingBox []float64]. *)
Definition BoundingBox : Type := list float.

Definition Is2D (b : BoundingBox) : bool := (List.length b =? bboxSize2D)%nat.
Definition Is3D (b : BoundingBox) : bool := (List.length b =? bboxSize3D)%nat.
Definition IsZero (b : BoundingBox) : bool := (List.length b =? 0)%nat.

(** The local variables of [bbox]. *)
Record bounds : Type := mkBounds {
  minLng : float; minLat : float; maxLng : float; maxLat : float;
  minAlt : float; maxAlt : float;
  count3D : nat
}.

Definition bounds_init : bounds :=
  mkBounds LongitudeMax LatitudeMax LongitudeMin LatitudeMin
           F64.MaxFloat64 (- F64.MaxFloat64)%float 0.

Definition box3D (b : bounds) : BoundingBox :=
  [minLng b; minLat b; minAlt b; maxLng b; maxLat b; maxAlt b].
Definition box2D (b : bounds) : BoundingBox :=
  [minLng b; minLat b; maxLng b; maxLat b].

(** The version of [bbox] written with explicit comparisons and the counter
    [counter3D]. *)
Module Inline.

(** Body of the first loop, for one vertex. *)
Definition step (b : bounds) (v : Coordinates) : result bounds :=
  do lng <- Longitude v;
  let minLng' := if PrimFloat.ltb lng (minLng b) then lng else minLng b in
  do lat <- Latitude v;
  let minLat' := if PrimFloat.ltb lat (minLat b) then lat else minLat b in
  let maxLng' := if F64.gtb lng (maxLng b) then lng else maxLng b in
  let maxLat' := if F64.gtb lat (maxLat b) then lat else maxLat b in
  if HasAltitude v then
    do alt <- Altitude v;
    let minAlt' := if PrimFloat.ltb alt (minAlt b) then alt else minAlt b in
    let maxAlt' := if F64.gtb alt (maxAlt b) then alt else maxAlt b in
    Ok (mkBounds minLng' minLat' maxLng' maxLat' minAlt' maxAlt' (S (count3D b)))
  else
    Ok (mkBounds minLng' minLat' maxLng' maxLat' (minAlt b) (maxAlt b) (count3D b)).

Fixpoint loop1 (b : bounds) (vertices : Vertices) : result bounds :=
  match vertices with
  | [] => Ok b
  | v :: rest => do b' <- step b v; loop1 b' rest
  end.

(** Body of the second loop, for one vertex. *)
Definition widen (b : bounds) (v : Coordinates) : bounds :=
  if negb (HasAltitude v) then
    let minAlt' := if PrimFloat.ltb 0 (minAlt b) then 0%float else minAlt b in
    let maxAlt' := if F64.gtb 0 (maxAlt b) then 0%float else maxAlt b in
    mkBounds (minLng b) (minLat b) (maxLng b) (maxLat b) minAlt' maxAlt' (count3D b)
  else b.

Definition bbox (vertices : Vertices) : result BoundingBox :=
  if (List.length vertices =? 0)%nat then Ok []
  else
    do b <- loop1 bounds_init vertices;
    let b :=
      if negb (count3D b =? List.length vertices)%nat
      then fold_left widen vertices b
      else b in
    if (0 <? count3D b)%nat then Ok (box3D b) else Ok (box2D b).

End Inline.

(** [updateRange value &minVal &maxVal]: the new values of the two
    variables. *)
Definition updateRange (value minVal maxVal : float) : float * float :=
  let minVal := if PrimFloat.ltb value minVal then value else minVal in
  let maxVal := if F64.gtb value maxVal then value else maxVal in
  (minVal, maxVal).

(** Body of the first loop of [bbox] (the version with [updateRange] and
    [altitudeCount]), for one vertex. *)
Definition bbox_step (b : bounds) (v : Coordinates) : result bounds :=
  do lng <- Longitude v;
  let '(minLng', maxLng') := updateRange lng (minLng b) (maxLng b) in
  do lat <- Latitude v;
  let '(minLat', maxLat') := updateRange lat (minLat b) (maxLat b) in
  if HasAltitude v then
    do alt <- Altitude v;
    let '(minAlt', maxAlt') := updateRange alt (minAlt b) (maxAlt b) in
    Ok (mkBounds minLng' minLat' maxLng' maxLat' minAlt' maxAlt' (S (count3D b)))
  else
    Ok (mkBounds minLng' minLat' maxLng' maxLat' (minAlt b) (maxAlt b) (count3D b)).

Fixpoint bbox_loop1 (b : bounds) (vertices : Vertices) : result bounds :=
  match vertices with
  | [] => Ok b
  | v :: rest => do b' <- bbox_step b v; bbox_loop1 b' rest
  end.

(** Body of the second loop, for one vertex. *)
Definition bbox_widen (b : bounds) (v : Coordinates) : bounds :=
  if negb (HasAltitude v) then
    let '(minAlt', maxAlt') := updateRange 0%float (minAlt b) (maxAlt b) in
    mkBounds (minLng b) (minLat b) (maxLng b) (maxLat b) minAlt' maxAlt' (count3D b)
  else b.

Definition bbox (vertices : Vertices) : result BoundingBox :=
  if (List.length vertices =? 0)%nat then Ok []
  else
    do b <- bbox_loop1 bounds_init vertices;
    let b :=
      if negb (count3D b =? List.length vertices)%nat
      then fold_left bbox_widen vertices b
      else b in
    if (0 <? count3D b)%nat then Ok (box3D b) else Ok (box2D b).

(** ** The geometry variants *)

(** [type GeometryType string] and its constants. *)
Definition GeometryType : Type := string.
Definition TypeEmptyGeometry : GeometryType := "Object"%string.
Definition TypePoint : GeometryType := "Point"%string.
Definition TypeMultiPoint : GeometryType := "MultiPoint"%string.
Definition TypeLineString : GeometryType := "LineString"%string.
Definition TypeMultiLineString : GeometryType := "MultiLineString"%string.
Definition TypePolygon : GeometryType := "Polygon"%string.
Definition TypeMultiPolygon : GeometryType := "MultiPolygon"%string.
Definition TypeGeometryCollection : GeometryType := "GeometryCollection"%string.

(** [type Segments []Vertices]. *)
Definition Segments : Type := list Vertices.

Record Point : Type := mkPoint {
  pt_coords : Coordinates;
  pt_SerializeBBox : bool
}.

Record LineString : Type := mkLineString {
  ls_vertices : Vertices;
  ls_SerializeBBox : bool
}.

Record MultiPoint : Type := mkMultiPoint {
  mp_vertices : Vertices;
  mp_SerializeBBox : bool
}.

Record MultiLineString : Type := mkMultiLineString {
  mls_segments : Segments;
  mls_SerializeBBox : bool
}.

Record Polygon : Type := mkPolygon {
  pg_rings : LinearRings;
  pg_SerializeBBox : bool
}.

Record MultiPolygon : Type := mkMultiPolygon {
  mpg_rings : list LinearRings;
  mpg_SerializeBBox : bool
}.

Scheme All for list.
Scheme All for option.
Scheme All for prod.

(** The [Geometry] interface: a value of one of the seven pointer types.
    A field or slice element of interface type may also be [nil], which is
    [None] in [option Geometry]; [GGeometryCollection] carries the
    [geometries] slice of [GeometryCollection]. *)
Inductive Geometry : Type :=
| GPoint (p : Point)
| GLineString (l : LineString)
| GMultiPoint (m : MultiPoint)
| GMultiLineString (m : MultiLineString)
| GPolygon (p : Polygon)
| GMultiPolygon (m : MultiPolygon)
| GGeometryCollection (geometries : list (option Geometry)).

Definition Geometry_Type (g : Geometry) : GeometryType :=
  match g with
  | GPoint _ => TypePoint
  | GLineString _ => TypeLineString
  | GMultiPoint _ => TypeMultiPoint
  | GMultiLineString _ => TypeMultiLineString
  | GPolygon _ => TypePolygon
  | GMultiPolygon _ => TypeMultiPolygon
  | GGeometryCollection _ => TypeGeometryCollection
  end.

(** *** Constructors *)

Definition NewPoint (v : list float) : result Point :=
  do coords <- NewCoordinates v;
  Ok (mkPoint coords false).

Definition LineStringMinimumSize : nat := 2.

Definition NewLineString (v : Vertices) : result LineString :=
  if (List.length v <? LineStringMinimumSize)%nat
  then Err ErrLineStringTooShort
  else Ok (mkLineString v false).

Definition NewMultiPointFromVertices (vertices : Vertices) : MultiPoint :=
  mkMultiPoint vertices false.

Definition NewMultiLineString (segments : Segments) : result MultiLineString :=
  if (List.length segments =? 0)%nat then Err ErrMultiLineStringTooShort
  else
    do _l <- mapM NewLineString segments;
    Ok (mkMultiLineString segments false).

(** [ensureOrientation] on the values of the rings (each ring has storage
    of its own; see [InPlace] for rings that share a backing array). *)
Definition ensureOrientation (rings : LinearRings) : result LinearRings :=
  match rings with
  | [] => Ok []
  | outer :: inner =>
      do outer' <- EnsureOrientation outer true;
      do inner' <- mapM (fun r => EnsureOrientation r false) inner;
      Ok (outer' :: inner')
  end.

(** The validation loop shared by [NewPolygon] and
    [NewMultiPolygonFromRingSlice]: [None] when every ring passes. *)
Fixpoint checkRings (rings : LinearRings) : option error :=
  match rings with
  | [] => None
  | ring :: rest =>
      if negb (HasValidSize ring) then Some ErrLinearRingSize
      else if negb (IsClosed ring) then Some ErrLinearRingClosed
      else checkRings rest
  end.

Definition NewPolygon (rings : LinearRings) : result Polygon :=
  if (List.length rings =? 0)%nat then Err ErrPolygonLinearRingCount
  else
    match checkRings rings with
    | Some err => Err err
    | None =>
        do rings' <- ensureOrientation rings;
        Ok (mkPolygon rings' false)
    end.

Definition OuterRing (p : Polygon) : option LinearRing :=
  match pg_rings p with
  | [] => None
  | r :: _ => Some r
  end.

Definition InnerRings (p : Polygon) : option LinearRings :=
  match pg_rings p with
  | [] => None
  | _ :: rs => Some rs
  end.

(** One iteration of the loop of [NewMultiPolygonFromRingSlice]. *)
Definition checkAndOrient (rings : LinearRings) : result LinearRings :=
  match checkRings rings with
  | Some err => Err err
  | None => ensureOrientation rings
  end.

Definition NewMultiPolygonFromRingSlice (slice : list LinearRings) : result MultiPolygon :=
  do slice' <- mapM checkAndOrient slice;
  Ok (mkMultiPolygon slice' false).

Definition NewGeometryCollectionFromSlice (geometries : list (option Geometry)) : Geometry :=
  GGeometryCollection geometries.

(** *** Vertices and bounding boxes *)

(** [Vertices()] of each variant. A [nil] child of a collection panics. *)
Fixpoint Geometry_Vertices (g : Geometry) : result Vertices :=
  match g with
  | GPoint p => Ok [pt_coords p]
  | GLineString l => Ok (ls_vertices l)
  | GMultiPoint m => Ok (mp_vertices m)
  | GMultiLineString m => Ok (List.concat (mls_segments m))
  | GPolygon p => Ok (List.concat (pg_rings p))
  | GMultiPolygon m => Ok (List.concat (map (@List.concat Coordinates) (mpg_rings m)))
  | GGeometryCollection geometries =>
      do vs <- mapM (fun c => match c with
                              | Some g' => Geometry_Vertices g'
                              | None => Panic
                              end) geometries;
      Ok (List.concat vs)
  end.

Definition Geometry_BoundingBox (g : Geometry) : result BoundingBox :=
  do v <- Geometry_Vertices g;
  bbox v.

(** ** Untyped values and coordinate builders *)

(** What an [interface{}] holds on the decode path ([encoding/json] stores
    [nil], [bool], [float64], [string], [[]interface{}] and
    [map[string]interface{}]); [VInt] is a Go [int], which the builders also
    accept. *)
Inductive value : Type :=
| VNil
| VBool (b : bool)
| VFloat (f : float)
| VInt (z : Z)
| VString (s : string)
| VSlice (l : list value)
| VMap (m : list (string * value)).

(** The type switch in the loop of [buildCoordinates]. *)
Definition toFloat64 (s : value) : result float :=
  match s with
  | VFloat c => Ok c
  | VInt c => Ok (F64.of_int c)
  | _ => Err ErrInvalidCoordinates
  end.

(** The package-level [buildCoordinates]. *)
Definition buildCoordinates (v : value) : result Coordinates :=
  match v with
  | VSlice rawSlice =>
      if negb (List.length rawSlice =? coordsMinLen)%nat
         && negb (List.length rawSlice =? coordsMaxLen)%nat
      then Err ErrCoordinatesSize
      else
        do slice <- mapM toFloat64 rawSlice;
        NewCoordinates slice
  | _ => Err ErrInvalidCoordinates
  end.

(** The [buildCoordinates] methods. Each returns the receiver as it is
    after a successful call. *)
Definition Point_buildCoordinates (p : Point) (v : value) : result Point :=
  match v with
  | VSlice _ =>
      do coords <- buildCoordinates v;
      Ok (mkPoint coords (pt_SerializeBBox p))
  | _ => Err ErrInvalidCoordinates
  end.

(** [p := Point{}; p.buildCoordinates(s); ... p.coords]. *)
Definition buildVertex (s : value) : result Coordinates :=
  do p <- Point_buildCoordinates (mkPoint [] false) s;
  Ok (pt_coords p).

Definition LineString_buildCoordinates (l : LineString) (v : value) : result LineString :=
  match v with
  | VSlice rawSlice =>
      if (List.length rawSlice <? LineStringMinimumSize)%nat
      then Err ErrLineStringTooShort
      else
        do vertices <- mapM buildVertex rawSlice;
        Ok (mkLineString vertices (ls_SerializeBBox l))
  | _ => Err ErrInvalidCoordinates
  end.

Definition MultiPoint_buildCoordinates (m : MultiPoint) (v : value) : result MultiPoint :=
  match v with
  | VSlice rawSlice =>
      do vertices <- mapM buildVertex rawSlice;
      Ok (mkMultiPoint vertices (mp_SerializeBBox m))
  | _ => Err ErrInvalidCoordinates
  end.

(** [l := LineString{}; l.buildCoordinates(s); ... l.vertices]. *)
Definition buildSegment (s : value) : result Vertices :=
  do l <- LineString_buildCoordinates (mkLineString [] false) s;
  Ok (ls_vertices l).

Definition MultiLineString_buildCoordinates (m : MultiLineString) (v : value)
  : result MultiLineString :=
  match v with
  | VSlice rawSlice =>
      if (List.length rawSlice =? 0)%nat then Err ErrMultiLineStringTooShort
      else
        do segments <- mapM buildSegment rawSlice;
        Ok (mkMultiLineString segments (mls_SerializeBBox m))
  | _ => Err ErrInvalidCoordinates
  end.

(** Body of the loop of [Polygon.buildCoordinates], for one raw ring. *)
Definition buildRing (r : value) : result LinearRing :=
  match r with
  | VSlice rawRing =>
      do ring <- mapM buildCoordinates rawRing;
      NewLinearRing ring
  | _ => Err ErrInvalidCoordinates
  end.

(** The rings built here are freshly allocated, one array per ring. *)
Definition Polygon_buildCoordinates (p : Polygon) (v : value) : result Polygon :=
  match v with
  | VSlice rawSlice =>
      do rings <- mapM buildRing rawSlice;
      if (List.length rings =? 0)%nat then Err ErrPolygonLinearRingCount
      else
        do rings' <- ensureOrientation rings;
        Ok (mkPolygon rings' (pg_SerializeBBox p))
  | _ => Err ErrInvalidCoordinates
  end.

(** [p := Polygon{}; p.buildCoordinates(s); ... p.rings]. *)
Definition buildRingGroup (s : value) : result LinearRings :=
  do p <- Polygon_buildCoordinates (mkPolygon [] false) s;
  Ok (pg_rings p).

Definition MultiPolygon_buildCoordinates (m : MultiPolygon) (v : value) : result MultiPolygon :=
  match v with
  | VSlice rawSlice =>
      do lrSlice <- mapM buildRingGroup rawSlice;
      Ok (mkMultiPolygon lrSlice (mpg_SerializeBBox m))
  | _ => Err ErrInvalidCoordinates
  end.

Definition GeometryCollection_buildCoordinates
  (geometries : list (option Geometry)) (_v : value) : result (list (option Geometry)) :=
  Err ErrGeometryCollectionBuildCoordinates.

(** The method [buildCoordinates] of the interface [Geometry]: the call
    [v.buildCoordinates(x)] goes to the method of the variant [v] holds. *)
Definition Geometry_buildCoordinates (g : Geometry) (v : value) : result Geometry :=
  match g with
  | GPoint p => do p' <- Point_buildCoordinates p v; Ok (GPoint p')
  | GLineString l => do l' <- LineString_buildCoordinates l v; Ok (GLineString l')
  | GMultiPoint m => do m' <- MultiPoint_buildCoordinates m v; Ok (GMultiPoint m')
  | GMultiLineString m =>
      do m' <- MultiLineString_buildCoordinates m v; Ok (GMultiLineString m')
  | GPolygon p => do p' <- Polygon_buildCoordinates p v; Ok (GPolygon p')
  | GMultiPolygon m => do m' <- MultiPolygon_buildCoordinates m v; Ok (GMultiPolygon m')
  | GGeometryCollection gs =>
      do gs' <- GeometryCollection_buildCoordinates gs v; Ok (GGeometryCollection gs')
  end.

(** ** The decode dispatcher *)

(** [GeometryObject]: its field [geometry] is [nil] or a geometry. *)
Definition GeometryObject : Type := option Geometry.

Definition IsEmpty (g : GeometryObject) : bool :=
  match g with None => true | Some _ => false end.

Definition GeometryObject_Type (g : GeometryObject) : GeometryType :=
  match g with
  | None => TypeEmptyGeometry
  | Some v => Geometry_Type v
  end.

Definition IsPoint (g : GeometryObject) : bool :=
  negb (IsEmpty g) && String.eqb (GeometryObject_Type g) TypePoint.

Definition ToPoint (g : GeometryObject) : result Point :=
  match g with
  | None => Err ErrGeometryNotDefined
  | Some (GPoint p) => Ok p
  | Some _ => Err ErrGeometryTypeMismatch
  end.

Definition ToPolygon (g : GeometryObject) : result Polygon :=
  match g with
  | None => Err ErrGeometryNotDefined
  | Some (GPolygon p) => Ok p
  | Some _ => Err ErrGeometryTypeMismatch
  end.

Definition ToGeometryCollection (g : GeometryObject) : result (list (option Geometry)) :=
  match g with
  | None => Err ErrGeometryNotDefined
  | Some (GGeometryCollection gs) => Ok gs
  | Some _ => Err ErrGeometryTypeMismatch
  end.

(** [geometryJSONInput]: what [json.Unmarshal] leaves in the struct. The
    elements of [Geometries] have been decoded by
    [GeometryObject.UnmarshalJSON], which [encoding/json] calls for each
    element of the [geometries] array. *)
Record geometryJSONInput : Type := mkGeometryJSONInput {
  in_Type : GeometryType;
  in_Coordinates : value;
  in_Geometries : list GeometryObject;
  in_BBox : BoundingBox
}.

(** The part of [GeometryObject.UnmarshalJSON] after [json.Unmarshal]: the
    switch on the type tag, and the call of the coordinate builder. The
    result is the new value of the receiver's field. *)
Definition GeometryObject_dispatch (geometry : geometryJSONInput) : result GeometryObject :=
  let build (v : Geometry) : result GeometryObject :=
    do v' <- Geometry_buildCoordinates v (in_Coordinates geometry);
    Ok (Some v') in
  let t := in_Type geometry in
  if String.eqb t TypePoint then build (GPoint (mkPoint [] false))
  else if String.eqb t TypeLineString then build (GLineString (mkLineString [] false))
  else if String.eqb t TypeMultiPoint then build (GMultiPoint (mkMultiPoint [] false))
  else if String.eqb t TypeMultiLineString
  then build (GMultiLineString (mkMultiLineString [] false))
  else if String.eqb t TypePolygon then build (GPolygon (mkPolygon [] false))
  else if String.eqb t TypeMultiPolygon then build (GMultiPolygon (mkMultiPolygon [] false))
  else if String.eqb t TypeGeometryCollection
  then Ok (Some (GGeometryCollection (in_Geometries geometry)))
  else Err ErrInvalidTypeField.

(** A parsed geometry document: the members of a JSON object that
    [geometryJSONInput] declares, each with the zero value when the member
    is missing ([type] the empty string [EmptyString], [coordinates] nil, [geometries] and
    [bbox] empty). JSON [null] in place of an object is the document with
    every member missing. The bytes and their parsing belong to
    [encoding/json]. *)
Inductive document : Type :=
| Document (type_ : string) (coordinates : value)
           (geometries : list document) (bbox_ : list float).

Definition nullDocument : document := Document EmptyString VNil [] [].

(** [GeometryObject.UnmarshalJSON]: [json.Unmarshal] fills the input struct,
    decoding each element of [geometries] through this same method and
    stopping at the first error; then the switch. *)
Fixpoint GeometryObject_UnmarshalJSON (d : document) : result GeometryObject :=
  match d with
  | Document type_ coordinates geometries bbox_ =>
      do children <- mapM GeometryObject_UnmarshalJSON geometries;
      GeometryObject_dispatch (mkGeometryJSONInput type_ coordinates children bbox_)
  end.

(** ** Encoding *)

(** A float64 written by [encoding/json]. *)
Definition marshalFloat (x : float) : result value :=
  if F64.marshalable x then Ok (VFloat x) else Err (ErrCodec "unsupported value").

Definition marshalFloats (c : list float) : result (list float) :=
  do _c <- mapM marshalFloat c; Ok c.

Definition marshalCoordinates (c : Coordinates) : result value :=
  do l <- mapM marshalFloat c; Ok (VSlice l).

Definition marshalVertices (v : Vertices) : result value :=
  do l <- mapM marshalCoordinates v; Ok (VSlice l).

Definition marshalSegments (s : list Vertices) : result value :=
  do l <- mapM marshalVertices s; Ok (VSlice l).

Definition marshalRingGroups (s : list LinearRings) : result value :=
  do l <- mapM marshalSegments s; Ok (VSlice l).

(** [geometryJSONOutput] written as a document: [bbox] is left out when the
    toggle is off (and when the box is empty, [omitempty]). *)
Definition marshalOutput (type_ : GeometryType) (coordinates : result value)
  (SerializeBBox : bool) (vertices : Vertices) : result document :=
  do BBox <- (if SerializeBBox then bbox vertices else Ok []);
  do coordinates <- coordinates;
  do BBox <- marshalFloats BBox;
  Ok (Document type_ coordinates [] BBox).

(** [MarshalJSON] of each variant. A [nil] child of a collection is written
    as [null]. *)
Fixpoint Geometry_MarshalJSON (g : Geometry) : result document :=
  match g with
  | GPoint p =>
      marshalOutput TypePoint (marshalCoordinates (pt_coords p))
                    (pt_SerializeBBox p) [pt_coords p]
  | GLineString l =>
      marshalOutput TypeLineString (marshalVertices (ls_vertices l))
                    (ls_SerializeBBox l) (ls_vertices l)
  | GMultiPoint m =>
      marshalOutput TypeMultiPoint (marshalVertices (mp_vertices m))
                    (mp_SerializeBBox m) (mp_vertices m)
  | GMultiLineString m =>
      marshalOutput TypeMultiLineString (marshalSegments (mls_segments m))
                    (mls_SerializeBBox m) (List.concat (mls_segments m))
  | GPolygon p =>
      marshalOutput TypePolygon (marshalSegments (pg_rings p))
                    (pg_SerializeBBox p) (List.concat (pg_rings p))
  | GMultiPolygon m =>
      marshalOutput TypeMultiPolygon (marshalRingGroups (mpg_rings m))
                    (mpg_SerializeBBox m)
                    (List.concat (map (@List.concat Coordinates) (mpg_rings m)))
  | GGeometryCollection geometries =>
      do children <- mapM (fun c => match c with
                                    | Some g' => Geometry_MarshalJSON g'
                                    | None => Ok nullDocument
                                    end) geometries;
      Ok (Document TypeGeometryCollection VNil children [])
  end.

Definition GeometryObject_MarshalJSON (g : GeometryObject) : result document :=
  match g with
  | None => Err ErrGeometryNotDefined
  | Some v => Geometry_MarshalJSON v
  end.

(** ** Features and objects *)

(** [type ObjectType string] and its constants. *)
Definition ObjectType : Type := string.
Definition TypeEmptyObject : ObjectType := "Object"%string.
Definition TypeFeature : ObjectType := "Feature"%string.
Definition TypeFeatureCollection : ObjectType := "FeatureCollection"%string.

(** [Properties] and [ID] are carried, not inspected. *)
Definition Properties : Type := list (string * value).

Inductive ID : Type :=
| StringID (s : string)
| NumericID (n : float).

Record Feature : Type := mkFeature {
  f_Geometry : option Geometry;
  f_Properties : Properties;
  f_ID : option ID;
  f_SerializeBBox : bool
}.

Record FeatureCollection : Type := mkFeatureCollection {
  fc_Features : list Feature;
  fc_SerializeBBox : bool
}.

Definition Feature_Vertices (f : Feature) : result Vertices :=
  match f_Geometry f with
  | None => Ok []
  | Some g => Geometry_Vertices g
  end.

Definition Feature_BoundingBox (f : Feature) : result BoundingBox :=
  do v <- Feature_Vertices f;
  bbox v.

Definition Feature_GeometryObject (f : Feature) : GeometryObject := f_Geometry f.

Definition NewFeatureCollectionFromFeatures (features : list Feature) : FeatureCollection :=
  mkFeatureCollection features false.

Record Object : Type := mkObject {
  o_featureType : ObjectType;
  o_feature : option Feature;
  o_features : option FeatureCollection
}.

(** [featuresJSONInput]: what [json.Unmarshal] leaves in the struct. The
    pointer [Geometry] is [nil] when the member is missing or [null]. *)
Record featuresJSONInput : Type := mkFeaturesJSONInput {
  fin_Type : ObjectType;
  fin_Geometry : option GeometryObject;
  fin_Properties : Properties;
  fin_ID : option ID;
  fin_Features : list Feature
}.

(** The part of [Object.UnmarshalJSON] after [json.Unmarshal], on a
    receiver that is the zero [Object]. *)
Definition Object_dispatch (feature : featuresJSONInput) : result Object :=
  let Geometry :=
    match fin_Geometry feature with
    | None => (None : GeometryObject)
    | Some g => g
    end in
  if String.eqb (fin_Type feature) TypeFeature then
    Ok (mkObject (fin_Type feature)
          (Some (mkFeature Geometry (fin_Properties feature) (fin_ID feature) false))
          None)
  else if String.eqb (fin_Type feature) TypeFeatureCollection then
    Ok (mkObject (fin_Type feature) None
          (Some (NewFeatureCollectionFromFeatures (fin_Features feature))))
  else Err ErrInvalidFeature.

(** A member of a JSON object that decodes into a pointer. *)
Inductive member (A : Type) : Type :=
| Missing
| Null
| Present (a : A).
Arguments Missing {A}.
Arguments Null {A}.
Arguments Present {A} a.

(** A parsed feature document: the members that [featuresJSONInput]
    declares. [properties] and [id] are given as decoded by their own
    types. *)
Inductive featureDocument : Type :=
| FeatureDocument (type_ : string) (geometry : member document)
                  (properties : Properties) (id : option ID)
                  (features : list featureDocument).

(** [json.Unmarshal] on the pointer field [Geometry]. *)
Definition unmarshalGeometryMember (m : member document) : result (option GeometryObject) :=
  match m with
  | Missing | Null => Ok None
  | Present d => do g <- GeometryObject_UnmarshalJSON d; Ok (Some g)
  end.

(** The part of [Feature.UnmarshalJSON] after [json.Unmarshal(bytes, few)]. *)
Definition Feature_ofObject (few : result Object) : result Feature :=
  match few with
  | Ok o =>
      match o_feature o with
      | None => Err ErrInvalidFeature
      | Some f => Ok (mkFeature (f_Geometry f) (f_Properties f) (f_ID f) false)
      end
  | Err e => Err (Wrap "failed to unmarshal feature" e)
  | Panic => Panic
  end.

(** [Object.UnmarshalJSON]: [json.Unmarshal] fills the input struct (the
    geometry through [GeometryObject.UnmarshalJSON], each element of
    [features] through [Feature.UnmarshalJSON]); then the switch. *)
Fixpoint Object_UnmarshalJSON (d : featureDocument) : result Object :=
  match d with
  | FeatureDocument type_ geometry properties id features =>
      let parsed :=
        do g <- unmarshalGeometryMember geometry;
        do fs <- mapM (fun c => Feature_ofObject (Object_UnmarshalJSON c)) features;
        Ok (mkFeaturesJSONInput type_ g properties id fs) in
      match parsed with
      | Ok feature => Object_dispatch feature
      | Err e => Err (Wrap "failed to unmarshal features" e)
      | Panic => Panic
      end
  end.

Definition Feature_UnmarshalJSON (d : featureDocument) : result Feature :=
  Feature_ofObject (Object_UnmarshalJSON d).

(** ** Rings reversed in place *)

(** [slices.Reverse] writes into the backing array of the ring, and two
    rings given to a constructor may be slices of the same array. Here a
    ring is a slice (an array, an offset and a length) over a store of
    vertex arrays, and the constructors thread the store. *)
Module InPlace.

Definition store : Type := nat -> Vertices.

Record slice : Type := mkSlice {
  s_array : nat;
  s_off : nat;
  s_len : nat
}.

(** The slice lies within its array. *)
Definition inBounds (st : store) (s : slice) : Prop :=
  s_off s + s_len s <= List.length (st (s_array s)).

(** The vertices a slice holds. *)
Definition load (st : store) (s : slice) : Vertices :=
  firstn (s_len s) (skipn (s_off s) (st (s_array s))).

(** [slices.Reverse] on the slice. *)
Definition reverseInPlace (st : store) (s : slice) : store :=
  fun a =>
    if (a =? s_array s)%nat
    then firstn (s_off s) (st a) ++ rev (load st s)
                                 ++ skipn (s_off s + s_len s) (st a)
    else st a.

Definition EnsureOrientation (st : store) (lr : slice) (shouldBeCounterClockwise : bool)
  : result store :=
  do isCounterClockwise <- IsCounterClockwise (load st lr);
  if Bool.eqb shouldBeCounterClockwise isCounterClockwise
  then Ok st
  else Ok (reverseInPlace st lr).

(** The loop [for i := 1; i < len(rings); i++] of [ensureOrientation]. *)
Fixpoint orientInner (st : store) (inner : list slice) : result store :=
  match inner with
  | [] => Ok st
  | r :: rest =>
      do st' <- EnsureOrientation st r false;
      orientInner st' rest
  end.

Definition ensureOrientation (st : store) (rings : list slice) : result store :=
  match rings with
  | [] => Ok st
  | outer :: inner =>
      do st' <- EnsureOrientation st outer true;
      orientInner st' inner
  end.

(** [NewPolygon]: the store after the call; the polygon holds the slices
    it was given. *)
Definition NewPolygon (st : store) (rings : list slice) : result store :=
  if (List.length rings =? 0)%nat then Err ErrPolygonLinearRingCount
  else
    match checkRings (map (load st) rings) with
    | Some err => Err err
    | None => ensureOrientation st rings
    end.

(** [NewMultiPolygonFromRingSlice]: each group is checked, then oriented,
    before the next group is looked at. *)
Fixpoint NewMultiPolygonFromRingSlice (st : store) (slice : list (list slice))
  : result store :=
  match slice with
  | [] => Ok st
  | rings :: rest =>
      match checkRings (map (load st) rings) with
      | Some err => Err err
      | None =>
          do st' <- ensureOrientation st rings;
          NewMultiPolygonFromRingSlice st' rest
      end
  end.

End InPlace.

(** * The rest of the package: accessors, typed decoders, objects,
      builders, properties and identifiers *)

(** ** coordinates.go, point.go and the bounding box: further methods *)

(** [Coordinates.UnmarshalJSON], after [json.Unmarshal] has read the bytes
    into the slice [v]: the new value of the receiver. *)
Definition Coordinates_UnmarshalJSON (v : list float) : result Coordinates :=
  if negb (List.length v =? coordsMinLen)%nat && negb (List.length v =? coordsMaxLen)%nat
  then Err ErrCoordinatesSize
  else
    do lng <- index v idxCoordsLng;
    do lat <- index v idxCoordsLat;
    match validateCoordinates lng lat with
    | Some err => Err (Wrap "invalid coordinates" err)
    | None => Ok v
    end.

Definition Point_Vertices (p : Point) : Vertices := [pt_coords p].
Definition Point_Longitude (p : Point) : result float := Longitude (pt_coords p).
Definition Point_Latitude (p : Point) : result float := Latitude (pt_coords p).
Definition Point_Coordinates (p : Point) : Coordinates := pt_coords p.
Definition Point_HasAltitude (p : Point) : bool := HasAltitude (pt_coords p).
Definition Point_Altitude (p : Point) : result float := Altitude (pt_coords p).

(** [BoundingBox.IsValid]. *)
Definition BoundingBox_IsValid (b : BoundingBox) : bool :=
  IsZero b || Is2D b || Is3D b.

(** ** The geometry envelope: type tests and conversions *)

Definition IsLineString (g : GeometryObject) : bool :=
  negb (IsEmpty g) && String.eqb (GeometryObject_Type g) TypeLineString.
Definition IsMultiPoint (g : GeometryObject) : bool :=
  negb (IsEmpty g) && String.eqb (GeometryObject_Type g) TypeMultiPoint.
Definition IsMultiLineString (g : GeometryObject) : bool :=
  negb (IsEmpty g) && String.eqb (GeometryObject_Type g) TypeMultiLineString.
Definition IsPolygon (g : GeometryObject) : bool :=
  negb (IsEmpty g) && String.eqb (GeometryObject_Type g) TypePolygon.
Definition IsMultiPolygon (g : GeometryObject) : bool :=
  negb (IsEmpty g) && String.eqb (GeometryObject_Type g) TypeMultiPolygon.
Definition IsGeometryCollection (g : GeometryObject) : bool :=
  negb (IsEmpty g) && String.eqb (GeometryObject_Type g) TypeGeometryCollection.

Definition ToLineString (g : GeometryObject) : result LineString :=
  match g with
  | None => Err ErrGeometryNotDefined
  | Some (GLineString v) => Ok v
  | Some _ => Err ErrGeometryTypeMismatch
  end.

Definition ToMultiPoint (g : GeometryObject) : result MultiPoint :=
  match g with
  | None => Err ErrGeometryNotDefined
  | Some (GMultiPoint v) => Ok v
  | Some _ => Err ErrGeometryTypeMismatch
  end.

Definition ToMultiLineString (g : GeometryObject) : result MultiLineString :=
  match g with
  | None => Err ErrGeometryNotDefined
  | Some (GMultiLineString v) => Ok v
  | Some _ => Err ErrGeometryTypeMismatch
  end.

Definition ToMultiPolygon (g : GeometryObject) : result MultiPolygon :=
  match g with
  | None => Err ErrGeometryNotDefined
  | Some (GMultiPolygon v) => Ok v
  | Some _ => Err ErrGeometryTypeMismatch
  end.

Definition FromGeometry (g : option Geometry) : GeometryObject := g.

(** ** The decoders of the variants *)

(** Each [UnmarshalJSON] of a variant decodes through a fresh
    [GeometryObject], wraps its error, asserts the variant and copies the
    coordinates into the receiver; the receiver keeps its [SerializeBBox].
    The result is the receiver after a successful call. *)
Definition Point_UnmarshalJSON (p : Point) (data : document) : result Point :=
  match GeometryObject_UnmarshalJSON data with
  | Err err => Err (Wrap (String.append "failed to unmarshal " TypePoint) err)
  | Panic => Panic
  | Ok (Some (GPoint g)) => Ok (mkPoint (pt_coords g) (pt_SerializeBBox p))
  | Ok _ => Err ErrInvalidTypeField
  end.

Definition LineString_UnmarshalJSON (l : LineString) (data : document) : result LineString :=
  match GeometryObject_UnmarshalJSON data with
  | Err err => Err (Wrap (String.append "failed to unmarshal " TypeLineString) err)
  | Panic => Panic
  | Ok (Some (GLineString g)) => Ok (mkLineString (ls_vertices g) (ls_SerializeBBox l))
  | Ok _ => Err ErrInvalidTypeField
  end.

Definition MultiPoint_UnmarshalJSON (m : MultiPoint) (data : document) : result MultiPoint :=
  match GeometryObject_UnmarshalJSON data with
  | Err err => Err (Wrap (String.append "failed to unmarshal " TypeMultiPoint) err)
  | Panic => Panic
  | Ok (Some (GMultiPoint g)) => Ok (mkMultiPoint (mp_vertices g) (mp_SerializeBBox m))
  | Ok _ => Err ErrInvalidTypeField
  end.

Definition MultiLineString_UnmarshalJSON (m : MultiLineString) (data : document)
  : result MultiLineString :=
  match GeometryObject_UnmarshalJSON data with
  | Err err => Err (Wrap (String.append "failed to unmarshal " TypeMultiLineString) err)
  | Panic => Panic
  | Ok (Some (GMultiLineString g)) =>
      Ok (mkMultiLineString (mls_segments g) (mls_SerializeBBox m))
  | Ok _ => Err ErrInvalidTypeField
  end.

Definition Polygon_UnmarshalJSON (p : Polygon) (data : document) : result Polygon :=
  match GeometryObject_UnmarshalJSON data with
  | Err err => Err (Wrap (String.append "failed to unmarshal " TypePolygon) err)
  | Panic => Panic
  | Ok (Some (GPolygon g)) => Ok (mkPolygon (pg_rings g) (pg_SerializeBBox p))
  | Ok _ => Err ErrInvalidTypeField
  end.

Definition MultiPolygon_UnmarshalJSON (m : MultiPolygon) (data : document)
  : result MultiPolygon :=
  match GeometryObject_UnmarshalJSON data with
  | Err err => Err (Wrap (String.append "failed to unmarshal " TypeMultiPolygon) err)
  | Panic => Panic
  | Ok (Some (GMultiPolygon g)) => Ok (mkMultiPolygon (mpg_rings g) (mpg_SerializeBBox m))
  | Ok _ => Err ErrInvalidTypeField
  end.

(** The receiver of [GeometryCollection.UnmarshalJSON] is its [geometries]
    slice. *)
Definition GeometryCollection_UnmarshalJSON (geometries : list (option Geometry))
  (data : document) : result (list (option Geometry)) :=
  match GeometryObject_UnmarshalJSON data with
  | Err err => Err (Wrap (String.append "failed to unmarshal " TypeGeometryCollection) err)
  | Panic => Panic
  | Ok (Some (GGeometryCollection gc)) => Ok gc
  | Ok _ => Err ErrInvalidTypeField
  end.

(** ** object.go and feature_collection.go *)

Definition Object_Type (o : Object) : ObjectType :=
  if String.eqb (o_featureType o) EmptyString then TypeEmptyObject
  else o_featureType o.

Definition IsFeature (o : Object) : bool := String.eqb (Object_Type o) TypeFeature.

Definition IsFeatureCollection (o : Object) : bool :=
  String.eqb (Object_Type o) TypeFeatureCollection.

(** [Object.Feature] and [Object.FeatureCollection] return the pointer the
    object holds, which may be [nil]. *)
Definition Object_Feature (o : Object) : result (option Feature) :=
  if IsFeature o then Ok (o_feature o) else Err ErrInvalidFeature.

Definition Object_FeatureCollection (o : Object) : result (option FeatureCollection) :=
  if IsFeatureCollection o then Ok (o_features o) else Err ErrInvalidFeature.

Definition NewFeatureCollection : FeatureCollection := mkFeatureCollection [] false.

(** [FeatureCollection.Vertices]: the vertices of the features, appended in
    order. *)
Definition FeatureCollection_Vertices (f : FeatureCollection) : result Vertices :=
  do vs <- mapM Feature_Vertices (fc_Features f);
  Ok (List.concat vs).

Definition FeatureCollection_BoundingBox (f : FeatureCollection) : result BoundingBox :=
  do v <- FeatureCollection_Vertices f;
  bbox v.

(** [FeatureCollection.UnmarshalJSON]: the receiver becomes a copy of
    [*few.features]; dereferencing that pointer panics when it is [nil]. *)
Definition FeatureCollection_UnmarshalJSON (d : featureDocument) : result FeatureCollection :=
  match Object_UnmarshalJSON d with
  | Err err => Err (Wrap "failed to unmarshal feature collection" err)
  | Panic => Panic
  | Ok few =>
      match o_features few with
      | Some fc => Ok fc
      | None => Panic
      end
  end.

(** ** The builders *)

(** [VerticesBuilder]: the vertices so far and the first error. *)
Record VerticesBuilder : Type := mkVerticesBuilder {
  vb_vertices : Vertices;
  vb_err : option error
}.

Definition NewVerticesBuilder : VerticesBuilder := mkVerticesBuilder [] None.

(** [Add]: the builder after the call. *)
Definition VerticesBuilder_Add (vb : VerticesBuilder) (v : list float)
  : result VerticesBuilder :=
  match vb_err vb with
  | Some _ => Ok vb
  | None =>
      match NewCoordinates v with
      | Ok coords => Ok (mkVerticesBuilder (vb_vertices vb ++ [coords]) None)
      | Err err =>
          Ok (mkVerticesBuilder (vb_vertices vb)
                (Some (Wrap "failed to create coordinates" err)))
      | Panic => Panic
      end
  end.

Definition VerticesBuilder_Build (vb : VerticesBuilder) : result Vertices :=
  match vb_err vb with
  | Some err => Err err
  | None => Ok (vb_vertices vb)
  end.

(** A chain [NewVerticesBuilder().Add(v1). ... .Add(vn)]. *)
Fixpoint VerticesBuilder_AddAll (vb : VerticesBuilder) (vs : list (list float))
  : result VerticesBuilder :=
  match vs with
  | [] => Ok vb
  | v :: rest => do vb' <- VerticesBuilder_Add vb v; VerticesBuilder_AddAll vb' rest
  end.

(** A call that returns a value, returns one of the sentinel errors of type
    [E], or panics. *)
Inductive outcome (E A : Type) : Type :=
| Returns (a : A)
| Fails (e : E)
| Panics.
Arguments Returns {E A} a.
Arguments Fails {E A} e.
Arguments Panics {E A}.

(** The sentinel error of the segments builder. *)
Inductive segmentsError : Type :=
| ErrVerticesEmpty.

Record SegmentsBuilder : Type := mkSegmentsBuilder {
  sb_segments : Segments;
  sb_err : option segmentsError
}.

Definition NewSegmentsBuilder : SegmentsBuilder := mkSegmentsBuilder [] None.

Definition SegmentsBuilder_Add (sb : SegmentsBuilder) (vertices : Vertices) : SegmentsBuilder :=
  match sb_err sb with
  | Some _ => sb
  | None =>
      if (List.length vertices =? 0)%nat
      then mkSegmentsBuilder (sb_segments sb) (Some ErrVerticesEmpty)
      else mkSegmentsBuilder (sb_segments sb ++ [vertices]) None
  end.

Definition SegmentsBuilder_Build (sb : SegmentsBuilder) : outcome segmentsError Segments :=
  match sb_err sb with
  | Some err => Fails err
  | None => Returns (sb_segments sb)
  end.

(** ** Properties *)

(** The sentinel errors of the properties. *)
Inductive propertyError : Type :=
| ErrKeyEmpty
| ErrPropertyNotFound
| ErrInvalidString
| ErrInvalidInt
| ErrInvalidFloat
| ErrInvalidBool.

(** [Properties] is a Go map from strings to values, held here as a list of
    bindings: [m[key]] reads the first binding of [key], and
    [m[key] = value] replaces the bindings of [key] by one. The empty list
    is both the [nil] map and the empty map, which no method tells apart. *)
Fixpoint mapLookup (m : Properties) (key : string) : option value :=
  match m with
  | [] => None
  | (k, v) :: rest => if String.eqb k key then Some v else mapLookup rest key
  end.

Definition mapStore (m : Properties) (key : string) (v : value) : Properties :=
  (key, v) :: filter (fun kv => negb (String.eqb (fst kv) key)) m.

(** The receiver of each method is a pointer to a map: [None] is the [nil]
    pointer. *)

(** [Set]: the map behind the receiver after a call that returned [nil]. *)
Definition Properties_Set (p : option Properties) (key : string) (v : value)
  : outcome propertyError Properties :=
  if String.eqb key EmptyString then Fails ErrKeyEmpty
  else
    match p with
    | None => Panics
    | Some m => Returns (mapStore m key v)
    end.

(** [Get]: the value and whether the key exists. *)
Definition Properties_Get (p : option Properties) (key : string) : value * bool :=
  match p with
  | None => (VNil, false)
  | Some m =>
      if (List.length m =? 0)%nat then (VNil, false)
      else
        match mapLookup m key with
        | Some v => (v, true)
        | None => (VNil, false)
        end
  end.

(** The lookup shared by the typed getters. *)
Definition Properties_find (p : option Properties) (key : string)
  : outcome propertyError value :=
  match p with
  | None => Fails ErrPropertyNotFound
  | Some m =>
      if (List.length m =? 0)%nat then Fails ErrPropertyNotFound
      else
        match mapLookup m key with
        | Some v => Returns v
        | None => Fails ErrPropertyNotFound
        end
  end.

Definition Properties_GetString (p : option Properties) (key : string)
  : outcome propertyError string :=
  match Properties_find p key with
  | Returns (VString strValue) => Returns strValue
  | Returns _ => Fails ErrInvalidString
  | Fails e => Fails e
  | Panics => Panics
  end.

Definition Properties_GetFloat (p : option Properties) (key : string)
  : outcome propertyError float :=
  match Properties_find p key with
  | Returns (VFloat floatValue) => Returns floatValue
  | Returns _ => Fails ErrInvalidFloat
  | Fails e => Fails e
  | Panics => Panics
  end.

Definition Properties_GetBool (p : option Properties) (key : string)
  : outcome propertyError bool :=
  match Properties_find p key with
  | Returns (VBool boolValue) => Returns boolValue
  | Returns _ => Fails ErrInvalidBool
  | Fails e => Fails e
  | Panics => Panics
  end.

(** Go's conversion [int(f)] of a float64 to a 64-bit [int]: the fraction
    is discarded; [None] where the language leaves the result to the
    implementation (NaN, the infinities, and values outside the range of
    [int]). *)
Definition to_int (f : float) : option Z :=
  match Prim2SF f with
  | S754_zero _ => Some 0%Z
  | S754_finite s m e =>
      let magnitude :=
        if (0 <=? e)%Z then (Z.pos m * 2 ^ e)%Z else (Z.pos m / 2 ^ (- e))%Z in
      let z := if s then (- magnitude)%Z else magnitude in
      if ((- 2 ^ 63 <=? z) && (z <? 2 ^ 63))%Z then Some z else None
  | _ => None
  end.

(** [GetInt] asserts a float64 and converts it. *)
Definition Properties_GetInt (p : option Properties) (key : string)
  : outcome propertyError (option Z) :=
  match Properties_find p key with
  | Returns (VFloat intValue) => Returns (to_int intValue)
  | Returns _ => Fails ErrInvalidInt
  | Fails e => Fails e
  | Panics => Panics
  end.

(** ** What a constructor leaves in the caller's arrays *)

(** The constructors of [InPlace] with the store they leave behind also when
    they return an error: the rings of the caller as they are after the
    call. [ensureOrientation] itself returns no error. *)
Inductive effect : Type :=
| Done (st : InPlace.store)
| Failed (st : InPlace.store) (err : error)
| Crashed.

Definition NewPolygon_effect (st : InPlace.store) (rings : list InPlace.slice) : effect :=
  if (List.length rings =? 0)%nat then Failed st ErrPolygonLinearRingCount
  else
    match checkRings (map (InPlace.load st) rings) with
    | Some err => Failed st err
    | None =>
        match InPlace.ensureOrientation st rings with
        | Ok st' => Done st'
        | Err err => Failed st err
        | Panic => Crashed
        end
    end.

Fixpoint NewMultiPolygonFromRingSlice_effect (st : InPlace.store)
  (slice : list (list InPlace.slice)) : effect :=
  match slice with
  | [] => Done st
  | rings :: rest =>
      match checkRings (map (InPlace.load st) rings) with
      | Some err => Failed st err
      | None =>
          match InPlace.ensureOrientation st rings with
          | Ok st' => NewMultiPolygonFromRingSlice_effect st' rest
          | Err err => Failed st err
          | Panic => Crashed
          end
      end
  end.

(** * Specification-side definitions and test data *)

Definition pt (x y : float) : Coordinates := [x; y].
Definition pt3 (x y z : float) : Coordinates := [x; y; z].

Definition bowtie : LinearRing :=
  [pt 0 0; pt 4 4; pt 4 0; pt 0 4; pt 0 0]%float.
Definition square_cw : LinearRing :=
  [pt 0 0; pt 0 2; pt 2 2; pt 2 0; pt 0 0]%float.
Definition square_ccw : LinearRing :=
  [pt 0 0; pt 2 0; pt 2 2; pt 0 2; pt 0 0]%float.

(** [x] lies in the closed interval [[lo, hi]]. *)
Definition inRange (lo hi x : float) : bool :=
  PrimFloat.leb lo x && PrimFloat.leb x hi.

(** What the two comparisons of [validateCoordinates] let through: the
    numbers of the interval, and NaN. *)
Definition passesRange (lo hi x : float) : bool :=
  inRange lo hi x || PrimFloat.is_nan x.

(** Every vertex has a longitude and a latitude. *)
Definition wellFormed (lr : Vertices) : Prop :=
  Forall (fun c : Coordinates => 2 <= List.length c) lr.

(** [EnsureOrientation] applied twice with the same flag. *)
Definition EnsureOrientation_twice (lr : LinearRing) (flag : bool) : result LinearRing :=
  do r <- EnsureOrientation lr flag;
  EnsureOrientation r flag.

(** A closed ring with coordinates in range whose signed area, as the code
    computes it, is positive in both directions: the cross products are
    [-s, -T, T, s/2] with [T = 0x1p-41] and [s = 0x1p-94], and [T + s]
    rounds to [T]. *)
Definition roundingRing : LinearRing :=
  [pt 0x1p-47 0; pt 0x1p-47 (-0x1p-47); pt (-128) 64; pt 0 (-0x1p-48); pt 0x1p-47 0]%float.

(** Telling two rings apart by the longitude of their second vertex. *)
Definition secondLongitudeIs (x : float) (r : result LinearRing) : bool :=
  match r with
  | Ok (_ :: (lng :: _) :: _) => PrimFloat.eqb lng x
  | _ => false
  end.

(** *** The bounding box, in the words of its specification *)

Definition lngOf (c : Coordinates) : float := nth idxCoordsLng c 0%float.
Definition latOf (c : Coordinates) : float := nth idxCoordsLat c 0%float.
Definition altOf (c : Coordinates) : float := nth idxCoordsAlt c 0%float.

(** The smaller, and the larger, of a running bound [m] and a new value. *)
Definition fmin (m x : float) : float := if PrimFloat.ltb x m then x else m.
Definition fmax (m x : float) : float := if PrimFloat.ltb m x then x else m.

(** Minimum and maximum of a non-empty list, taken from its first element
    on. *)
Definition minimum (l : list float) : float :=
  match l with
  | [] => 0%float
  | x :: xs => fold_left fmin xs x
  end.
Definition maximum (l : list float) : float :=
  match l with
  | [] => 0%float
  | x :: xs => fold_left fmax xs x
  end.

(** The altitudes of the vertices that have one. *)
Definition altitudes (vs : Vertices) : list float :=
  map altOf (filter HasAltitude vs).

(** The box of the specification: empty on no vertex; the 2D box when no
    vertex has an altitude; the 3D box over the altitude-bearing vertices
    when all have one; and that range widened to include 0 when only some
    have one. *)
Definition bboxSpec (vs : Vertices) : BoundingBox :=
  let lngs := map lngOf vs in
  let lats := map latOf vs in
  let alts := altitudes vs in
  match vs, alts with
  | [], _ => []
  | _, [] => [minimum lngs; minimum lats; maximum lngs; maximum lats]
  | _, _ =>
      if forallb HasAltitude vs
      then [minimum lngs; minimum lats; minimum alts;
            maximum lngs; maximum lats; maximum alts]
      else [minimum lngs; minimum lats; fmin (minimum alts) 0;
            maximum lngs; maximum lats; fmax (maximum alts) 0]
  end.

(** A vertex as [NewCoordinates] means it: two or three elements, the
    longitude in [[-180, 180]], the latitude in [[-90, 90]], and a finite
    altitude. *)
Definition validVertex (c : Coordinates) : Prop :=
  (List.length c = 2 \/ List.length c = 3) /\
  inRange LongitudeMin LongitudeMax (lngOf c) = true /\
  inRange LatitudeMin LatitudeMax (latOf c) = true /\
  (HasAltitude c = true -> PrimFloat.is_finite (altOf c) = true).

(** The effect of the first loop of [bbox] on its variables, for a vertex of
    two or three elements. *)
Definition stepSpec (b : bounds) (v : Coordinates) : bounds :=
  mkBounds (fmin (minLng b) (lngOf v)) (fmin (minLat b) (latOf v))
           (fmax (maxLng b) (lngOf v)) (fmax (maxLat b) (latOf v))
           (if HasAltitude v then fmin (minAlt b) (altOf v) else minAlt b)
           (if HasAltitude v then fmax (maxAlt b) (altOf v) else maxAlt b)
           (if HasAltitude v then S (count3D b) else count3D b).

(** The effect of the second loop on a vertex without altitude. *)
Definition widenOnce (b : bounds) : bounds :=
  mkBounds (minLng b) (minLat b) (maxLng b) (maxLat b)
           (fmin (minAlt b) 0) (fmax (maxAlt b) 0) (count3D b).

(** No vertex has an altitude. *)
Definition noAltitude (vs : Vertices) : bool :=
  forallb (fun v => negb (HasAltitude v)) vs.

(** Every vertex has an altitude. *)
Definition allAltitude (vs : Vertices) : bool := forallb HasAltitude vs.

(** Telling two boxes apart by their first number. *)
Definition firstIs (x : float) (r : result BoundingBox) : bool :=
  match r with
  | Ok (y :: _) => PrimFloat.eqb y x
  | _ => false
  end.

Definition mixedVertices : Vertices := [pt (-10) 0; pt3 10 20 (-200)]%float.

(** *** The decode dispatcher *)


(** The result of a coordinate builder, held by the envelope under the
    variant [inj]. *)
Definition held {A : Type} (inj : A -> Geometry) (r : result A) : result GeometryObject :=
  do a <- r; Ok (Some (inj a)).

(** *** Constructors on unvalidated vertices *)

(** A ring of four vertices without any element: it has the valid size and
    is closed. *)
Definition emptyVertexRing : LinearRing := [[]; []; []; []].

(** A closed ring of four vertices, the first and last outside the
    longitude range. *)
Definition outOfRangeRing : LinearRing :=
  [pt 200 0; pt 0 0; pt 0 1; pt 200 0]%float.

(** *** Orientation of the rings of a polygon *)

(** The ring has the orientation [flag] ([true] for counterclockwise), or
    has it in neither direction. *)
Definition orientedUnlessUnorientable (flag : bool) (r : LinearRing) : Prop :=
  IsCounterClockwise r = Ok flag \/
  (IsCounterClockwise r = Ok (negb flag) /\
   IsCounterClockwise (rev r) = Ok (negb flag)).

(** The first ring counterclockwise and the others clockwise, each unless
    it is unorientable. *)
Definition ringsOriented (rings : LinearRings) : Prop :=
  match rings with
  | [] => True
  | outer :: inner =>
      orientedUnlessUnorientable true outer /\
      Forall (orientedUnlessUnorientable false) inner
  end.

(** The first ring counterclockwise and the others clockwise. *)
Definition strictlyOriented (rings : LinearRings) : Prop :=
  match rings with
  | [] => True
  | outer :: inner =>
      IsCounterClockwise outer = Ok true /\
      Forall (fun r => IsClockwise r = Ok true) inner
  end.

(** A store with one array, holding the counterclockwise square, and the
    slice of the whole array. *)
Definition squareStore : InPlace.store :=
  fun a => if (a =? 0)%nat then square_ccw else [].
Definition squareSlice : InPlace.slice := InPlace.mkSlice 0 0 5.

(** A store with the clockwise square in array 0 and the counterclockwise
    square in array 1, and the slices of the two arrays. *)
Definition twoRingStore : InPlace.store :=
  fun a => if (a =? 0)%nat then square_cw
           else if (a =? 1)%nat then square_ccw else [].

(** The in-place call [r] and the call on values [v] agree: both fail alike,
    or the values read from the final store through [f] are the values
    returned. *)
Definition agrees {X : Type} (r : result InPlace.store) (v : result X)
  (f : InPlace.store -> X) : Prop :=
  match r with
  | Ok st' => v = Ok (f st')
  | Err e => v = Err e
  | Panic => v = Panic
  end.

(** What a call leaves alone: the slices of the arrays outside [arrays], and
    the bounds of every slice. *)
Definition frame (arrays : list nat) (st st' : InPlace.store) : Prop :=
  (forall s, ~ In (InPlace.s_array s) arrays -> InPlace.load st' s = InPlace.load st s) /\
  (forall s, InPlace.inBounds st s -> InPlace.inBounds st' s).

Definition framed (arrays : list nat) (st : InPlace.store) (r : result InPlace.store) : Prop :=
  match r with
  | Ok st' => frame arrays st st'
  | _ => True
  end.
Definition firstSlice : InPlace.slice := InPlace.mkSlice 0 0 5.
Definition secondSlice : InPlace.slice := InPlace.mkSlice 1 0 5.

(** The bowtie as the [coordinates] member of a polygon document. *)
Definition bowtieCoordinates : value :=
  VSlice [VSlice (map (fun c : Coordinates => VSlice (map VFloat c)) bowtie)].

(** *** Valid geometries and the round trip *)

(** A coordinate as the data model has it: [NewCoordinates] accepts it, and
    its numbers can be written as JSON (they are finite). *)
Definition validCoordinates (c : Coordinates) : Prop :=
  NewCoordinates c = Ok c /\ forallb F64.marshalable c = true.

Definition validVertices (vs : Vertices) : Prop := Forall validCoordinates vs.

(** At least two vertices, each valid. *)
Definition validSegment (s : Vertices) : Prop :=
  2 <= List.length s /\ validVertices s.

(** At least four vertices, each valid, the first equal to the last. *)
Definition validRing (r : LinearRing) : Prop :=
  validVertices r /\ HasValidSize r = true /\ IsClosed r = true.

(** At least one ring, each valid, the first counterclockwise and the
    others clockwise. *)
Definition validRings (rs : LinearRings) : Prop :=
  rs <> [] /\ Forall validRing rs /\ strictlyOriented rs.

(** The invariants of the data model, variant by variant; the children of a
    collection are present and valid. *)
Fixpoint valid (g : Geometry) : Prop :=
  match g with
  | GPoint p => validCoordinates (pt_coords p)
  | GLineString l => validSegment (ls_vertices l)
  | GMultiPoint m => validVertices (mp_vertices m)
  | GMultiLineString m =>
      mls_segments m <> [] /\ Forall validSegment (mls_segments m)
  | GPolygon p => validRings (pg_rings p)
  | GMultiPolygon m => Forall validRings (mpg_rings m)
  | GGeometryCollection geometries =>
      (fix all (l : list (option Geometry)) : Prop :=
         match l with
         | [] => True
         | Some g' :: t => valid g' /\ all t
         | None :: _ => False
         end) geometries
  end.

(** The geometry with every bounding-box toggle off: its variant and its
    coordinates. *)
Fixpoint withoutBBox (g : Geometry) : Geometry :=
  match g with
  | GPoint p => GPoint (mkPoint (pt_coords p) false)
  | GLineString l => GLineString (mkLineString (ls_vertices l) false)
  | GMultiPoint m => GMultiPoint (mkMultiPoint (mp_vertices m) false)
  | GMultiLineString m => GMultiLineString (mkMultiLineString (mls_segments m) false)
  | GPolygon p => GPolygon (mkPolygon (pg_rings p) false)
  | GMultiPolygon m => GMultiPolygon (mkMultiPolygon (mpg_rings m) false)
  | GGeometryCollection geometries =>
      GGeometryCollection (map (option_map withoutBBox) geometries)
  end.

(** Two geometries are value-equal when they are the same variant with the
    same coordinates (and, for collections, value-equal children in the same
    order): two-element and three-element coordinates differ. *)
Definition valueEqual (a b : Geometry) : Prop := withoutBBox a = withoutBBox b.

(** Encoding, then decoding through [GeometryObject]. *)
Definition roundTrip (g : Geometry) : result GeometryObject :=
  do d <- Geometry_MarshalJSON g;
  GeometryObject_UnmarshalJSON d.

(** The JSON value of coordinates, vertices, segments and ring groups. *)
Definition encCoordinates (c : Coordinates) : value := VSlice (map VFloat c).
Definition encVertices (vs : Vertices) : value := VSlice (map encCoordinates vs).
Definition encSegments (ss : list Vertices) : value := VSlice (map encVertices ss).
Definition encGroups (gs : list LinearRings) : value := VSlice (map encSegments gs).

(** The six bounds are finite. *)
Definition finiteBounds (b : bounds) : Prop :=
  F64.marshalable (minLng b) = true /\ F64.marshalable (minLat b) = true /\
  F64.marshalable (maxLng b) = true /\ F64.marshalable (maxLat b) = true /\
  F64.marshalable (minAlt b) = true /\ F64.marshalable (maxAlt b) = true.

(** The document of a geometry with coordinates. *)
Definition coordinatesDocument (type_ : GeometryType) (coordinates : value)
  (bbox_ : list float) : document :=
  Document type_ coordinates [] bbox_.

(** A collection holding a point with altitude, a polygon with a hole and a
    nested collection. *)
Definition sampleCollection : Geometry :=
  GGeometryCollection
    [Some (GPoint (mkPoint (pt3 1 2 3) true));
     Some (GPolygon (mkPolygon [square_ccw; square_cw] false));
     Some (GGeometryCollection [Some (GLineString (mkLineString [pt 0 0; pt 1 1] true))])]%float.

(** The polygon [NewPolygon] builds from the bowtie. *)
Definition bowtiePolygon : Geometry := GPolygon (mkPolygon [rev bowtie] false).

(** The first ring of a polygon. *)
Definition firstRing (g : Geometry) : result LinearRing :=
  match g with
  | GPolygon (mkPolygon (r :: _) _) => Ok r
  | _ => Err ErrGeometryTypeMismatch
  end.

(** * Specification-side definitions for the further properties *)

(** *** The order of float64 *)

(** The place of a number in the order of [SFcompare]: its class (negative
    infinity, the negative numbers, the zeros, the positive numbers,
    positive infinity), then the exponent, then the mantissa, both negated
    for a negative number. *)
Definition floatKey (x : spec_float) : Z * Z * Z :=
  match x with
  | S754_nan => (0, 0, 0)
  | S754_infinity true => (-2, 0, 0)
  | S754_infinity false => (2, 0, 0)
  | S754_zero _ => (0, 0, 0)
  | S754_finite true m e => (-1, - e, Z.neg m)
  | S754_finite false m e => (1, e, Z.pos m)
  end%Z.

Definition lexCompare (a b : Z * Z * Z) : comparison :=
  let '(a1, a2, a3) := a in
  let '(b1, b2, b3) := b in
  match (a1 ?= b1)%Z with
  | Eq => match (a2 ?= b2)%Z with
          | Eq => (a3 ?= b3)%Z
          | c => c
          end
  | c => c
  end.

(** What [cmp.Compare] tells apart: NaN from the numbers, and the numbers
    by their place in the order. *)
Definition compareKey (x : float) : option (Z * Z * Z) :=
  if PrimFloat.is_nan x then None else Some (floatKey (Prim2SF x)).

(** Two float64 are [==], or both are NaN. *)
Definition sameNumber (x y : float) : Prop :=
  PrimFloat.eqb x y = true \/ (PrimFloat.is_nan x = true /\ PrimFloat.is_nan y = true).

(** *** Rings of polygons *)

(** The ring [r'] is the ring [r], as it was or reversed. *)
Definition reoriented (r r' : LinearRing) : Prop := r' = r \/ r' = rev r.

(** Every ring has the valid size and is closed. *)
Definition allValid (rings : LinearRings) : Prop :=
  Forall (fun r => IsValid r = true) rings.

(** The rings loaded from a store through their slices. *)
Definition loadAll (st : InPlace.store) (rings : list InPlace.slice) : LinearRings :=
  map (InPlace.load st) rings.


(** Two rings that overlap in one array of six vertices: the square
    [A B C D A] from the first vertex and the square [B C D A B] from the
    second. *)
Definition overlapStore : InPlace.store :=
  fun a => if (a =? 0)%nat
           then [pt 0 0; pt 2 0; pt 2 2; pt 0 2; pt 0 0; pt 2 0]%float
           else [].
Definition overlapFirst : InPlace.slice := InPlace.mkSlice 0 0 5.
Definition overlapSecond : InPlace.slice := InPlace.mkSlice 0 1 5.

(** *** The bounding box as a box *)

(** [x] lies between [lo] and [hi]. *)
Definition within (lo x hi : float) : Prop :=
  PrimFloat.leb lo x = true /\ PrimFloat.leb x hi = true.

(** The vertex lies in the box: its longitude and latitude between the
    bounds of a 2D or 3D box, and for a 3D box its altitude too, a vertex
    without altitude counting as at altitude 0. No vertex lies in another
    slice. *)
Definition contains (b : BoundingBox) (v : Coordinates) : Prop :=
  match b with
  | [minLng; minLat; maxLng; maxLat] =>
      within minLng (lngOf v) maxLng /\ within minLat (latOf v) maxLat
  | [minLng; minLat; minAlt; maxLng; maxLat; maxAlt] =>
      within minLng (lngOf v) maxLng /\ within minLat (latOf v) maxLat /\
      within minAlt (if HasAltitude v then altOf v else 0%float) maxAlt
  | _ => False
  end.

(** The longitude and the latitude of the vertex, and its altitude when it
    has one, are numbers (not NaN). *)
Definition numericVertex (v : Coordinates) : Prop :=
  PrimFloat.is_nan (lngOf v) = false /\ PrimFloat.is_nan (latOf v) = false /\
  (HasAltitude v = true -> PrimFloat.is_nan (altOf v) = false).

(** The variables of [bbox] when it returns, for vertices of two or more
    elements. *)
Definition finalBounds (vs : Vertices) : bounds :=
  let b := fold_left stepSpec vs bounds_init in
  if forallb HasAltitude vs then b else widenOnce b.

Definition shortVertex (v : Coordinates) : Prop := List.length v < 2.

Definition threeVertices : Vertices := [pt 200 0; pt3 (-3) 95 7; pt 1 2]%float.

(** *** What decoding guarantees *)

(** [NewCoordinates] accepts the coordinates: two or three elements, the
    first two passing the range checks. *)
Definition accepted (c : Coordinates) : Prop := NewCoordinates c = Ok c.

(** At least two vertices, each accepted. *)
Definition soundSegment (s : Vertices) : Prop :=
  2 <= List.length s /\ Forall accepted s.

(** At least one ring, each of valid size, closed and of accepted
    vertices. *)
Definition soundRings (rs : LinearRings) : Prop :=
  rs <> [] /\ Forall (fun r => IsValid r = true /\ Forall accepted r) rs.

(** What holds of every geometry that the decoder returns, variant by
    variant; no child of a collection is [nil]. *)
Fixpoint sound (g : Geometry) : Prop :=
  match g with
  | GPoint p => accepted (pt_coords p)
  | GLineString l => soundSegment (ls_vertices l)
  | GMultiPoint m => Forall accepted (mp_vertices m)
  | GMultiLineString m => mls_segments m <> [] /\ Forall soundSegment (mls_segments m)
  | GPolygon p => soundRings (pg_rings p)
  | GMultiPolygon m => Forall soundRings (mpg_rings m)
  | GGeometryCollection geometries =>
      (fix all (l : list (option Geometry)) : Prop :=
         match l with
         | [] => True
         | Some g' :: t => sound g' /\ all t
         | None :: _ => False
         end) geometries
  end.

(** The envelope holds a geometry, and it is sound. *)
Definition soundObject (o : GeometryObject) : Prop :=
  match o with
  | Some g => sound g
  | None => False
  end.

(** The type tag of a document. *)
Definition tagOf (d : document) : string :=
  match d with Document type_ _ _ _ => type_ end.

(** A polygon document holding the bowtie. *)
Definition bowtieDocument : document := Document TypePolygon bowtieCoordinates [] [].

(** *** The decoders of the variants *)

(** The bounding-box toggle of the variant a geometry holds (a collection
    has none). *)
Definition flagOf (g : Geometry) : bool :=
  match g with
  | GPoint p => pt_SerializeBBox p
  | GLineString l => ls_SerializeBBox l
  | GMultiPoint m => mp_SerializeBBox m
  | GMultiLineString m => mls_SerializeBBox m
  | GPolygon p => pg_SerializeBBox p
  | GMultiPolygon m => mpg_SerializeBBox m
  | GGeometryCollection _ => false
  end.

(** What a decoder [decode] of the variant with tag [tag] does, for a
    receiver [recv] and a document [data]: it does not panic; when it
    succeeds the document carries the tag of the variant, the envelope
    decoder returns this variant with the coordinates now in the receiver
    ([inj] wraps them with the toggle off), and the receiver keeps its
    toggle ([flag]); and when the envelope decoder returns a geometry for a
    document of another tag, it fails with [ErrInvalidTypeField]. *)
Definition decodesVariant {A C : Type} (tag : string) (inj : C -> Geometry)
  (coords : A -> C) (flag : A -> bool) (decode : A -> document -> result A) : Prop :=
  forall (recv : A) (data : document),
    decode recv data <> Panic /\
    (forall r, decode recv data = Ok r ->
       tagOf data = tag /\ flag r = flag recv /\
       GeometryObject_UnmarshalJSON data = Ok (Some (inj (coords r)))) /\
    (forall o, GeometryObject_UnmarshalJSON data = Ok o -> tagOf data <> tag ->
       decode recv data = Err ErrInvalidTypeField).

(** A point document and a polygon document. *)
Definition pointDocument : document :=
  Document TypePoint (VSlice [VFloat 1; VFloat 2]) [] [].

(** *** Objects *)

(** The zero [Object]. *)
Definition zeroObject : Object := mkObject EmptyString None None.

(** A feature document without geometry, and a collection of two such
    features. *)
Definition featureOnly : featureDocument :=
  FeatureDocument TypeFeature Null [] None [].
Definition collectionOfTwo : featureDocument :=
  FeatureDocument TypeFeatureCollection Missing [] None [featureOnly; featureOnly].

(** *** Builders *)

(** The result of [Build] after the chain of [Add] calls [vs] on a new
    vertices builder. *)
Definition buildVertices (vs : list (list float)) : result Vertices :=
  do vb <- VerticesBuilder_AddAll NewVerticesBuilder vs;
  VerticesBuilder_Build vb.

(** The result of [Build] after the chain of [Add] calls [segs] on a new
    segments builder. *)
Definition buildSegments (segs : list Vertices) : outcome segmentsError Segments :=
  SegmentsBuilder_Build (fold_left SegmentsBuilder_Add segs NewSegmentsBuilder).

(** *** Constructors on decoded geometries *)

(** The exported constructor of the variant, applied to the coordinates the
    geometry holds. *)
Definition rebuild (g : Geometry) : result Geometry :=
  match g with
  | GPoint p => do p' <- NewPoint (pt_coords p); Ok (GPoint p')
  | GLineString l => do l' <- NewLineString (ls_vertices l); Ok (GLineString l')
  | GMultiPoint m => Ok (GMultiPoint (NewMultiPointFromVertices (mp_vertices m)))
  | GMultiLineString m =>
      do m' <- NewMultiLineString (mls_segments m); Ok (GMultiLineString m')
  | GPolygon p => do p' <- NewPolygon (pg_rings p); Ok (GPolygon p')
  | GMultiPolygon m =>
      do m' <- NewMultiPolygonFromRingSlice (mpg_rings m); Ok (GMultiPolygon m')
  | GGeometryCollection gs => Ok (NewGeometryCollectionFromSlice gs)
  end.

(** The geometry holds rings. *)
Definition hasRings (g : Geometry) : bool :=
  match g with
  | GPolygon _ | GMultiPolygon _ => true
  | _ => false
  end.

(** *** Properties *)

(** What the typed getters answer for a key, given what [Get] answers. *)
Definition gettersAgree (p : option Properties) (key : string) : Prop :=
  match Properties_Get p key with
  | (_, false) =>
      Properties_GetString p key = Fails ErrPropertyNotFound /\
      Properties_GetInt p key = Fails ErrPropertyNotFound /\
      Properties_GetFloat p key = Fails ErrPropertyNotFound /\
      Properties_GetBool p key = Fails ErrPropertyNotFound
  | (VString s, true) =>
      Properties_GetString p key = Returns s /\
      Properties_GetInt p key = Fails ErrInvalidInt /\
      Properties_GetFloat p key = Fails ErrInvalidFloat /\
      Properties_GetBool p key = Fails ErrInvalidBool
  | (VFloat f, true) =>
      Properties_GetString p key = Fails ErrInvalidString /\
      Properties_GetInt p key = Returns (to_int f) /\
      Properties_GetFloat p key = Returns f /\
      Properties_GetBool p key = Fails ErrInvalidBool
  | (VBool b, true) =>
      Properties_GetString p key = Fails ErrInvalidString /\
      Properties_GetInt p key = Fails ErrInvalidInt /\
      Properties_GetFloat p key = Fails ErrInvalidFloat /\
      Properties_GetBool p key = Returns b
  | (_, true) =>
      Properties_GetString p key = Fails ErrInvalidString /\
      Properties_GetInt p key = Fails ErrInvalidInt /\
      Properties_GetFloat p key = Fails ErrInvalidFloat /\
      Properties_GetBool p key = Fails ErrInvalidBool
  end.

(** *** Encoding *)

(** Every number of the coordinates is finite. *)
Definition finiteCoordinates (c : Coordinates) : Prop :=
  Forall (fun x => PrimFloat.is_finite x = true) c.

(** Every number of the geometry is finite; a [nil] child of a collection
    has none. *)
Fixpoint allFinite (g : Geometry) : Prop :=
  match g with
  | GPoint p => finiteCoordinates (pt_coords p)
  | GLineString l => Forall finiteCoordinates (ls_vertices l)
  | GMultiPoint m => Forall finiteCoordinates (mp_vertices m)
  | GMultiLineString m => Forall (Forall finiteCoordinates) (mls_segments m)
  | GPolygon p => Forall (Forall finiteCoordinates) (pg_rings p)
  | GMultiPolygon m => Forall (Forall (Forall finiteCoordinates)) (mpg_rings m)
  | GGeometryCollection geometries =>
      (fix all (l : list (option Geometry)) : Prop :=
         match l with
         | [] => True
         | Some g' :: t => allFinite g' /\ all t
         | None :: t => all t
         end) geometries
  end.

(** The call returned a value. *)
Definition returns {A : Type} (r : result A) : Prop := exists a, r = Ok a.

(** The [bbox] member of a document. *)
Definition bboxOf (d : document) : list float :=
  match d with Document _ _ _ bbox_ => bbox_ end.

(** A point at a NaN longitude, which [NewCoordinates] accepts. *)
Definition nanPoint : Geometry := GPoint (mkPoint [PrimFloat.nan; 0%float] false).

(** A line string with a vertex of one element and the toggle on. *)
Definition shortLine : Geometry :=
  GLineString (mkLineString [[1%float]; pt 0 0] true).

(** *** The envelope *)

(** The two errors of a conversion [convert] whose type test is [test]: it
    fails with [ErrGeometryNotDefined] exactly on the empty envelope, and
    with [ErrGeometryTypeMismatch] exactly on an envelope that is not empty
    and fails the test. *)
Definition conversionErrors {A : Type} (test : GeometryObject -> bool)
  (convert : GeometryObject -> result A) (g : GeometryObject) : Prop :=
  (IsEmpty g = true <-> convert g = Err ErrGeometryNotDefined) /\
  (IsEmpty g = false /\ test g = false <-> convert g = Err ErrGeometryTypeMismatch).

(** *** Features *)

(** The geometry of the feature, when it has one, is sound. *)
Definition soundFeature (f : Feature) : Prop :=
  match f_Geometry f with
  | Some g => sound g
  | None => True
  end.

(** The geometries of the features that have one, in order. *)
Definition presentGeometries (features : list Feature) : list (option Geometry) :=
  flat_map (fun f => match f_Geometry f with
                     | Some g => [Some g]
                     | None => []
                     end) features.

(** A feature document holding the bowtie polygon. *)
Definition bowtieFeature : featureDocument :=
  FeatureDocument TypeFeature (Present bowtieDocument) [] None [].

(** *** Effects on the caller's rings *)

(** The first three vertices of array 1: a ring that is too short. *)
Definition shortSlice : InPlace.slice := InPlace.mkSlice 1 0 3.

(** *** Collections with nil children *)

(** The geometry is a collection that holds a [nil] geometry, at any
    depth. *)
Fixpoint hasNil (g : Geometry) : Prop :=
  match g with
  | GGeometryCollection geometries =>
      (fix any (l : list (option Geometry)) : Prop :=
         match l with
         | [] => False
         | None :: _ => True
         | Some g' :: t => hasNil g' \/ any t
         end) geometries
  | _ => False
  end.

(** A collection that holds a collection with a [nil] child. *)
Definition nestedNil : Geometry :=
  GGeometryCollection
    [Some (GPoint (mkPoint (pt 1 2) false)); Some (GGeometryCollection [None])]%float.

(** A point document that carries a [bbox] member. *)
Definition pointWithBox : document :=
  Document TypePoint (VSlice [VFloat 1; VFloat 2]) [] [1; 2; 1; 2]%float.

(** * Properties *)

(** ** Values computed by the package on the inputs of its tests *)

Example NewCoordinates_200_0 :
  NewCoordinates [200%float; 0%float] = Err (Wrap "invalid coordinates" ErrLongitudeRange).
Proof. reflexivity. Qed.

Example NewCoordinates_nan :
  NewCoordinates [PrimFloat.nan; 0%float] = Ok [PrimFloat.nan; 0%float].
Proof. reflexivity. Qed.

Example of_int_7 : F64.of_int 7 = 7%float.
Proof. reflexivity. Qed.

Example Area_square : Area square_cw = Ok 4%float.
Proof. reflexivity. Qed.
Example Area_bowtie : Area bowtie = Ok 0%float.
Proof. reflexivity. Qed.
Example ccw_square : IsCounterClockwise square_ccw = Ok true.
Proof. reflexivity. Qed.
Example NewLinearRing_3 :
  NewLinearRing [pt 0 0; pt 1 1; pt 0 0]%float = Err ErrLinearRingSize.
Proof. reflexivity. Qed.
Example NewPolygon_nil : NewPolygon [] = Err ErrPolygonLinearRingCount.
Proof. reflexivity. Qed.
Example NewPolygon_bowtie :
  NewPolygon [bowtie] = Ok (mkPolygon [rev bowtie] false).
Proof. reflexivity. Qed.
Example NewPolygon_short_vertices : NewPolygon [[[]; []; []; []]] = Panic.
Proof. reflexivity. Qed.

Example bbox_2D :
  bbox [pt 1 2; pt 3 4; pt 0 5]%float = Ok [0; 2; 3; 5]%float.
Proof. reflexivity. Qed.
Example bbox_3D :
  bbox [pt3 1 2 3; pt3 4 5 6; pt3 0 7 1]%float = Ok [0; 2; 1; 4; 7; 6]%float.
Proof. reflexivity. Qed.
Example bbox_mixed :
  bbox [pt (-10) 0; pt3 10 20 (-200)]%float = Ok [-10; 0; -200; 10; 20; 0]%float.
Proof. reflexivity. Qed.
Example bbox_out_of_range :
  bbox [pt 200 0]%float = Ok [180; 0; 200; 0]%float.
Proof. reflexivity. Qed.

(** ** Facts about float64 comparisons *)

Module F64Facts.

(** [SFcompare] is antisymmetric. *)
Lemma SFcompare_antisym (x y : spec_float) :
  SFcompare y x = option_map CompOpp (SFcompare x y).
Proof.
  destruct x as [sx|sx| |sx mx ex], y as [sy|sy| |sy my ey]; simpl;
    try reflexivity;
    try (destruct sx; reflexivity);
    try (destruct sy; reflexivity);
    try (destruct sx, sy; reflexivity).
  destruct sx, sy; simpl; try reflexivity;
    rewrite (Z.compare_antisym ex ey);
    destruct (ex ?= ey)%Z; simpl; try reflexivity;
    rewrite (Pos.compare_cont_antisym mx my Eq); simpl;
    destruct (Pos.compare_cont Eq my mx); reflexivity.
Qed.

(** Only NaN is incomparable. *)
Lemma SFcompare_None (x y : spec_float) :
  SFcompare x y = None <-> x = S754_nan \/ y = S754_nan.
Proof.
  split.
  - destruct x as [sx|sx| |sx mx ex], y as [sy|sy| |sy my ey]; simpl;
      intros H; try discriminate; auto.
  - intros [-> | ->]; [reflexivity | destruct x; reflexivity].
Qed.

Lemma SFcompare_refl (x : spec_float) :
  x <> S754_nan -> SFcompare x x = Some Eq.
Proof.
  destruct x as [sx|sx| |sx mx ex]; simpl; intros H;
    try reflexivity; try (destruct sx; reflexivity); try congruence.
  destruct sx; rewrite Z.compare_refl, Pos.compare_cont_refl; reflexivity.
Qed.

(** [SFcompare] answers [Eq] against a finite non-zero number only for that
    number. *)
Lemma SFcompare_Eq_finite (x : spec_float) (s : bool) (m : positive) (e : Z) :
  SFcompare x (S754_finite s m e) = Some Eq -> x = S754_finite s m e.
Proof.
  destruct x as [sx|sx| |sx mx ex]; simpl;
    try discriminate;
    try (destruct sx; discriminate);
    try (destruct s; discriminate).
  destruct sx, s; simpl; try discriminate;
    destruct (ex ?= e)%Z eqn:He; try discriminate;
    apply Z.compare_eq in He; subst ex; intros H.
  - assert (Hm : Pos.compare_cont Eq mx m = Eq)
      by (destruct (Pos.compare_cont Eq mx m); simpl in H; congruence).
    apply Pos.compare_eq in Hm. subst. reflexivity.
  - assert (Hm : Pos.compare_cont Eq mx m = Eq) by congruence.
    apply Pos.compare_eq in Hm. subst. reflexivity.
Qed.

Lemma is_nan_spec (x : float) :
  PrimFloat.is_nan x = true <-> Prim2SF x = S754_nan.
Proof.
  unfold PrimFloat.is_nan. rewrite eqb_spec. unfold SFeqb.
  destruct (Prim2SF x) as [sx|sx| |sx mx ex] eqn:E.
  - simpl. split; discriminate.
  - rewrite SFcompare_refl by discriminate. simpl. split; discriminate.
  - simpl. split; reflexivity.
  - rewrite SFcompare_refl by discriminate. simpl. split; discriminate.
Qed.

Lemma is_nan_false (x : float) :
  PrimFloat.is_nan x = false <-> Prim2SF x <> S754_nan.
Proof.
  rewrite <- is_nan_spec. destruct (PrimFloat.is_nan x); split; congruence.
Qed.

(** Comparisons with NaN are false. *)
Lemma ltb_nan_l (x y : float) : PrimFloat.is_nan x = true -> PrimFloat.ltb x y = false.
Proof.
  rewrite is_nan_spec, ltb_spec. intros ->. reflexivity.
Qed.

Lemma ltb_nan_r (x y : float) : PrimFloat.is_nan y = true -> PrimFloat.ltb x y = false.
Proof.
  rewrite is_nan_spec, ltb_spec. intros ->. unfold SFltb.
  destruct (Prim2SF x); reflexivity.
Qed.

Lemma leb_nan_l (x y : float) : PrimFloat.is_nan x = true -> PrimFloat.leb x y = false.
Proof.
  rewrite is_nan_spec, leb_spec. intros ->. reflexivity.
Qed.

Lemma leb_nan_r (x y : float) : PrimFloat.is_nan y = true -> PrimFloat.leb x y = false.
Proof.
  rewrite is_nan_spec, leb_spec. intros ->. unfold SFleb.
  destruct (Prim2SF x); reflexivity.
Qed.

(** On numbers, [x < y] is the negation of [y <= x]. *)
Lemma ltb_negb_leb (x y : float) :
  PrimFloat.is_nan x = false -> PrimFloat.is_nan y = false ->
  PrimFloat.ltb x y = negb (PrimFloat.leb y x).
Proof.
  rewrite !is_nan_false, ltb_spec, leb_spec. intros Hx Hy.
  unfold SFltb, SFleb. rewrite (SFcompare_antisym (Prim2SF x) (Prim2SF y)).
  destruct (SFcompare (Prim2SF x) (Prim2SF y)) as [[ | | ]|] eqn:E; simpl;
    try reflexivity.
  apply SFcompare_None in E. tauto.
Qed.

(** [x <= c] and not [x < c], for a finite non-zero [c], leaves [x = c]. *)
Lemma leb_not_ltb_eq (x c : float) (s : bool) (m : positive) (e : Z) :
  Prim2SF c = S754_finite s m e ->
  PrimFloat.leb x c = true -> PrimFloat.ltb x c = false -> x = c.
Proof.
  rewrite leb_spec, ltb_spec. unfold SFleb, SFltb. intros Hc.
  destruct (SFcompare (Prim2SF x) (Prim2SF c)) as [[ | | ]|] eqn:E;
    try discriminate.
  intros _ _. apply Prim2SF_inj. rewrite Hc in *.
  apply SFcompare_Eq_finite. exact E.
Qed.

Lemma leb_not_gtb_eq (x c : float) (s : bool) (m : positive) (e : Z) :
  Prim2SF c = S754_finite s m e ->
  PrimFloat.leb c x = true -> F64.gtb x c = false -> x = c.
Proof.
  unfold F64.gtb. rewrite leb_spec, ltb_spec. unfold SFleb, SFltb. intros Hc.
  rewrite (SFcompare_antisym (Prim2SF x) (Prim2SF c)).
  destruct (SFcompare (Prim2SF x) (Prim2SF c)) as [[ | | ]|] eqn:E;
    simpl; try discriminate.
  intros _ _. apply Prim2SF_inj. rewrite Hc in *.
  apply SFcompare_Eq_finite. exact E.
Qed.

End F64Facts.

(** ** NewCoordinates *)

Lemma out_of_range_spec (lo hi x : float) :
  PrimFloat.is_nan lo = false -> PrimFloat.is_nan hi = false ->
  PrimFloat.ltb x lo || F64.gtb x hi = negb (passesRange lo hi x).
Proof.
  intros Hlo Hhi. unfold passesRange, inRange, F64.gtb.
  destruct (PrimFloat.is_nan x) eqn:Hx.
  - rewrite (F64Facts.ltb_nan_l x lo Hx), (F64Facts.ltb_nan_r hi x Hx).
    rewrite orb_true_r. reflexivity.
  - rewrite (F64Facts.ltb_negb_leb x lo Hx Hlo), (F64Facts.ltb_negb_leb hi x Hhi Hx).
    rewrite orb_false_r, negb_andb. reflexivity.
Qed.

Lemma validateCoordinates_spec (longitude latitude : float) :
  validateCoordinates longitude latitude =
    if negb (passesRange LongitudeMin LongitudeMax longitude) then Some ErrLongitudeRange
    else if negb (passesRange LatitudeMin LatitudeMax latitude) then Some ErrLatitudeRange
    else None.
Proof.
  unfold validateCoordinates.
  rewrite (out_of_range_spec LongitudeMin LongitudeMax longitude) by reflexivity.
  rewrite (out_of_range_spec LatitudeMin LatitudeMax latitude) by reflexivity.
  reflexivity.
Qed.

(** The length test of [NewCoordinates]. *)
Lemma coords_length_cases (v : list float) :
  (exists lng lat, v = [lng; lat]) \/
  (exists lng lat alt, v = [lng; lat; alt]) \/
  (negb (List.length v =? coordsMinLen)%nat && negb (List.length v =? coordsMaxLen)%nat
   = true).
Proof.
  destruct v as [|a [|b [|c [|d v]]]]; simpl; eauto 6.
Qed.

(** [NewCoordinates], case by case: the size error for a length other than
    2 or 3; otherwise the longitude error when the longitude is below -180
    or above 180, else the latitude error when the latitude is below -90 or
    above 90, else a copy of the input. A NaN longitude or latitude passes
    both comparisons. *)
Theorem NewCoordinates_cases (v : list float) :
  match v with
  | [lng; lat] | [lng; lat; _] =>
      if negb (passesRange LongitudeMin LongitudeMax lng)
      then NewCoordinates v = Err (Wrap "invalid coordinates" ErrLongitudeRange)
      else if negb (passesRange LatitudeMin LatitudeMax lat)
      then NewCoordinates v = Err (Wrap "invalid coordinates" ErrLatitudeRange)
      else NewCoordinates v = Ok v
  | _ => NewCoordinates v = Err ErrCoordinatesSize
  end.
Proof.
  destruct v as [|lng [|lat [|alt [|d v]]]]; try reflexivity;
    unfold NewCoordinates; simpl; rewrite validateCoordinates_spec;
    destruct (negb (passesRange LongitudeMin LongitudeMax lng));
    try reflexivity;
    destruct (negb (passesRange LatitudeMin LatitudeMax lat)); reflexivity.
Qed.

(** [NewCoordinates] succeeds exactly on two or three elements whose
    longitude and latitude pass the comparisons. *)
Corollary NewCoordinates_Ok_iff (v : list float) :
  is_Ok (NewCoordinates v) = true <->
  (List.length v = 2 \/ List.length v = 3) /\
  passesRange LongitudeMin LongitudeMax (nth 0 v 0%float) = true /\
  passesRange LatitudeMin LatitudeMax (nth 1 v 0%float) = true.
Proof.
  destruct v as [|lng [|lat [|alt [|d v]]]];
    try (split; [discriminate | intros [[|] _]; discriminate]).
  - pose proof (NewCoordinates_cases [lng; lat]) as H. cbv beta iota in H.
    cbn [nth List.length].
    destruct (passesRange LongitudeMin LongitudeMax lng); cbn [negb] in H;
      [destruct (passesRange LatitudeMin LatitudeMax lat); cbn [negb] in H|];
      rewrite H; cbn [is_Ok]; intuition discriminate.
  - pose proof (NewCoordinates_cases [lng; lat; alt]) as H. cbv beta iota in H.
    cbn [nth List.length].
    destruct (passesRange LongitudeMin LongitudeMax lng); cbn [negb] in H;
      [destruct (passesRange LatitudeMin LatitudeMax lat); cbn [negb] in H|];
      rewrite H; cbn [is_Ok]; intuition discriminate.
Qed.

(** What a successful [NewCoordinates] guarantees about its result. *)
Lemma NewCoordinates_Ok_inv (v : list float) (c : Coordinates) :
  NewCoordinates v = Ok c ->
  c = v /\ (exists lng lat rest, c = lng :: lat :: rest /\ List.length rest <= 1 /\
            validateCoordinates lng lat = None).
Proof.
  intros E.
  destruct v as [|lng [|lat [|alt [|d v]]]]; try discriminate E.
  - pose proof (NewCoordinates_cases [lng; lat]) as H. cbv beta iota in H.
    pose proof (validateCoordinates_spec lng lat) as Hv.
    destruct (negb (passesRange LongitudeMin LongitudeMax lng));
      [rewrite H in E; discriminate|].
    destruct (negb (passesRange LatitudeMin LatitudeMax lat));
      [rewrite H in E; discriminate|].
    rewrite H in E. injection E as <-. split; [reflexivity|].
    exists lng, lat, []. simpl. auto.
  - pose proof (NewCoordinates_cases [lng; lat; alt]) as H. cbv beta iota in H.
    pose proof (validateCoordinates_spec lng lat) as Hv.
    destruct (negb (passesRange LongitudeMin LongitudeMax lng));
      [rewrite H in E; discriminate|].
    destruct (negb (passesRange LatitudeMin LatitudeMax lat));
      [rewrite H in E; discriminate|].
    rewrite H in E. injection E as <-. split; [reflexivity|].
    exists lng, lat, [alt]. simpl. auto.
Qed.

(** C5, at the input [[NaN, 0]]: [NewCoordinates] succeeds, although NaN
    does not lie in [[-180, 180]]; and at [[0, NaN]] likewise for the
    latitude. The claim's other parts hold ([NewCoordinates_cases]): the
    size error, the two range errors in this order, and the longitude error
    for [[200, 0]]. *)
Theorem C5_NewCoordinates_accepts_NaN :
  NewCoordinates [PrimFloat.nan; 0%float] = Ok [PrimFloat.nan; 0%float] /\
  inRange LongitudeMin LongitudeMax PrimFloat.nan = false /\
  NewCoordinates [0%float; PrimFloat.nan] = Ok [0%float; PrimFloat.nan] /\
  inRange LatitudeMin LatitudeMax PrimFloat.nan = false /\
  failsWith (NewCoordinates [200%float; 0%float]) ErrLongitudeRange.
Proof.
  repeat split; try reflexivity.
  eexists. split; reflexivity.
Qed.

(** ** The two versions of bbox *)

Lemma Inline_step_eq (b : bounds) (v : Coordinates) :
  Inline.step b v = bbox_step b v.
Proof.
  unfold Inline.step, bbox_step, updateRange.
  destruct (Longitude v) as [lng| |]; simpl; reflexivity.
Qed.

Lemma Inline_loop1_eq (vertices : Vertices) :
  forall b, Inline.loop1 b vertices = bbox_loop1 b vertices.
Proof.
  induction vertices as [|v rest IH]; intros b; simpl.
  - reflexivity.
  - rewrite Inline_step_eq. destruct (bbox_step b v); simpl; auto.
Qed.

Lemma Inline_widen_eq (b : bounds) (v : Coordinates) :
  Inline.widen b v = bbox_widen b v.
Proof. reflexivity. Qed.

Lemma Inline_widen_fold (vertices : Vertices) :
  forall b, fold_left Inline.widen vertices b = fold_left bbox_widen vertices b.
Proof.
  induction vertices as [|v rest IH]; intros b; simpl; [reflexivity|].
  rewrite Inline_widen_eq. apply IH.
Qed.

(** C8: the version of [bbox] with explicit comparisons and [counter3D] and
    the version with [updateRange] and [altitudeCount] give the same result
    on every vertex list (the same box, or a panic in both on a vertex with
    fewer than two elements). *)
Theorem C8_bbox_versions_agree (vertices : Vertices) :
  Inline.bbox vertices = bbox vertices.
Proof.
  unfold Inline.bbox, bbox.
  destruct (List.length vertices =? 0)%nat; [reflexivity|].
  rewrite Inline_loop1_eq.
  destruct (bbox_loop1 bounds_init vertices) as [b| |]; cbn [bind]; reflexivity.
Qed.

(** ** Orientation of one ring *)

Lemma index_wellFormed (c : Coordinates) :
  2 <= List.length c ->
  exists x y, index c idxCoordsLng = Ok x /\ index c idxCoordsLat = Ok y.
Proof.
  destruct c as [|x [|y c]]; simpl; try lia. intros _. exists x, y. auto.
Qed.

Lemma signedArea_loop_cons (p1 p2 : Coordinates) (rest : LinearRing) (v : float) :
  signedArea_loop (p1 :: p2 :: rest) v =
    do x1 <- index p1 idxCoordsLng;
    do y1 <- index p1 idxCoordsLat;
    do x2 <- index p2 idxCoordsLng;
    do y2 <- index p2 idxCoordsLat;
    signedArea_loop (p2 :: rest) (v + (x1 * y2 - x2 * y1))%float.
Proof. reflexivity. Qed.

Lemma signedArea_loop_total (lr : LinearRing) :
  wellFormed lr -> forall v, exists a, signedArea_loop lr v = Ok a.
Proof.
  induction lr as [|p1 rest IH]; intros H v.
  - exists v. reflexivity.
  - destruct rest as [|p2 rest'].
    + exists v. reflexivity.
    + inversion H as [|? ? H1 Hrest]; subst.
      inversion Hrest as [|? ? H2 _]; subst.
      destruct (index_wellFormed p1 H1) as (x1 & y1 & E1 & E1').
      destruct (index_wellFormed p2 H2) as (x2 & y2 & E2 & E2').
      rewrite signedArea_loop_cons, E1, E1', E2, E2'. cbn [bind].
      apply IH. exact Hrest.
Qed.

Lemma signedArea_total (lr : LinearRing) :
  wellFormed lr -> exists a, signedArea lr = Ok a.
Proof.
  intros H. unfold signedArea.
  destruct (signedArea_loop_total lr H 0%float) as [v ->].
  eexists. reflexivity.
Qed.

Lemma IsCounterClockwise_total (lr : LinearRing) :
  wellFormed lr -> exists b, IsCounterClockwise lr = Ok b.
Proof.
  intros H. unfold IsCounterClockwise.
  destruct (signedArea_total lr H) as [a ->]. eexists. reflexivity.
Qed.

(** Zero (of either sign) is not greater than zero. *)
Lemma gtb_zero (a : float) : PrimFloat.eqb a 0%float = true -> F64.gtb a 0%float = false.
Proof.
  unfold F64.gtb. rewrite eqb_spec, ltb_spec. unfold SFeqb, SFltb.
  rewrite (F64Facts.SFcompare_antisym (Prim2SF a) (Prim2SF 0%float)).
  destruct (SFcompare (Prim2SF a) (Prim2SF 0%float)) as [[ | | ]|];
    simpl; congruence.
Qed.

Lemma index_no_Err {A : Type} (s : list A) (i : nat) (e : error) : index s i <> Err e.
Proof. unfold index. destruct (nth_error s i); discriminate. Qed.

(** [signedArea] returns a number or panics; it never returns an error. *)
Lemma signedArea_loop_no_Err (lr : LinearRing) :
  forall v e, signedArea_loop lr v <> Err e.
Proof.
  induction lr as [|p1 rest IH]; intros v e; [discriminate|].
  destruct rest as [|p2 rest']; [discriminate|].
  rewrite signedArea_loop_cons.
  destruct (index p1 idxCoordsLng) as [x1|e1|] eqn:E1; cbn [bind];
    [|exact (fun H => index_no_Err _ _ e1 E1)|discriminate].
  destruct (index p1 idxCoordsLat) as [y1|e1|] eqn:E2; cbn [bind];
    [|exact (fun H => index_no_Err _ _ e1 E2)|discriminate].
  destruct (index p2 idxCoordsLng) as [x2|e1|] eqn:E3; cbn [bind];
    [|exact (fun H => index_no_Err _ _ e1 E3)|discriminate].
  destruct (index p2 idxCoordsLat) as [y2|e1|] eqn:E4; cbn [bind];
    [|exact (fun H => index_no_Err _ _ e1 E4)|discriminate].
  apply IH.
Qed.

Lemma IsCounterClockwise_cases (lr : LinearRing) :
  IsCounterClockwise lr = Ok true \/ IsCounterClockwise lr = Ok false \/
  IsCounterClockwise lr = Panic.
Proof.
  unfold IsCounterClockwise, signedArea.
  destruct (signedArea_loop lr 0%float) as [a|e|] eqn:E; cbn [bind].
  - destruct (F64.gtb (a * 0.5) 0); auto.
  - exfalso. exact (signedArea_loop_no_Err _ _ _ E).
  - auto.
Qed.

Lemma square_cw_wellFormed : wellFormed square_cw.
Proof. repeat constructor. Qed.

Example roundingRing_valid :
  NewLinearRing roundingRing = Ok roundingRing /\
  mapM NewCoordinates roundingRing = Ok roundingRing.
Proof. split; reflexivity. Qed.

Example roundingRing_both_ccw :
  IsCounterClockwise roundingRing = Ok true /\
  IsCounterClockwise (rev roundingRing) = Ok true.
Proof. split; reflexivity. Qed.

Lemma EnsureOrientation_keeps (lr : LinearRing) (flag : bool) :
  IsCounterClockwise lr = Ok flag -> EnsureOrientation lr flag = Ok lr.
Proof.
  intros H. unfold EnsureOrientation. rewrite H. cbn [bind].
  rewrite Bool.eqb_reflx. reflexivity.
Qed.

Lemma EnsureOrientation_reverses (lr : LinearRing) (flag : bool) :
  IsCounterClockwise lr = Ok (negb flag) -> EnsureOrientation lr flag = Ok (rev lr).
Proof.
  intros H. unfold EnsureOrientation. rewrite H. cbn [bind].
  destruct flag; reflexivity.
Qed.

(** The result of [EnsureOrientation] is the ring or its reversal. *)
Lemma EnsureOrientation_cases (lr : LinearRing) (flag : bool) :
  (IsCounterClockwise lr = Ok flag /\ EnsureOrientation lr flag = Ok lr) \/
  (IsCounterClockwise lr = Ok (negb flag) /\ EnsureOrientation lr flag = Ok (rev lr)) \/
  (IsCounterClockwise lr = Panic /\ EnsureOrientation lr flag = Panic) \/
  (exists e, IsCounterClockwise lr = Err e /\ EnsureOrientation lr flag = Err e).
Proof.
  destruct (IsCounterClockwise lr) as [b| e |] eqn:E.
  - destruct (Bool.eqb flag b) eqn:Eb.
    + apply Bool.eqb_prop in Eb. subst b. left. split; [reflexivity|].
      apply EnsureOrientation_keeps. exact E.
    + right. left.
      assert (b = negb flag) by (destruct flag, b; simpl in Eb |- *; congruence).
      subst b. split; [reflexivity|]. apply EnsureOrientation_reverses. exact E.
  - right. right. right. exists e. split; [reflexivity|].
    unfold EnsureOrientation. rewrite E. reflexivity.
  - right. right. left. split; [reflexivity|].
    unfold EnsureOrientation. rewrite E. reflexivity.
Qed.

(** C4, as amended: applying [EnsureOrientation] twice with the same flag
    gives the same vertex list as applying it once whenever the ring, or its
    reversal, has the requested orientation. When neither has it (a ring of
    zero signed area asked to be counterclockwise is the typical case), the
    first call reverses the ring and the second call restores it. *)
Theorem C4_EnsureOrientation_idempotent_when_orientable (lr : LinearRing) (flag : bool) :
  (IsCounterClockwise lr = Ok flag \/ IsCounterClockwise (rev lr) = Ok flag ->
   EnsureOrientation_twice lr flag = EnsureOrientation lr flag) /\
  (IsCounterClockwise lr = Ok (negb flag) ->
   IsCounterClockwise (rev lr) = Ok (negb flag) ->
   EnsureOrientation lr flag = Ok (rev lr) /\
   EnsureOrientation_twice lr flag = Ok lr).
Proof.
  split.
  - intros H. unfold EnsureOrientation_twice.
    destruct (EnsureOrientation_cases lr flag)
      as [[Hc He] | [[Hc He] | [[Hc He] | [e [Hc He]]]]]; rewrite He; cbn [bind];
      try reflexivity.
    + exact He.
    + destruct H as [H | H].
      * rewrite H in Hc. destruct flag; discriminate.
      * apply EnsureOrientation_keeps. exact H.
  - intros H1 H2. unfold EnsureOrientation_twice.
    rewrite (EnsureOrientation_reverses lr flag H1). cbn [bind].
    rewrite (EnsureOrientation_reverses (rev lr) flag H2).
    rewrite rev_involutive. auto.
Qed.

Lemma C4_witness :
  (IsCounterClockwise square_cw = Ok true \/
   IsCounterClockwise (rev square_cw) = Ok true) /\
  EnsureOrientation_twice square_cw true = EnsureOrientation square_cw true.
Proof.
  assert (H : IsCounterClockwise square_cw = Ok true \/
              IsCounterClockwise (rev square_cw) = Ok true)
    by (right; reflexivity).
  split; [exact H|].
  exact (proj1 (C4_EnsureOrientation_idempotent_when_orientable square_cw true) H).
Defined.

(** C4 fails on the bowtie of the tests, a valid ring of zero signed area,
    asked to be counterclockwise: one call reverses it, the second call
    reverses it back. *)
Lemma C4_counterexample :
  NewLinearRing bowtie = Ok bowtie /\
  EnsureOrientation bowtie true = Ok (rev bowtie) /\
  EnsureOrientation_twice bowtie true = Ok bowtie /\
  EnsureOrientation_twice bowtie true <> EnsureOrientation bowtie true.
Proof.
  repeat split; try reflexivity.
  intros H. apply (f_equal (secondLongitudeIs 4%float)) in H.
  vm_compute in H. discriminate H.
Qed.

(** With rounding, a ring and its reversal can both be counterclockwise:
    then [EnsureOrientation] with the clockwise flag is not idempotent
    either, on a valid ring of valid coordinates. *)
Example roundingRing_not_idempotent :
  EnsureOrientation roundingRing false = Ok (rev roundingRing) /\
  EnsureOrientation_twice roundingRing false = Ok roundingRing /\
  EnsureOrientation_twice roundingRing false <> EnsureOrientation roundingRing false.
Proof.
  repeat split; try reflexivity.
  intros H. apply (f_equal (secondLongitudeIs 0%float)) in H.
  vm_compute in H. discriminate H.
Qed.

(** ** Finite numbers lie between -MaxFloat64 and MaxFloat64 *)

Lemma digits2_pos_size (m : positive) : digits2_pos m = Pos.size m.
Proof. induction m; simpl; congruence. Qed.

Lemma bounded_mantissa (m : positive) (e : Z) :
  bounded prec emax m e = true -> (e <= 971)%Z /\ (Z.pos m <= 9007199254740991)%Z.
Proof.
  unfold bounded, canonical_mantissa, fexp. rewrite andb_true_iff.
  intros [Hc He]. apply Z.eqb_eq in Hc. apply Z.leb_le in He.
  change (emax - prec)%Z with 971%Z in He. split; [exact He|].
  assert (Hd : (Z.pos (digits2_pos m) <= 53)%Z) by (unfold prec in Hc; lia).
  rewrite digits2_pos_size in Hd.
  pose proof (Pos.size_gt m) as Hg.
  apply Pos2Z.pos_lt_pos in Hg. rewrite Pos2Z.inj_pow in Hg.
  assert (Hp : (2 ^ Z.pos (Pos.size m) <= 2 ^ 53)%Z)
    by (apply Z.pow_le_mono_r; [lia | exact Hd]).
  remember (2 ^ Z.pos (Pos.size m))%Z as P.
  change (2 ^ 53)%Z with 9007199254740992%Z in Hp.
  assert (Hlt : (Z.pos m < 9007199254740992)%Z)
    by (eapply Z.lt_le_trans; eassumption).
  apply Z.lt_succ_r. exact Hlt.
Qed.

Lemma is_finite_spec (x : float) :
  PrimFloat.is_finite x = true ->
  match Prim2SF x with
  | S754_zero _ => True
  | S754_finite _ m e => bounded prec emax m e = true
  | _ => False
  end.
Proof.
  unfold PrimFloat.is_finite, PrimFloat.is_nan, PrimFloat.is_infinity.
  rewrite !eqb_spec, abs_spec. pose proof (Prim2SF_valid x) as Hv.
  change (Prim2SF infinity) with (S754_infinity false).
  destruct (Prim2SF x) as [s|s| |s m e].
  - intros _. exact I.
  - destruct s; cbv; discriminate.
  - cbv. discriminate.
  - intros _. exact Hv.
Qed.

Lemma finite_le_MaxFloat64 (x : float) :
  PrimFloat.is_finite x = true ->
  PrimFloat.leb x F64.MaxFloat64 = true /\
  PrimFloat.leb (- F64.MaxFloat64) x = true.
Proof.
  intros H. apply is_finite_spec in H. rewrite !leb_spec.
  change (Prim2SF F64.MaxFloat64) with (S754_finite false 9007199254740991 971).
  change (Prim2SF (- F64.MaxFloat64)) with (S754_finite true 9007199254740991 971).
  unfold SFleb.
  destruct (Prim2SF x) as [s|s| |s m e]; try contradiction.
  - simpl. auto.
  - apply bounded_mantissa in H. destruct H as [He Hm].
    destruct s; cbn [SFcompare].
    + split; [reflexivity|].
      destruct (Z.compare_spec 971 e) as [E|E|E]; [ | exfalso; lia | reflexivity].
      rewrite Pos.compare_cont_spec, Pos2Z.inj_compare. cbn [Pos.switch_Eq].
      destruct (Z.compare_spec 9007199254740991 (Z.pos m)) as [E'|E'|E'];
        cbn [CompOpp]; try reflexivity.
      exfalso. clear - Hm E'. lia.
    + split; [|reflexivity].
      destruct (Z.compare_spec e 971) as [E|E|E]; [ | reflexivity | exfalso; lia].
      rewrite Pos.compare_cont_spec, Pos2Z.inj_compare. cbn [Pos.switch_Eq].
      destruct (Z.compare_spec (Z.pos m) 9007199254740991) as [E'|E'|E'];
        try reflexivity.
      exfalso. clear - Hm E'. lia.
Qed.

(** ** The bounding box *)

(** A bound at the top of its range is replaced by the first value. *)
Lemma fmin_absorb (c x : float) (s : bool) (m : positive) (e : Z) :
  Prim2SF c = S754_finite s m e -> PrimFloat.leb x c = true -> fmin c x = x.
Proof.
  intros Hc Hle. unfold fmin. destruct (PrimFloat.ltb x c) eqn:E; [reflexivity|].
  symmetry. exact (F64Facts.leb_not_ltb_eq x c s m e Hc Hle E).
Qed.

Lemma fmax_absorb (c x : float) (s : bool) (m : positive) (e : Z) :
  Prim2SF c = S754_finite s m e -> PrimFloat.leb c x = true -> fmax c x = x.
Proof.
  intros Hc Hle. unfold fmax. destruct (PrimFloat.ltb c x) eqn:E; [reflexivity|].
  symmetry. exact (F64Facts.leb_not_gtb_eq x c s m e Hc Hle E).
Qed.

Lemma fmin_zero_idem (m : float) : fmin (fmin m 0) 0 = fmin m 0.
Proof.
  unfold fmin. destruct (PrimFloat.ltb 0 m) eqn:E; [reflexivity|].
  rewrite E. reflexivity.
Qed.

Lemma fmax_zero_idem (m : float) : fmax (fmax m 0) 0 = fmax m 0.
Proof.
  unfold fmax. destruct (PrimFloat.ltb m 0) eqn:E; [reflexivity|].
  rewrite E. reflexivity.
Qed.

Lemma bbox_step_spec (b : bounds) (v : Coordinates) :
  List.length v = 2 \/ List.length v = 3 -> bbox_step b v = Ok (stepSpec b v).
Proof.
  intros [H | H]; destruct v as [|x [|y [|z [|w v]]]]; try discriminate H;
    reflexivity.
Qed.

Lemma bbox_loop1_spec (vs : Vertices) :
  Forall validVertex vs ->
  forall b, bbox_loop1 b vs = Ok (fold_left stepSpec vs b).
Proof.
  induction 1 as [|v rest Hv _ IH]; intros b; [reflexivity|].
  cbn [bbox_loop1 fold_left]. rewrite (bbox_step_spec b v (proj1 Hv)).
  cbn [bind]. apply IH.
Qed.

Lemma fold_stepSpec_fields (vs : Vertices) :
  forall b,
    let b' := fold_left stepSpec vs b in
    minLng b' = fold_left fmin (map lngOf vs) (minLng b) /\
    minLat b' = fold_left fmin (map latOf vs) (minLat b) /\
    maxLng b' = fold_left fmax (map lngOf vs) (maxLng b) /\
    maxLat b' = fold_left fmax (map latOf vs) (maxLat b) /\
    minAlt b' = fold_left fmin (altitudes vs) (minAlt b) /\
    maxAlt b' = fold_left fmax (altitudes vs) (maxAlt b) /\
    count3D b' = count3D b + List.length (altitudes vs).
Proof.
  induction vs as [|v rest IH]; intros b; cbn [fold_left map].
  - unfold altitudes. cbn. repeat split; lia.
  - specialize (IH (stepSpec b v)). cbn zeta in IH.
    destruct IH as (H1 & H2 & H3 & H4 & H5 & H6 & H7).
    unfold altitudes in *. cbn [filter].
    rewrite H1, H2, H3, H4, H5, H6, H7. cbn [stepSpec minLng minLat maxLng maxLat
      minAlt maxAlt count3D].
    destruct (HasAltitude v); cbn [map fold_left List.length];
      repeat split; lia.
Qed.

Lemma bbox_widen_spec (b : bounds) (v : Coordinates) :
  bbox_widen b v = if HasAltitude v then b else widenOnce b.
Proof.
  unfold bbox_widen. destruct (HasAltitude v); reflexivity.
Qed.

Lemma widenOnce_idem (b : bounds) : widenOnce (widenOnce b) = widenOnce b.
Proof.
  unfold widenOnce. cbn [minLng minLat maxLng maxLat minAlt maxAlt count3D].
  rewrite fmin_zero_idem, fmax_zero_idem. reflexivity.
Qed.

Lemma fold_widen_spec (vs : Vertices) :
  forall b,
    fold_left bbox_widen vs (widenOnce b) = widenOnce b /\
    fold_left bbox_widen vs b = if forallb HasAltitude vs then b else widenOnce b.
Proof.
  induction vs as [|v rest IH]; intros b; cbn [fold_left forallb].
  - auto.
  - rewrite !bbox_widen_spec. destruct (HasAltitude v); cbn [andb].
    + apply IH.
    + rewrite widenOnce_idem. split; apply IH.
Qed.

Lemma filter_length_forallb {A : Type} (f : A -> bool) (l : list A) :
  (List.length (filter f l) =? List.length l)%nat = forallb f l.
Proof.
  induction l as [|x l IH]; [reflexivity|]. cbn [filter forallb].
  destruct (f x); cbn [andb List.length].
  - exact IH.
  - apply Nat.eqb_neq. pose proof (filter_length_le f l). lia.
Qed.

Lemma altitudes_finite (vs : Vertices) :
  Forall validVertex vs ->
  Forall (fun a => PrimFloat.is_finite a = true) (altitudes vs).
Proof.
  induction 1 as [|v rest Hv _ IH]; [constructor|].
  unfold altitudes in *. cbn [filter].
  destruct (HasAltitude v) eqn:E; cbn [map]; [|exact IH].
  constructor; [|exact IH]. apply Hv. exact E.
Qed.

(** The variables of [bbox] after its first loop, on valid vertices: the
    initial values (the limits of the ranges, and plus and minus
    [MaxFloat64]) are replaced by the first value met. *)
Lemma bbox_loop1_fields (v0 : Coordinates) (rest : Vertices) :
  Forall validVertex (v0 :: rest) ->
  let vs := v0 :: rest in
  let b := fold_left stepSpec vs bounds_init in
  minLng b = minimum (map lngOf vs) /\
  minLat b = minimum (map latOf vs) /\
  maxLng b = maximum (map lngOf vs) /\
  maxLat b = maximum (map latOf vs) /\
  (altitudes vs <> [] ->
   minAlt b = minimum (altitudes vs) /\ maxAlt b = maximum (altitudes vs)) /\
  count3D b = List.length (altitudes vs).
Proof.
  intros Hvs vs b.
  destruct (fold_stepSpec_fields vs bounds_init) as (H1 & H2 & H3 & H4 & H5 & H6 & H7).
  fold b in H1, H2, H3, H4, H5, H6, H7.
  pose proof (altitudes_finite vs Hvs) as Hfin.
  inversion Hvs as [|? ? Hv0 _]; subst.
  destruct Hv0 as (_ & Hlng & Hlat & _).
  unfold inRange in Hlng, Hlat.
  apply andb_prop in Hlng. destruct Hlng as [Hlng1 Hlng2].
  apply andb_prop in Hlat. destruct Hlat as [Hlat1 Hlat2].
  rewrite H1, H2, H3, H4, H5, H6, H7. subst vs.
  cbn [map fold_left minimum maximum bounds_init minLng minLat maxLng maxLat
       minAlt maxAlt count3D].
  rewrite (fmin_absorb LongitudeMax (lngOf v0) _ _ _ eq_refl Hlng2).
  rewrite (fmin_absorb LatitudeMax (latOf v0) _ _ _ eq_refl Hlat2).
  rewrite (fmax_absorb LongitudeMin (lngOf v0) _ _ _ eq_refl Hlng1).
  rewrite (fmax_absorb LatitudeMin (latOf v0) _ _ _ eq_refl Hlat1).
  repeat split; try reflexivity.
  - destruct (altitudes (v0 :: rest)) as [|a0 alts]; [congruence|].
    inversion Hfin as [|? ? Ha0 _]; subst.
    destruct (finite_le_MaxFloat64 a0 Ha0) as [Hle _].
    cbn [fold_left minimum].
    rewrite (fmin_absorb F64.MaxFloat64 a0 _ _ _ eq_refl Hle). reflexivity.
  - destruct (altitudes (v0 :: rest)) as [|a0 alts]; [congruence|].
    inversion Hfin as [|? ? Ha0 _]; subst.
    destruct (finite_le_MaxFloat64 a0 Ha0) as [_ Hge].
    cbn [fold_left maximum].
    rewrite (fmax_absorb (- F64.MaxFloat64)%float a0 _ _ _ eq_refl Hge). reflexivity.
Qed.

(** On valid vertices [bbox] computes the box of the specification. *)
Lemma bbox_bboxSpec (vs : Vertices) :
  Forall validVertex vs -> bbox vs = Ok (bboxSpec vs).
Proof.
  intros Hvs. destruct vs as [|v0 rest]; [reflexivity|].
  unfold bbox. change (List.length (v0 :: rest) =? 0)%nat with false. cbv iota.
  rewrite (bbox_loop1_spec _ Hvs). cbn [bind].
  destruct (bbox_loop1_fields v0 rest Hvs) as (H1 & H2 & H3 & H4 & H5 & H6).
  set (vs := v0 :: rest) in *.
  set (b := fold_left stepSpec vs bounds_init) in *.
  assert (Hall : (count3D b =? List.length vs)%nat = forallb HasAltitude vs).
  { rewrite H6. unfold altitudes. rewrite length_map.
    apply filter_length_forallb. }
  change (List.length (v0 :: rest)) with (List.length vs).
  rewrite Hall.
  destruct (fold_widen_spec vs b) as [_ Hw]. rewrite Hw.
  unfold bboxSpec. fold vs.
  assert (Hcount : forall b0 : bounds,
             count3D (if forallb HasAltitude vs then b0 else widenOnce b0) = count3D b0)
    by (intros b0; destruct (forallb HasAltitude vs); reflexivity).
  destruct (forallb HasAltitude vs) eqn:Efa; cbn [negb].
  - rewrite H6.
    destruct (altitudes vs) as [|a0 alts] eqn:Ealt; cbn [List.length Nat.ltb Nat.leb].
    + unfold box2D. subst vs. cbv iota. rewrite H1, H2, H3, H4. reflexivity.
    + destruct H5 as [H5 H5']; [discriminate|].
      unfold box3D. subst vs. cbv iota.
      rewrite H1, H2, H3, H4, H5, H5'. reflexivity.
  - cbn [widenOnce count3D]. rewrite H6.
    destruct (altitudes vs) as [|a0 alts] eqn:Ealt; cbn [List.length Nat.ltb Nat.leb].
    + unfold box2D, widenOnce. cbn [minLng minLat maxLng maxLat].
      subst vs. cbv iota. rewrite H1, H2, H3, H4. reflexivity.
    + destruct H5 as [H5 H5']; [discriminate|].
      unfold box3D, widenOnce. cbn [minLng minLat maxLng maxLat minAlt maxAlt].
      subst vs. cbv iota. rewrite H1, H2, H3, H4, H5, H5'. reflexivity.
Qed.

Lemma altitudes_nil_iff (vs : Vertices) :
  altitudes vs = [] <-> noAltitude vs = true.
Proof.
  unfold altitudes, noAltitude. induction vs as [|v rest IH]; cbn [filter forallb map].
  - tauto.
  - destruct (HasAltitude v); cbn [map negb andb]; [|exact IH].
    split; discriminate.
Qed.

(** C3, as amended: on vertices that are valid coordinates (two or three
    elements, longitude in [[-180, 180]], latitude in [[-90, 90]], finite
    altitude), [bbox] returns the empty box on no vertex; the 2D box
    [[minLng, minLat, maxLng, maxLat]] when no vertex has an altitude; the 3D
    box whose altitude range is the minimum and maximum over the
    altitude-bearing vertices, widened to include 0, when some but not all
    have one; and that 3D box without widening when all have one. In
    particular the box of [[{-10,0},{10,20,-200}]] is
    [[-10,0,-200,10,20,0]]. *)
Theorem C3_bbox_on_valid_vertices :
  bbox [] = Ok [] /\
  (forall vs : Vertices, vs <> [] -> Forall validVertex vs ->
     let lngs := map lngOf vs in
     let lats := map latOf vs in
     let alts := altitudes vs in
     (noAltitude vs = true ->
      bbox vs = Ok [minimum lngs; minimum lats; maximum lngs; maximum lats]) /\
     (noAltitude vs = false -> allAltitude vs = false ->
      bbox vs = Ok [minimum lngs; minimum lats; fmin (minimum alts) 0;
                    maximum lngs; maximum lats; fmax (maximum alts) 0]) /\
     (allAltitude vs = true ->
      bbox vs = Ok [minimum lngs; minimum lats; minimum alts;
                    maximum lngs; maximum lats; maximum alts])) /\
  bbox mixedVertices = Ok [-10; 0; -200; 10; 20; 0]%float.
Proof.
  split; [reflexivity|]. split; [|reflexivity].
  intros vs Hne Hvs lngs lats alts.
  rewrite (bbox_bboxSpec vs Hvs). unfold bboxSpec. fold lngs lats alts.
  destruct vs as [|v0 rest]; [congruence|].
  unfold allAltitude. split; [|split].
  - intros Hno. apply altitudes_nil_iff in Hno. fold alts in Hno.
    rewrite Hno. reflexivity.
  - intros Hno Hall. rewrite Hall.
    destruct alts as [|a0 alts'] eqn:E; [|reflexivity].
    apply altitudes_nil_iff in E. congruence.
  - intros Hall. rewrite Hall.
    destruct alts as [|a0 alts'] eqn:E; [|reflexivity].
    apply altitudes_nil_iff in E. unfold noAltitude in E.
    cbn [forallb] in E, Hall. destruct (HasAltitude v0); discriminate.
Qed.

Lemma mixedVertices_valid : Forall validVertex mixedVertices.
Proof.
  repeat constructor; cbn; auto; discriminate.
Qed.

Lemma C3_witness :
  mixedVertices <> [] /\ Forall validVertex mixedVertices /\
  noAltitude mixedVertices = false /\ allAltitude mixedVertices = false /\
  bbox mixedVertices =
    Ok [minimum (map lngOf mixedVertices); minimum (map latOf mixedVertices);
        fmin (minimum (altitudes mixedVertices)) 0;
        maximum (map lngOf mixedVertices); maximum (map latOf mixedVertices);
        fmax (maximum (altitudes mixedVertices)) 0].
Proof.
  assert (Hne : mixedVertices <> []) by discriminate.
  split; [exact Hne|]. split; [exact mixedVertices_valid|].
  split; [reflexivity|]. split; [reflexivity|].
  exact (proj1 (proj2 (proj1 (proj2 C3_bbox_on_valid_vertices)
                         mixedVertices Hne mixedVertices_valid))
           eq_refl eq_refl).
Defined.

(** C3 fails on a vertex outside the longitude range, which the
    constructors taking vertices accept: the running minimum starts at 180
    and is never replaced, so the box of [[{200, 0}]] begins with 180, not
    with the minimum longitude 200. *)
Lemma C3_counterexample :
  let vs := [pt 200 0]%float in
  is_Ok (NewLineString (vs ++ vs)) = true /\
  noAltitude vs = true /\
  bbox vs = Ok [180; 0; 200; 0]%float /\
  [minimum (map lngOf vs); minimum (map latOf vs);
   maximum (map lngOf vs); maximum (map latOf vs)] = [200; 0; 200; 0]%float /\
  bbox vs <> Ok [minimum (map lngOf vs); minimum (map latOf vs);
                 maximum (map lngOf vs); maximum (map latOf vs)].
Proof.
  cbv zeta. repeat split; try reflexivity.
  intros H. apply (f_equal (firstIs 200%float)) in H.
  vm_compute in H. discriminate H.
Qed.

(** ** The decode dispatcher *)



(** The dispatcher on the six coordinate-bearing tags. *)
Lemma dispatch_tags (c : value) (gs : list GeometryObject) (b : BoundingBox) :
  GeometryObject_dispatch (mkGeometryJSONInput TypePoint c gs b)
    = held GPoint (Point_buildCoordinates (mkPoint [] false) c) /\
  GeometryObject_dispatch (mkGeometryJSONInput TypeLineString c gs b)
    = held GLineString (LineString_buildCoordinates (mkLineString [] false) c) /\
  GeometryObject_dispatch (mkGeometryJSONInput TypeMultiPoint c gs b)
    = held GMultiPoint (MultiPoint_buildCoordinates (mkMultiPoint [] false) c) /\
  GeometryObject_dispatch (mkGeometryJSONInput TypeMultiLineString c gs b)
    = held GMultiLineString
        (MultiLineString_buildCoordinates (mkMultiLineString [] false) c) /\
  GeometryObject_dispatch (mkGeometryJSONInput TypePolygon c gs b)
    = held GPolygon (Polygon_buildCoordinates (mkPolygon [] false) c) /\
  GeometryObject_dispatch (mkGeometryJSONInput TypeMultiPolygon c gs b)
    = held GMultiPolygon (MultiPolygon_buildCoordinates (mkMultiPolygon [] false) c).
Proof.
  unfold GeometryObject_dispatch, held. cbn.
  repeat split.
  - destruct (Point_buildCoordinates _ c); reflexivity.
  - destruct (LineString_buildCoordinates _ c); reflexivity.
  - destruct (MultiPoint_buildCoordinates _ c); reflexivity.
  - destruct (MultiLineString_buildCoordinates _ c); reflexivity.
  - destruct (Polygon_buildCoordinates _ c); reflexivity.
  - destruct (MultiPolygon_buildCoordinates _ c); reflexivity.
Qed.



Example decode_collection_of_point :
  GeometryObject_UnmarshalJSON
    (Document "GeometryCollection" VNil
       [Document "Point" (VSlice [VFloat 1; VFloat 1]) [] []] [])
  = Ok (Some (GGeometryCollection [Some (GPoint (mkPoint [1; 1]%float false))])).
Proof. reflexivity. Qed.

Example decode_empty_collection :
  GeometryObject_UnmarshalJSON (Document "GeometryCollection" VNil [] [])
  = Ok (Some (GGeometryCollection [])).
Proof. reflexivity. Qed.

Example decode_polygon_empty_ring :
  GeometryObject_UnmarshalJSON (Document "Polygon" (VSlice [VSlice []]) [] [])
  = Err ErrLinearRingSize.
Proof. reflexivity. Qed.

(** A child that fails is reported before the type tag of its parent is
    looked at. *)
Example decode_unknown_tag_failing_child :
  GeometryObject_UnmarshalJSON
    (Document "Circle" VNil [Document "Point" (VSlice [VFloat 1]) [] []] [])
  = Err ErrCoordinatesSize.
Proof. reflexivity. Qed.

(** ** Features without geometry *)

(** C7: a document of type ["Feature"] whose [geometry] member is missing
    or [null] decodes without error (its other members having decoded) to a
    feature whose geometry envelope is empty; and the bounding box of a
    feature without geometry is the empty box. *)
Theorem C7_feature_without_geometry :
  (forall (geometry : member document) properties id features fs,
     geometry = Missing \/ geometry = Null ->
     mapM Feature_UnmarshalJSON features = Ok fs ->
     let d := FeatureDocument TypeFeature geometry properties id features in
     let f := mkFeature None properties id false in
     Object_UnmarshalJSON d = Ok (mkObject TypeFeature (Some f) None) /\
     Feature_UnmarshalJSON d = Ok f /\
     IsEmpty (Feature_GeometryObject f) = true) /\
  (forall f : Feature,
     f_Geometry f = None ->
     Feature_BoundingBox f = Ok [] /\ IsZero [] = true).
Proof.
  split.
  - intros geometry properties id features fs Hg Hfs d f.
    assert (Ho : Object_UnmarshalJSON d = Ok (mkObject TypeFeature (Some f) None)).
    { subst d. cbn [Object_UnmarshalJSON].
      change (mapM (fun c => Feature_ofObject (Object_UnmarshalJSON c)) features)
        with (mapM Feature_UnmarshalJSON features).
      rewrite Hfs. destruct Hg as [-> | ->]; reflexivity. }
    split; [exact Ho|]. split; [|reflexivity].
    unfold Feature_UnmarshalJSON. rewrite Ho. reflexivity.
  - intros f Hf. unfold Feature_BoundingBox, Feature_Vertices. rewrite Hf.
    split; reflexivity.
Qed.

Lemma C7_witness :
  ((Null : member document) = Missing \/ (Null : member document) = Null) /\
  mapM Feature_UnmarshalJSON [] = Ok [] /\
  Feature_UnmarshalJSON (FeatureDocument TypeFeature Null [] None [])
    = Ok (mkFeature None [] None false).
Proof.
  split; [right; reflexivity|]. split; [reflexivity|].
  exact (proj1 (proj2 (proj1 C7_feature_without_geometry Null [] None [] []
                         (or_intror eq_refl) eq_refl))).
Defined.

Example feature_bad_type : 
  Object_UnmarshalJSON (FeatureDocument "Invalid" Null [] None []) = Err ErrInvalidFeature.
Proof. reflexivity. Qed.

(** ** Constructors on unvalidated vertices *)

Lemma mapM_Forall2 {A B : Type} (f : A -> result B) (l : list A) :
  forall l', mapM f l = Ok l' <-> Forall2 (fun x y => f x = Ok y) l l'.
Proof.
  induction l as [|x t IH]; intros l'; cbn [mapM].
  - split.
    + intros H. injection H as <-. constructor.
    + intros H. inversion H. reflexivity.
  - split.
    + intros H. destruct (f x) as [y| |] eqn:Ex; try discriminate H.
      cbn [bind] in H. destruct (mapM f t) as [ys| |] eqn:Et; try discriminate H.
      cbn [bind] in H. injection H as <-. constructor; [exact Ex|].
      apply IH. reflexivity.
    + intros H. inversion H as [|? y ? ys Hx Ht]; subst.
      rewrite Hx. cbn [bind]. apply IH in Ht. rewrite Ht. reflexivity.
Qed.

Lemma mapM_total {A B : Type} (f : A -> result B) (P : A -> Prop) (l : list A) :
  (forall x, P x -> exists y, f x = Ok y) ->
  Forall P l -> exists l', mapM f l = Ok l'.
Proof.
  intros Hf. induction 1 as [|x t Hx _ [ys IH]].
  - exists []. reflexivity.
  - destruct (Hf x Hx) as [y Hy]. exists (y :: ys).
    cbn [mapM]. rewrite Hy, IH. reflexivity.
Qed.

Lemma mapM_length {A B : Type} (f : A -> result B) (l : list A) (l' : list B) :
  mapM f l = Ok l' -> List.length l' = List.length l.
Proof.
  intros H. apply mapM_Forall2 in H. symmetry. eapply Forall2_length. exact H.
Qed.

Lemma EnsureOrientation_total (lr : LinearRing) (flag : bool) :
  wellFormed lr -> exists lr', EnsureOrientation lr flag = Ok lr'.
Proof.
  intros H. unfold EnsureOrientation.
  destruct (IsCounterClockwise_total lr H) as [b ->]. cbn [bind].
  destruct (Bool.eqb flag b); eexists; reflexivity.
Qed.

Lemma ensureOrientation_total (rings : LinearRings) :
  Forall wellFormed rings -> exists rings', ensureOrientation rings = Ok rings'.
Proof.
  intros H. destruct rings as [|outer inner]; [exists []; reflexivity|].
  inversion H as [|? ? Ho Hi]; subst. cbn [ensureOrientation].
  destruct (EnsureOrientation_total outer true Ho) as [outer' ->]. cbn [bind].
  destruct (mapM_total (fun r => EnsureOrientation r false) wellFormed inner
              (fun r Hr => EnsureOrientation_total r false Hr) Hi) as [inner' ->].
  eexists. reflexivity.
Qed.

Lemma checkRings_None (rings : LinearRings) :
  checkRings rings = None <->
  Forall (fun r => HasValidSize r = true /\ IsClosed r = true) rings.
Proof.
  induction rings as [|r rest IH]; cbn [checkRings].
  - split; [constructor | reflexivity].
  - destruct (HasValidSize r) eqn:Es; cbn [negb].
    + destruct (IsClosed r) eqn:Ec; cbn [negb].
      * rewrite IH. split; [intros H; constructor; auto|].
        intros H. inversion H. assumption.
      * split; [discriminate|]. intros H. inversion H as [|? ? [_ Hc] _].
        congruence.
    + split; [discriminate|]. intros H. inversion H as [|? ? [Hs _] _].
      congruence.
Qed.

(** C10, as amended: the constructors that take vertices do not validate
    the coordinates. [NewLineString] succeeds on any two or more vertices;
    [NewLinearRing] succeeds on any four or more vertices whose first and
    last are equal; [NewPolygon] succeeds on one or more such rings provided
    every vertex has at least a longitude and a latitude, whatever their
    values. So vertices outside the ranges (and, for the first two, vertices
    with fewer than two elements) are accepted, while a successful
    [NewCoordinates] has checked the ranges, and the decode path goes through
    [NewCoordinates]. *)
Theorem C10_constructors_do_not_validate_coordinates :
  (forall v : Vertices,
     2 <= List.length v -> NewLineString v = Ok (mkLineString v false)) /\
  (forall ring : Vertices,
     HasValidSize ring = true -> IsClosed ring = true -> NewLinearRing ring = Ok ring) /\
  (forall rings : LinearRings,
     rings <> [] ->
     Forall (fun r => HasValidSize r = true /\ IsClosed r = true) rings ->
     Forall wellFormed rings ->
     exists rings', NewPolygon rings = Ok (mkPolygon rings' false) /\
                    List.length rings' = List.length rings) /\
  (is_Ok (NewLineString [pt 200 0; pt 0 0]%float) = true /\
   is_Ok (NewLineString [[]; pt 0 0]%float) = true /\
   is_Ok (NewLinearRing outOfRangeRing) = true /\
   is_Ok (NewLinearRing emptyVertexRing) = true /\
   is_Ok (NewPolygon [outOfRangeRing]) = true /\
   is_Ok (NewCoordinates [200; 0]%float) = false) /\
  (forall v c, NewCoordinates v = Ok c ->
     exists lng lat rest, c = lng :: lat :: rest /\ List.length rest <= 1 /\
                          validateCoordinates lng lat = None) /\
  (forall v c, buildCoordinates v = Ok c -> NewCoordinates c = Ok c).
Proof.
  split; [|split; [|split; [|split; [|split]]]].
  - intros v H. unfold NewLineString.
    destruct (Nat.ltb_spec (List.length v) LineStringMinimumSize) as [Hl|Hl];
      [unfold LineStringMinimumSize in Hl; lia | reflexivity].
  - intros ring Hs Hc. unfold NewLinearRing. rewrite Hs, Hc. reflexivity.
  - intros rings Hne Hchk Hwf. unfold NewPolygon.
    destruct rings as [|r rest]; [congruence|].
    cbn [List.length Nat.eqb]. apply checkRings_None in Hchk. rewrite Hchk.
    destruct (ensureOrientation_total (r :: rest) Hwf) as [rings' Hr].
    rewrite Hr. cbn [bind]. exists rings'. split; [reflexivity|].
    cbn [ensureOrientation] in Hr.
    destruct (EnsureOrientation r true) as [r'| |]; try discriminate Hr.
    cbn [bind] in Hr.
    destruct (mapM (fun r0 => EnsureOrientation r0 false) rest) as [rest'| |] eqn:Em;
      try discriminate Hr.
    cbn [bind] in Hr. injection Hr as <-. cbn [List.length].
    rewrite (mapM_length _ _ _ Em). reflexivity.
  - repeat split; reflexivity.
  - intros v c H. exact (proj2 (NewCoordinates_Ok_inv v c H)).
  - intros v c H. unfold buildCoordinates in H.
    destruct v as [ |b|f|z|s|rawSlice|m]; try discriminate H.
    destruct (negb (List.length rawSlice =? coordsMinLen)%nat &&
              negb (List.length rawSlice =? coordsMaxLen)%nat); try discriminate H.
    destruct (mapM toFloat64 rawSlice) as [slice| |]; try discriminate H.
    cbn [bind] in H. destruct (NewCoordinates_Ok_inv slice c H) as [-> _].
    exact H.
Qed.

Lemma C10_witness :
  2 <= List.length [pt 200 0; pt 0 0]%float /\
  NewLineString [pt 200 0; pt 0 0]%float
    = Ok (mkLineString [pt 200 0; pt 0 0]%float false).
Proof.
  assert (H : 2 <= List.length [pt 200 0; pt 0 0]%float) by (simpl; lia).
  split; [exact H|].
  exact (proj1 C10_constructors_do_not_validate_coordinates _ H).
Defined.

(** C10 fails for [NewPolygon] on vertices with fewer than two elements: a
    ring of four empty vertices passes the size and closure checks, and
    [NewPolygon] panics on it (index out of range in [signedArea]) instead
    of accepting it. *)
Lemma C10_counterexample :
  HasValidSize emptyVertexRing = true /\
  IsClosed emptyVertexRing = true /\
  NewLinearRing emptyVertexRing = Ok emptyVertexRing /\
  NewPolygon [emptyVertexRing] = Panic /\
  is_Ok (NewPolygon [emptyVertexRing]) = false.
Proof. repeat split; reflexivity. Qed.

(** ** Orientation of the rings of a polygon *)

Lemma index_short_panics (c : Coordinates) :
  List.length c < 2 ->
  index c idxCoordsLng = Panic \/
  (exists x, index c idxCoordsLng = Ok x /\ index c idxCoordsLat = Panic).
Proof.
  destruct c as [|x [|y c]]; simpl; intros H; try lia.
  - left. reflexivity.
  - right. exists x. auto.
Qed.

(** [signedArea] returns when the ring has at most one vertex (nothing is
    read) or when every vertex has two elements, and only then. *)
Lemma signedArea_loop_Ok_inv (lr : LinearRing) :
  forall v a, signedArea_loop lr v = Ok a ->
              List.length lr <= 1 \/ wellFormed lr.
Proof.
  induction lr as [|p1 rest IH]; intros v a H; [left; simpl; lia|].
  destruct rest as [|p2 rest']; [left; simpl; lia|]. right.
  rewrite signedArea_loop_cons in H.
  destruct (Nat.lt_ge_cases (List.length p1) 2) as [H1|H1].
  { destruct (index_short_panics p1 H1) as [E | [x [E E']]];
      rewrite E in H; try discriminate H.
    cbn [bind] in H. rewrite E' in H. discriminate H. }
  destruct (index_wellFormed p1 H1) as (x1 & y1 & E1 & E1').
  rewrite E1, E1' in H. cbn [bind] in H.
  destruct (Nat.lt_ge_cases (List.length p2) 2) as [H2|H2].
  { destruct (index_short_panics p2 H2) as [E | [x [E E']]];
      rewrite E in H; try discriminate H.
    cbn [bind] in H. rewrite E' in H. discriminate H. }
  destruct (index_wellFormed p2 H2) as (x2 & y2 & E2 & E2').
  rewrite E2, E2' in H. cbn [bind] in H.
  apply IH in H. destruct H as [H | H].
  - destruct rest'; [|simpl in H; lia]. repeat constructor; assumption.
  - constructor; assumption.
Qed.

Lemma signedArea_loop_Ok (lr : LinearRing) :
  List.length lr <= 1 \/ wellFormed lr ->
  forall v, exists a, signedArea_loop lr v = Ok a.
Proof.
  intros [H | H] v.
  - destruct lr as [|p1 [|p2 rest]]; simpl in H; try lia; eexists; reflexivity.
  - apply signedArea_loop_total. exact H.
Qed.

Lemma IsCounterClockwise_Ok_inv (lr : LinearRing) (b : bool) :
  IsCounterClockwise lr = Ok b -> List.length lr <= 1 \/ wellFormed lr.
Proof.
  unfold IsCounterClockwise, signedArea. intros H.
  destruct (signedArea_loop lr 0%float) as [a| |] eqn:E; try discriminate H.
  eapply signedArea_loop_Ok_inv. exact E.
Qed.

Lemma IsCounterClockwise_Ok (lr : LinearRing) :
  List.length lr <= 1 \/ wellFormed lr -> exists b, IsCounterClockwise lr = Ok b.
Proof.
  intros H. unfold IsCounterClockwise, signedArea.
  destruct (signedArea_loop_Ok lr H 0%float) as [a ->]. eexists. reflexivity.
Qed.

(** C9, as amended: [IsClockwise] returns the negation of what
    [IsCounterClockwise] returns whenever one of them returns. On every ring
    of fewer than two vertices, and on every ring whose vertices each have
    at least two elements, both return and exactly one of the two holds. On
    every other ring (two or more vertices, one of them with fewer than two
    elements) both calls panic, so neither holds. A ring whose signed area
    is zero is clockwise and not counterclockwise, and the bowtie of the
    tests is such a ring. *)
Theorem C9_exactly_one_orientation_unless_panic :
  (forall lr b, IsCounterClockwise lr = Ok b <-> IsClockwise lr = Ok (negb b)) /\
  (forall lr, List.length lr <= 1 \/ wellFormed lr ->
     (IsCounterClockwise lr = Ok true /\ IsClockwise lr = Ok false) \/
     (IsCounterClockwise lr = Ok false /\ IsClockwise lr = Ok true)) /\
  (forall lr, ~ (List.length lr <= 1 \/ wellFormed lr) ->
     IsCounterClockwise lr = Panic /\ IsClockwise lr = Panic) /\
  (forall lr a, signedArea lr = Ok a -> PrimFloat.eqb a 0%float = true ->
     IsClockwise lr = Ok true /\ IsCounterClockwise lr = Ok false) /\
  (signedArea bowtie = Ok 0%float /\
   IsClockwise bowtie = Ok true /\ IsCounterClockwise bowtie = Ok false).
Proof.
  split; [|split; [|split; [|split]]].
  - intros lr b. unfold IsClockwise.
    destruct (IsCounterClockwise lr) as [b'|e|]; cbn [bind];
      split; intros H; try discriminate H; injection H as H.
    + subst. reflexivity.
    + destruct b, b'; simpl in H; congruence.
  - intros lr H. destruct (IsCounterClockwise_Ok lr H) as [b Hb].
    unfold IsClockwise. rewrite Hb. cbn [bind].
    destruct b; [left | right]; split; reflexivity.
  - intros lr H. unfold IsClockwise.
    destruct (IsCounterClockwise_cases lr) as [E | [E | E]].
    + exfalso. apply H. exact (IsCounterClockwise_Ok_inv lr true E).
    + exfalso. apply H. exact (IsCounterClockwise_Ok_inv lr false E).
    + rewrite E. split; reflexivity.
  - intros lr a Ha Hz. unfold IsClockwise, IsCounterClockwise. rewrite Ha.
    simpl. rewrite (gtb_zero a Hz). auto.
  - repeat split; reflexivity.
Qed.

Lemma C9_witness :
  (List.length square_cw <= 1 \/ wellFormed square_cw) /\
  ((IsCounterClockwise square_cw = Ok true /\ IsClockwise square_cw = Ok false) \/
   (IsCounterClockwise square_cw = Ok false /\ IsClockwise square_cw = Ok true)) /\
  IsClockwise bowtie = Ok true.
Proof.
  assert (H : List.length square_cw <= 1 \/ wellFormed square_cw)
    by (right; exact square_cw_wellFormed).
  split; [exact H|]. split.
  - exact (proj1 (proj2 C9_exactly_one_orientation_unless_panic) square_cw H).
  - exact (proj1 (proj1 (proj2 (proj2 (proj2
             C9_exactly_one_orientation_unless_panic)))
             bowtie 0%float eq_refl eq_refl)).
Defined.

(** C9 fails on a ring with a vertex of fewer than two elements: the ring
    of four empty vertices is one that [NewLinearRing] returns, and on it
    [IsCounterClockwise] and [IsClockwise] both panic (index out of range in
    [signedArea]): neither predicate holds, and neither call returns the
    negation of the other. *)
Lemma C9_counterexample :
  NewLinearRing emptyVertexRing = Ok emptyVertexRing /\
  IsCounterClockwise emptyVertexRing = Panic /\
  IsClockwise emptyVertexRing = Panic /\
  IsCounterClockwise emptyVertexRing <> Ok true /\
  IsClockwise emptyVertexRing <> Ok true.
Proof.
  repeat split; try reflexivity; intros H; vm_compute in H; discriminate H.
Qed.

(** If the orientation of a ring is defined, so is that of its reversal. *)
Lemma IsCounterClockwise_rev_defined (lr : LinearRing) (b : bool) :
  IsCounterClockwise lr = Ok b -> exists b', IsCounterClockwise (rev lr) = Ok b'.
Proof.
  intros H. apply IsCounterClockwise_Ok_inv in H. apply IsCounterClockwise_Ok.
  destruct H as [H | H].
  - left. rewrite length_rev. exact H.
  - right. unfold wellFormed. apply Forall_rev. exact H.
Qed.

(** What one call of [EnsureOrientation] achieves. *)
Lemma EnsureOrientation_oriented (r r' : LinearRing) (flag : bool) :
  EnsureOrientation r flag = Ok r' ->
  orientedUnlessUnorientable flag r' /\
  (r' = r \/ r' = rev r) /\
  (IsCounterClockwise r = Ok flag \/ IsCounterClockwise (rev r) = Ok flag ->
   IsCounterClockwise r' = Ok flag).
Proof.
  intros H.
  destruct (EnsureOrientation_cases r flag)
    as [[Hc He] | [[Hc He] | [[Hc He] | [e [Hc He]]]]];
    rewrite He in H; try discriminate H; injection H as <-.
  - split; [left; exact Hc|]. split; [left; reflexivity|]. intros _. exact Hc.
  - destruct (IsCounterClockwise_rev_defined r _ Hc) as [b' Hb'].
    destruct (Bool.bool_dec b' flag) as [-> | Hne].
    + split; [left; exact Hb'|]. split; [right; reflexivity|]. intros _. exact Hb'.
    + assert (b' = negb flag) by (destruct b', flag; simpl; congruence). subst b'.
      split; [|split; [right; reflexivity|]].
      * right. split; [exact Hb'|]. rewrite rev_involutive. exact Hc.
      * intros [H | H]; [rewrite H in Hc | rewrite H in Hb'];
          destruct flag; discriminate.
Qed.

Lemma ensureOrientation_oriented (rings rings' : LinearRings) :
  ensureOrientation rings = Ok rings' ->
  ringsOriented rings' /\ List.length rings' = List.length rings.
Proof.
  unfold ensureOrientation. destruct rings as [|outer inner].
  - intros H. injection H as <-. split; [exact I | reflexivity].
  - intros H. destruct (EnsureOrientation outer true) as [outer'| |] eqn:Eo;
      try discriminate H. cbn [bind] in H.
    destruct (mapM (fun r => EnsureOrientation r false) inner) as [inner'| |] eqn:Ei;
      try discriminate H. cbn [bind] in H. injection H as <-.
    split.
    + split; [exact (proj1 (EnsureOrientation_oriented _ _ _ Eo))|].
      apply mapM_Forall2 in Ei. induction Ei as [|r r' l l' Hr _ IH];
        constructor; [exact (proj1 (EnsureOrientation_oriented _ _ _ Hr)) | exact IH].
    + cbn [List.length]. rewrite (mapM_length _ _ _ Ei). reflexivity.
Qed.

Lemma NewPolygon_oriented (rings : LinearRings) (p : Polygon) :
  NewPolygon rings = Ok p -> ringsOriented (pg_rings p).
Proof.
  unfold NewPolygon. destruct (List.length rings =? 0)%nat; [discriminate|].
  destruct (checkRings rings); [discriminate|].
  destruct (ensureOrientation rings) as [rings'| |] eqn:E; try discriminate.
  cbn [bind]. intros H. injection H as <-. cbn [pg_rings].
  exact (proj1 (ensureOrientation_oriented _ _ E)).
Qed.

Lemma Polygon_buildCoordinates_oriented (p p' : Polygon) (v : value) :
  Polygon_buildCoordinates p v = Ok p' -> ringsOriented (pg_rings p').
Proof.
  unfold Polygon_buildCoordinates.
  destruct v as [ |b|f|z|s|rawSlice|m]; try discriminate.
  destruct (mapM buildRing rawSlice) as [rings| |]; try discriminate. cbn [bind].
  destruct (List.length rings =? 0)%nat; [discriminate|].
  destruct (ensureOrientation rings) as [rings'| |] eqn:E; try discriminate.
  cbn [bind]. intros H. injection H as <-. cbn [pg_rings].
  exact (proj1 (ensureOrientation_oriented _ _ E)).
Qed.

Lemma mapM_Forall_result {A B : Type} (f : A -> result B) (Q : B -> Prop) (l : list A) :
  (forall x y, f x = Ok y -> Q y) ->
  forall l', mapM f l = Ok l' -> Forall Q l'.
Proof.
  intros Hf l' H. apply mapM_Forall2 in H.
  induction H as [|x y t t' Hx _ IH]; constructor; eauto.
Qed.

Lemma NewMultiPolygonFromRingSlice_oriented (slice : list LinearRings) (m : MultiPolygon) :
  NewMultiPolygonFromRingSlice slice = Ok m -> Forall ringsOriented (mpg_rings m).
Proof.
  unfold NewMultiPolygonFromRingSlice.
  destruct (mapM checkAndOrient slice) as [slice'| |] eqn:E; try discriminate.
  cbn [bind]. intros H. injection H as <-. cbn [mpg_rings].
  apply (mapM_Forall_result checkAndOrient ringsOriented slice); [|exact E].
  intros rings rings' Hr. unfold checkAndOrient in Hr.
  destruct (checkRings rings); [discriminate|].
  exact (proj1 (ensureOrientation_oriented _ _ Hr)).
Qed.

Lemma MultiPolygon_buildCoordinates_oriented (m m' : MultiPolygon) (v : value) :
  MultiPolygon_buildCoordinates m v = Ok m' -> Forall ringsOriented (mpg_rings m').
Proof.
  unfold MultiPolygon_buildCoordinates.
  destruct v as [ |b|f|z|s|rawSlice|mm]; try discriminate.
  destruct (mapM buildRingGroup rawSlice) as [lrSlice| |] eqn:E; try discriminate.
  cbn [bind]. intros H. injection H as <-. cbn [mpg_rings].
  apply (mapM_Forall_result buildRingGroup ringsOriented rawSlice); [|exact E].
  intros s rings Hr. unfold buildRingGroup in Hr.
  destruct (Polygon_buildCoordinates (mkPolygon [] false) s) as [p| |] eqn:Ep;
    try discriminate Hr.
  cbn [bind] in Hr. injection Hr as <-.
  exact (Polygon_buildCoordinates_oriented _ _ _ Ep).
Qed.

(** ** Rings reversed in place *)

Lemma NoDup_app_disjoint {A : Type} (l1 l2 : list A) :
  NoDup (l1 ++ l2) -> forall a, In a l1 -> ~ In a l2.
Proof.
  induction l1 as [|x l1 IH]; intros H a Hin; [contradiction|].
  cbn [app] in H. inversion H as [|? ? Hx Hnd]; subst.
  destruct Hin as [-> | Hin].
  - intros H2. apply Hx. apply in_or_app. auto.
  - apply IH; assumption.
Qed.

Module InPlaceFacts.

Lemma load_reverse_other (st : InPlace.store) (s s2 : InPlace.slice) :
  InPlace.s_array s2 <> InPlace.s_array s -> InPlace.load (InPlace.reverseInPlace st s) s2 = InPlace.load st s2.
Proof.
  intros H. unfold InPlace.load, InPlace.reverseInPlace.
  destruct (Nat.eqb_spec (InPlace.s_array s2) (InPlace.s_array s)); [contradiction | reflexivity].
Qed.

Lemma reverse_length (st : InPlace.store) (s : InPlace.slice) (a : nat) :
  InPlace.inBounds st s -> List.length (InPlace.reverseInPlace st s a) = List.length (st a).
Proof.
  unfold InPlace.inBounds, InPlace.reverseInPlace, InPlace.load. intros H.
  destruct (Nat.eqb_spec a (InPlace.s_array s)) as [-> | _]; [|reflexivity].
  rewrite !length_app, length_rev, !length_firstn, !length_skipn. lia.
Qed.

Lemma inBounds_reverse (st : InPlace.store) (s s2 : InPlace.slice) :
  InPlace.inBounds st s -> InPlace.inBounds st s2 -> InPlace.inBounds (InPlace.reverseInPlace st s) s2.
Proof.
  intros H H2. unfold InPlace.inBounds. rewrite (reverse_length st s _ H). exact H2.
Qed.

Lemma load_reverse_same (st : InPlace.store) (s : InPlace.slice) :
  InPlace.inBounds st s -> InPlace.load (InPlace.reverseInPlace st s) s = rev (InPlace.load st s).
Proof.
  unfold InPlace.inBounds. intros H. unfold InPlace.load at 1. unfold InPlace.reverseInPlace.
  rewrite Nat.eqb_refl.
  assert (Hoff : List.length (firstn (InPlace.s_off s) (st (InPlace.s_array s))) = InPlace.s_off s)
    by (rewrite length_firstn; lia).
  rewrite skipn_app, Hoff, Nat.sub_diag. cbn [skipn].
  rewrite (skipn_all2 (firstn (InPlace.s_off s) (st (InPlace.s_array s)))) by lia.
  cbn [app].
  assert (Hlen : List.length (rev (InPlace.load st s)) = InPlace.s_len s)
    by (unfold InPlace.load; rewrite length_rev, length_firstn, length_skipn; lia).
  rewrite firstn_app, Hlen, Nat.sub_diag. cbn [firstn].
  rewrite app_nil_r. apply firstn_all2. lia.
Qed.

Lemma frame_refl (arrays : list nat) (st : InPlace.store) : frame arrays st st.
Proof. split; auto. Qed.

Lemma frame_trans (a1 a2 : list nat) (st st1 st2 : InPlace.store) :
  frame a1 st st1 -> frame a2 st1 st2 -> frame (a1 ++ a2) st st2.
Proof.
  intros [L1 B1] [L2 B2]. split.
  - intros s Hs. rewrite L2, L1; [reflexivity| |];
      intros Hin; apply Hs; apply in_or_app; auto.
  - auto.
Qed.

Lemma EnsureOrientation_value (st : InPlace.store) (s : InPlace.slice) (flag : bool) :
  InPlace.inBounds st s ->
  agrees (InPlace.EnsureOrientation st s flag)
         (EnsureOrientation (InPlace.load st s) flag) (fun st' => InPlace.load st' s) /\
  framed [InPlace.s_array s] st (InPlace.EnsureOrientation st s flag).
Proof.
  intros Hb. unfold InPlace.EnsureOrientation, EnsureOrientation.
  destruct (IsCounterClockwise (InPlace.load st s)) as [b| e |]; cbn [bind agrees framed];
    auto.
  destruct (Bool.eqb flag b); cbn [agrees framed].
  - split; [reflexivity | apply frame_refl].
  - split; [rewrite (load_reverse_same st s Hb); reflexivity|].
    split.
    + intros s2 Hs2. apply load_reverse_other. cbn [In] in Hs2. intuition.
    + intros s2. apply inBounds_reverse. exact Hb.
Qed.

Lemma map_load_frame (arrays : list nat) (st st' : InPlace.store) (l : list InPlace.slice) :
  frame arrays st st' ->
  (forall s, In s l -> ~ In (InPlace.s_array s) arrays) ->
  map (InPlace.load st') l = map (InPlace.load st) l.
Proof.
  intros [L _] H. apply map_ext_in. intros s Hs. apply L. apply H. exact Hs.
Qed.

Lemma orientInner_value (inner : list InPlace.slice) :
  forall st,
    NoDup (map InPlace.s_array inner) -> Forall (InPlace.inBounds st) inner ->
    agrees (InPlace.orientInner st inner)
           (mapM (fun r => EnsureOrientation r false) (map (InPlace.load st) inner))
           (fun st' => map (InPlace.load st') inner) /\
    framed (map InPlace.s_array inner) st (InPlace.orientInner st inner).
Proof.
  induction inner as [|r rest IH]; intros st Hnd Hb.
  - cbn. split; [reflexivity | apply frame_refl].
  - inversion Hnd as [|? ? Hnotin Hnd']; subst.
    inversion Hb as [|? ? Hbr Hbrest]; subst.
    cbn [InPlace.orientInner map mapM].
    destruct (EnsureOrientation_value st r false Hbr) as [Ha Hf].
    destruct (InPlace.EnsureOrientation st r false) as [st1| e |];
      cbn [agrees framed bind] in *; rewrite Ha; cbn [bind]; auto.
    assert (Hrest : map (InPlace.load st1) rest = map (InPlace.load st) rest).
    { apply (map_load_frame [InPlace.s_array r] st st1 rest Hf).
      intros s Hs [Heq | []]. apply Hnotin. rewrite Heq.
      apply in_map. exact Hs. }
    assert (Hb1 : Forall (InPlace.inBounds st1) rest).
    { apply Forall_forall. intros s Hs. apply (proj2 Hf).
      rewrite Forall_forall in Hbrest. auto. }
    specialize (IH st1 Hnd' Hb1). destruct IH as [IHa IHf].
    rewrite <- Hrest.
    destruct (InPlace.orientInner st1 rest) as [st2| e |]; cbn [agrees framed] in *;
      rewrite IHa; cbn [bind]; auto.
    split.
    + rewrite (proj1 IHf r Hnotin). reflexivity.
    + apply (frame_trans [InPlace.s_array r] (map InPlace.s_array rest) st st1 st2 Hf IHf).
Qed.

Lemma ensureOrientation_value (rings : list InPlace.slice) (st : InPlace.store) :
  NoDup (map InPlace.s_array rings) -> Forall (InPlace.inBounds st) rings ->
  agrees (InPlace.ensureOrientation st rings)
         (ensureOrientation (map (InPlace.load st) rings))
         (fun st' => map (InPlace.load st') rings) /\
  framed (map InPlace.s_array rings) st (InPlace.ensureOrientation st rings).
Proof.
  intros Hnd Hb. change rings with ([] ++ rings) at 1 2.
  destruct rings as [|outer inner];
    [cbn; split; [reflexivity | apply frame_refl]|].
  cbn [app]. inversion Hnd as [|? ? Hnotin Hnd']; subst.
  inversion Hb as [|? ? Hbo Hbi]; subst.
  cbn [InPlace.ensureOrientation ensureOrientation map].
  destruct (EnsureOrientation_value st outer true Hbo) as [Ha Hf].
  destruct (InPlace.EnsureOrientation st outer true) as [st1| e |];
    cbn [agrees framed bind] in *; rewrite Ha; cbn [bind]; auto.
  assert (Hrest : map (InPlace.load st1) inner = map (InPlace.load st) inner).
  { apply (map_load_frame [InPlace.s_array outer] st st1 inner Hf).
    intros s Hs [Heq | []]. apply Hnotin. rewrite Heq. apply in_map. exact Hs. }
  assert (Hb1 : Forall (InPlace.inBounds st1) inner).
  { apply Forall_forall. intros s Hs. apply (proj2 Hf).
    rewrite Forall_forall in Hbi. auto. }
  destruct (orientInner_value inner st1 Hnd' Hb1) as [IHa IHf].
  rewrite <- Hrest.
  destruct (InPlace.orientInner st1 inner) as [st2| e |]; cbn [agrees framed] in *;
    rewrite IHa; cbn [bind]; auto.
  split.
  - rewrite (proj1 IHf outer Hnotin). reflexivity.
  - apply (frame_trans [InPlace.s_array outer] (map InPlace.s_array inner) st st1 st2 Hf IHf).
Qed.

(** On rings that lie in distinct arrays, [NewPolygon] in place does what
    [NewPolygon] on the values of the rings does. *)
Lemma NewPolygon_value (rings : list InPlace.slice) (st : InPlace.store) :
  NoDup (map InPlace.s_array rings) -> Forall (InPlace.inBounds st) rings ->
  agrees (InPlace.NewPolygon st rings)
         (NewPolygon (map (InPlace.load st) rings))
         (fun st' => mkPolygon (map (InPlace.load st') rings) false).
Proof.
  intros Hnd Hb. unfold InPlace.NewPolygon, NewPolygon. rewrite length_map.
  destruct (List.length rings =? 0)%nat; [reflexivity|].
  destruct (checkRings (map (InPlace.load st) rings)); [reflexivity|].
  destruct (ensureOrientation_value rings st Hnd Hb) as [Ha _].
  destruct (InPlace.ensureOrientation st rings); cbn [agrees] in *;
    rewrite Ha; reflexivity.
Qed.

Lemma NewMultiPolygonFromRingSlice_value (groups : list (list InPlace.slice)) :
  forall st,
    NoDup (map InPlace.s_array (List.concat groups)) ->
    Forall (InPlace.inBounds st) (List.concat groups) ->
    agrees (InPlace.NewMultiPolygonFromRingSlice st groups)
           (NewMultiPolygonFromRingSlice (map (map (InPlace.load st)) groups))
           (fun st' => mkMultiPolygon (map (map (InPlace.load st')) groups) false) /\
    framed (map InPlace.s_array (List.concat groups)) st
           (InPlace.NewMultiPolygonFromRingSlice st groups).
Proof.
  unfold NewMultiPolygonFromRingSlice.
  induction groups as [|rings rest IH]; intros st Hnd Hb.
  - cbn. split; [reflexivity | apply frame_refl].
  - cbn [List.concat] in Hnd, Hb. rewrite map_app in Hnd.
    apply Forall_app in Hb. destruct Hb as [Hb1 Hb2].
    pose proof (NoDup_app_remove_l _ _ Hnd) as Hnd2.
    pose proof (NoDup_app_remove_r _ _ Hnd) as Hnd1.
    cbn [InPlace.NewMultiPolygonFromRingSlice map mapM List.concat].
    unfold checkAndOrient at 1.
    destruct (checkRings (map (InPlace.load st) rings));
      [cbn; auto|].
    destruct (ensureOrientation_value rings st Hnd1 Hb1) as [Ha Hf].
    destruct (InPlace.ensureOrientation st rings) as [st1| e |];
      cbn [agrees framed bind] in *; rewrite Ha; cbn [bind]; auto.
    assert (Hdisj : forall s, In s (List.concat rest) ->
                              ~ In (InPlace.s_array s) (map InPlace.s_array rings)).
    { intros s Hs Hin.
      apply (NoDup_app_disjoint _ _ Hnd _ Hin). apply in_map. exact Hs. }
    assert (Hrest : map (map (InPlace.load st1)) rest = map (map (InPlace.load st)) rest).
    { apply map_ext_in. intros g Hg.
      apply (map_load_frame (map InPlace.s_array rings) st st1 g Hf).
      intros s Hs. apply Hdisj. apply in_concat. exists g. auto. }
    assert (Hb2' : Forall (InPlace.inBounds st1) (List.concat rest)).
    { apply Forall_forall. intros s Hs. apply (proj2 Hf).
      rewrite Forall_forall in Hb2. auto. }
    specialize (IH st1 Hnd2 Hb2'). destruct IH as [IHa IHf].
    rewrite <- Hrest.
    destruct (InPlace.NewMultiPolygonFromRingSlice st1 rest) as [st2| e |];
      cbn [agrees framed] in *.
    + destruct (mapM checkAndOrient (map (map (InPlace.load st1)) rest)) as [rest'| |];
        cbn [bind] in IHa; try discriminate IHa.
      injection IHa as ->. cbn [bind]. split.
      * f_equal. f_equal. f_equal. symmetry.
        apply (map_load_frame (map InPlace.s_array (List.concat rest)) st1 st2 rings IHf).
        intros s Hs Hin. 
        assert (Hin1 : In (InPlace.s_array s) (map InPlace.s_array rings))
          by (apply in_map; exact Hs).
        exact (NoDup_app_disjoint _ _ Hnd _ Hin1 Hin).
      * rewrite map_app. apply (frame_trans _ _ st st1 st2 Hf IHf).
    + destruct (mapM checkAndOrient (map (map (InPlace.load st1)) rest)) as [rest'| |];
        cbn [bind] in IHa; try discriminate IHa.
      injection IHa as ->. cbn [bind]. auto.
    + destruct (mapM checkAndOrient (map (map (InPlace.load st1)) rest)) as [rest'| |];
        cbn [bind] in IHa; try discriminate IHa. cbn [bind]. auto.
Qed.

End InPlaceFacts.

(** C1, as amended: in every polygon built by [NewPolygon] from rings that
    do not share storage, or populated by the decode coordinate builder, and
    in every ring group of a multi-polygon built by
    [NewMultiPolygonFromRingSlice] or by decoding, the first ring is
    counterclockwise unless neither it nor its reversal is counterclockwise
    (a ring of zero signed area), and every later ring is clockwise unless
    neither it nor its reversal is clockwise; a ring that has the requested
    orientation in one of its two directions ends with it, whatever its
    winding order was. *)
Theorem C1_rings_oriented_unless_unorientable :
  (forall rings p, NewPolygon rings = Ok p -> ringsOriented (pg_rings p)) /\
  (forall p v p', Polygon_buildCoordinates p v = Ok p' -> ringsOriented (pg_rings p')) /\
  (forall slice m,
     NewMultiPolygonFromRingSlice slice = Ok m -> Forall ringsOriented (mpg_rings m)) /\
  (forall m v m',
     MultiPolygon_buildCoordinates m v = Ok m' -> Forall ringsOriented (mpg_rings m')) /\
  (forall st rings st',
     NoDup (map InPlace.s_array rings) -> Forall (InPlace.inBounds st) rings ->
     InPlace.NewPolygon st rings = Ok st' ->
     ringsOriented (map (InPlace.load st') rings)) /\
  (forall st groups st',
     NoDup (map InPlace.s_array (List.concat groups)) ->
     Forall (InPlace.inBounds st) (List.concat groups) ->
     InPlace.NewMultiPolygonFromRingSlice st groups = Ok st' ->
     Forall ringsOriented (map (map (InPlace.load st')) groups)) /\
  (forall r flag r',
     EnsureOrientation r flag = Ok r' ->
     IsCounterClockwise r = Ok flag \/ IsCounterClockwise (rev r) = Ok flag ->
     IsCounterClockwise r' = Ok flag).
Proof.
  split; [exact NewPolygon_oriented|].
  split; [intros p v p'; apply Polygon_buildCoordinates_oriented|].
  split; [exact NewMultiPolygonFromRingSlice_oriented|].
  split; [intros m v m'; apply MultiPolygon_buildCoordinates_oriented|].
  split; [|split].
  - intros st rings st' Hnd Hb H.
    pose proof (InPlaceFacts.NewPolygon_value rings st Hnd Hb) as Ha.
    rewrite H in Ha. cbn [agrees] in Ha.
    exact (NewPolygon_oriented _ _ Ha).
  - intros st groups st' Hnd Hb H.
    destruct (InPlaceFacts.NewMultiPolygonFromRingSlice_value groups st Hnd Hb)
      as [Ha _].
    rewrite H in Ha. cbn [agrees] in Ha.
    exact (NewMultiPolygonFromRingSlice_oriented _ _ Ha).
  - intros r flag r' H. exact (proj2 (proj2 (EnsureOrientation_oriented r r' flag H))).
Qed.

Lemma C1_witness :
  NewPolygon [square_cw; square_ccw]
    = Ok (mkPolygon [rev square_cw; rev square_ccw] false) /\
  ringsOriented [rev square_cw; rev square_ccw].
Proof.
  assert (H : NewPolygon [square_cw; square_ccw]
              = Ok (mkPolygon [rev square_cw; rev square_ccw] false))
    by reflexivity.
  split; [exact H|].
  exact (proj1 C1_rings_oriented_unless_unorientable _ _ H).
Defined.

(** C1 fails on the bowtie of the tests as outer ring, by [NewPolygon] and
    by decoding: its signed area is zero in both directions, so the outer
    ring of the polygon is not counterclockwise. With rounding it also fails
    for a hole: [roundingRing] is counterclockwise in both directions, so the
    hole of the polygon is not clockwise. *)
Lemma C1_counterexample :
  (exists p, NewPolygon [bowtie] = Ok p /\
             OuterRing p = Some (rev bowtie) /\
             IsCounterClockwise (rev bowtie) = Ok false) /\
  (exists p, Polygon_buildCoordinates (mkPolygon [] false) bowtieCoordinates = Ok p /\
             OuterRing p = Some (rev bowtie) /\
             IsCounterClockwise (rev bowtie) = Ok false) /\
  (exists p, NewPolygon [square_ccw; roundingRing] = Ok p /\
             InnerRings p = Some [rev roundingRing] /\
             IsClockwise (rev roundingRing) = Ok false).
Proof.
  split; [|split]; eexists; (split; [reflexivity|]); split; reflexivity.
Qed.

(** In place, with the same slice given as outer ring and as hole, the
    outer ring ends clockwise although its signed area is not zero: the
    second call reverses the array the first ring lives in. On the values
    (storage not shared) the outer ring stays counterclockwise. *)
Example NewPolygon_aliased_rings :
  IsCounterClockwise (InPlace.load squareStore squareSlice) = Ok true /\
  match InPlace.NewPolygon squareStore [squareSlice; squareSlice] with
  | Ok st' => IsCounterClockwise (InPlace.load st' squareSlice) = Ok false
  | _ => False
  end /\
  NewPolygon [square_ccw; square_ccw]
    = Ok (mkPolygon [square_ccw; rev square_ccw] false).
Proof. repeat split; reflexivity. Qed.

Example NewPolygon_in_place_distinct_arrays :
  match InPlace.NewPolygon twoRingStore [firstSlice; secondSlice] with
  | Ok st' =>
      InPlace.load st' firstSlice = rev square_cw /\
      InPlace.load st' secondSlice = rev square_ccw
  | _ => False
  end.
Proof. split; reflexivity. Qed.

(** ** Encoding and decoding valid geometries *)

Lemma mapM_map_Ok {A B C : Type} (f : B -> result C) (g : A -> B) (h : A -> C)
  (P : A -> Prop) (l : list A) :
  (forall x, P x -> f (g x) = Ok (h x)) ->
  Forall P l -> mapM f (map g l) = Ok (map h l).
Proof.
  intros Hf. induction 1 as [|x t Hx _ IH]; [reflexivity|].
  cbn [map mapM]. rewrite (Hf x Hx), IH. reflexivity.
Qed.

Lemma mapM_id_Ok {A C : Type} (f : A -> result C) (h : A -> C)
  (P : A -> Prop) (l : list A) :
  (forall x, P x -> f x = Ok (h x)) ->
  Forall P l -> mapM f l = Ok (map h l).
Proof.
  intros Hf H. rewrite <- (map_id l) at 1.
  apply (mapM_map_Ok f (fun x => x) h P); assumption.
Qed.

Lemma forallb_Forall {A : Type} (f : A -> bool) (l : list A) :
  forallb f l = true -> Forall (fun x => f x = true) l.
Proof. intros H. apply Forall_forall. apply forallb_forall. exact H. Qed.

Lemma marshalFloats_Ok (c : list float) :
  forallb F64.marshalable c = true ->
  mapM marshalFloat c = Ok (map VFloat c) /\ marshalFloats c = Ok c.
Proof.
  intros H.
  assert (E : mapM marshalFloat c = Ok (map VFloat c)).
  { apply (mapM_id_Ok marshalFloat VFloat (fun x => F64.marshalable x = true)).
    - intros x Hx. unfold marshalFloat. rewrite Hx. reflexivity.
    - apply forallb_Forall. exact H. }
  split; [exact E|]. unfold marshalFloats. rewrite E. reflexivity.
Qed.

Lemma marshalCoordinates_Ok (c : Coordinates) :
  validCoordinates c -> marshalCoordinates c = Ok (encCoordinates c).
Proof.
  intros [_ H]. unfold marshalCoordinates.
  rewrite (proj1 (marshalFloats_Ok c H)). reflexivity.
Qed.

Lemma marshalVertices_Ok (vs : Vertices) :
  validVertices vs -> marshalVertices vs = Ok (encVertices vs).
Proof.
  intros H. unfold marshalVertices.
  rewrite (mapM_id_Ok marshalCoordinates encCoordinates validCoordinates vs
             marshalCoordinates_Ok H).
  reflexivity.
Qed.

Lemma marshalSegments_Ok (ss : list Vertices) :
  Forall validVertices ss -> marshalSegments ss = Ok (encSegments ss).
Proof.
  intros H. unfold marshalSegments.
  rewrite (mapM_id_Ok marshalVertices encVertices validVertices ss
             marshalVertices_Ok H).
  reflexivity.
Qed.

Lemma marshalRingGroups_Ok (gs : list LinearRings) :
  Forall (Forall validVertices) gs -> marshalRingGroups gs = Ok (encGroups gs).
Proof.
  intros H. unfold marshalRingGroups.
  rewrite (mapM_id_Ok marshalSegments encSegments (Forall validVertices) gs
             marshalSegments_Ok H).
  reflexivity.
Qed.

Lemma validCoordinates_length (c : Coordinates) :
  validCoordinates c -> List.length c = 2 \/ List.length c = 3.
Proof.
  intros [H _]. destruct (NewCoordinates_Ok_inv c c H) as [_ (x & y & rest & -> & Hl & _)].
  destruct rest as [|z [|w rest]]; simpl in *; auto; lia.
Qed.

Lemma buildCoordinates_enc (c : Coordinates) :
  validCoordinates c -> buildCoordinates (encCoordinates c) = Ok c.
Proof.
  intros Hv. pose proof (validCoordinates_length c Hv) as Hl.
  destruct Hv as [Hn _]. unfold buildCoordinates, encCoordinates.
  rewrite length_map.
  assert (Hc : negb (List.length c =? coordsMinLen)%nat &&
               negb (List.length c =? coordsMaxLen)%nat = false)
    by (destruct Hl as [-> | ->]; reflexivity).
  rewrite Hc.
  rewrite (mapM_map_Ok toFloat64 VFloat (fun x => x) (fun _ => True) c
             (fun x _ => eq_refl)) by (apply Forall_forall; auto).
  rewrite map_id. cbn [bind]. exact Hn.
Qed.

Lemma buildVertex_enc (c : Coordinates) :
  validCoordinates c -> buildVertex (encCoordinates c) = Ok c.
Proof.
  intros Hv. unfold buildVertex, Point_buildCoordinates.
  change (match encCoordinates c with VSlice _ => ?a | _ => _ end) with a.
  rewrite (buildCoordinates_enc c Hv). reflexivity.
Qed.

Lemma buildVertices_enc (vs : Vertices) :
  validVertices vs -> mapM buildVertex (map encCoordinates vs) = Ok vs.
Proof.
  intros H.
  rewrite (mapM_map_Ok buildVertex encCoordinates (fun x => x) validCoordinates vs
             buildVertex_enc H).
  rewrite map_id. reflexivity.
Qed.

Lemma buildSegment_enc (s : Vertices) :
  validSegment s -> buildSegment (encVertices s) = Ok s.
Proof.
  intros [Hl Hv]. unfold buildSegment, LineString_buildCoordinates, encVertices.
  rewrite length_map.
  destruct (Nat.ltb_spec (List.length s) LineStringMinimumSize) as [H|H];
    [unfold LineStringMinimumSize in H; lia|].
  rewrite (buildVertices_enc s Hv). reflexivity.
Qed.

Lemma buildRing_enc (r : LinearRing) :
  validRing r -> buildRing (encVertices r) = Ok r.
Proof.
  intros (Hv & Hs & Hc). unfold buildRing, encVertices.
  rewrite (mapM_map_Ok buildCoordinates encCoordinates (fun x => x) validCoordinates r
             buildCoordinates_enc Hv).
  rewrite map_id. cbn [bind]. unfold NewLinearRing. rewrite Hs, Hc. reflexivity.
Qed.

(** Rings that are oriented are left as they are. *)
Lemma ensureOrientation_fixed (rs : LinearRings) :
  strictlyOriented rs -> ensureOrientation rs = Ok rs.
Proof.
  destruct rs as [|outer inner]; [reflexivity|]. intros [Ho Hi].
  cbn [ensureOrientation]. rewrite (EnsureOrientation_keeps outer true Ho).
  cbn [bind].
  rewrite (mapM_id_Ok (fun r => EnsureOrientation r false) (fun r => r)
             (fun r => IsClockwise r = Ok true) inner).
  - rewrite map_id. reflexivity.
  - intros r Hr. apply EnsureOrientation_keeps. unfold IsClockwise in Hr.
    destruct (IsCounterClockwise r) as [[|]| |]; try discriminate Hr. reflexivity.
  - exact Hi.
Qed.

Lemma Polygon_buildCoordinates_enc (p : Polygon) (rs : LinearRings) :
  validRings rs ->
  Polygon_buildCoordinates p (encSegments rs) = Ok (mkPolygon rs (pg_SerializeBBox p)).
Proof.
  intros (Hne & Hv & Ho). unfold Polygon_buildCoordinates, encSegments.
  rewrite (mapM_map_Ok buildRing encVertices (fun x => x) validRing rs
             buildRing_enc Hv).
  rewrite map_id. cbn [bind].
  destruct rs as [|r rest]; [congruence|]. cbn [List.length Nat.eqb].
  rewrite (ensureOrientation_fixed _ Ho). reflexivity.
Qed.

Lemma buildRingGroup_enc (rs : LinearRings) :
  validRings rs -> buildRingGroup (encSegments rs) = Ok rs.
Proof.
  intros H. unfold buildRingGroup.
  rewrite (Polygon_buildCoordinates_enc (mkPolygon [] false) rs H). reflexivity.
Qed.

(** The box of valid vertices can be written: its numbers are finite. *)
Lemma fmin_cases (m x : float) : fmin m x = m \/ fmin m x = x.
Proof. unfold fmin. destruct (PrimFloat.ltb x m); auto. Qed.

Lemma fmax_cases (m x : float) : fmax m x = m \/ fmax m x = x.
Proof. unfold fmax. destruct (PrimFloat.ltb m x); auto. Qed.

Lemma fmin_marshalable (m x : float) :
  F64.marshalable m = true -> F64.marshalable x = true ->
  F64.marshalable (fmin m x) = true.
Proof. intros. destruct (fmin_cases m x) as [-> | ->]; assumption. Qed.

Lemma fmax_marshalable (m x : float) :
  F64.marshalable m = true -> F64.marshalable x = true ->
  F64.marshalable (fmax m x) = true.
Proof. intros. destruct (fmax_cases m x) as [-> | ->]; assumption. Qed.

Lemma validCoordinates_components (c : Coordinates) :
  validCoordinates c ->
  (List.length c = 2 \/ List.length c = 3) /\
  F64.marshalable (lngOf c) = true /\ F64.marshalable (latOf c) = true /\
  (HasAltitude c = true -> F64.marshalable (altOf c) = true).
Proof.
  intros Hv. pose proof (validCoordinates_length c Hv) as Hl.
  destruct Hv as [_ Hm]. split; [exact Hl|].
  destruct c as [|x [|y [|z [|w c]]]]; simpl in Hl; try lia;
    cbn [forallb] in Hm; rewrite !andb_true_iff in Hm;
    unfold lngOf, latOf, altOf, HasAltitude; cbn; intuition discriminate.
Qed.

Lemma stepSpec_finite (b : bounds) (v : Coordinates) :
  validCoordinates v -> finiteBounds b -> finiteBounds (stepSpec b v).
Proof.
  intros Hv (H1 & H2 & H3 & H4 & H5 & H6).
  destruct (validCoordinates_components v Hv) as (_ & Hx & Hy & Hz).
  unfold finiteBounds, stepSpec. cbn [minLng minLat maxLng maxLat minAlt maxAlt].
  repeat split; try (apply fmin_marshalable; assumption);
    try (apply fmax_marshalable; assumption);
    destruct (HasAltitude v); auto using fmin_marshalable, fmax_marshalable.
Qed.

Lemma fold_stepSpec_finite (vs : Vertices) :
  validVertices vs ->
  forall b, finiteBounds b -> finiteBounds (fold_left stepSpec vs b).
Proof.
  induction 1 as [|v rest Hv _ IH]; intros b Hb; [exact Hb|].
  cbn [fold_left]. apply IH. apply stepSpec_finite; assumption.
Qed.

Lemma widenOnce_finite (b : bounds) : finiteBounds b -> finiteBounds (widenOnce b).
Proof.
  intros (H1 & H2 & H3 & H4 & H5 & H6). unfold finiteBounds, widenOnce.
  cbn [minLng minLat maxLng maxLat minAlt maxAlt].
  repeat split; auto using fmin_marshalable, fmax_marshalable.
Qed.

Lemma bbox_loop1_valid (vs : Vertices) :
  validVertices vs ->
  forall b, bbox_loop1 b vs = Ok (fold_left stepSpec vs b).
Proof.
  induction 1 as [|v rest Hv _ IH]; intros b; [reflexivity|].
  cbn [bbox_loop1 fold_left].
  rewrite (bbox_step_spec b v (validCoordinates_length v Hv)).
  cbn [bind]. apply IH.
Qed.

Lemma bbox_marshalable (vs : Vertices) :
  validVertices vs ->
  exists bb, bbox vs = Ok bb /\ marshalFloats bb = Ok bb.
Proof.
  intros Hv. unfold bbox.
  destruct (List.length vs =? 0)%nat; [exists []; split; reflexivity|].
  rewrite (bbox_loop1_valid vs Hv). cbn [bind].
  assert (Hb : finiteBounds (fold_left stepSpec vs bounds_init))
    by (apply fold_stepSpec_finite; [exact Hv | repeat split; reflexivity]).
  set (b := fold_left stepSpec vs bounds_init) in *.
  assert (Hb' : finiteBounds
                  (if negb (count3D b =? List.length vs)%nat
                   then fold_left bbox_widen vs b else b)).
  { destruct (negb (count3D b =? List.length vs)%nat); [|exact Hb].
    rewrite (proj2 (fold_widen_spec vs b)).
    destruct (forallb HasAltitude vs); [exact Hb | apply widenOnce_finite; exact Hb]. }
  set (b' := if negb (count3D b =? List.length vs)%nat
             then fold_left bbox_widen vs b else b) in *.
  destruct Hb' as (H1 & H2 & H3 & H4 & H5 & H6).
  destruct (0 <? count3D b')%nat; eexists; (split; [reflexivity|]);
    apply marshalFloats_Ok; unfold box3D, box2D; cbn [forallb];
    rewrite ?H1, ?H2, ?H3, ?H4, ?H5, ?H6; reflexivity.
Qed.

(** The document [marshalOutput] writes for valid vertices. *)
Lemma marshalOutput_Ok (type_ : GeometryType) (coordinates : value)
  (SerializeBBox : bool) (vertices : Vertices) :
  validVertices vertices ->
  exists bb, marshalOutput type_ (Ok coordinates) SerializeBBox vertices
             = Ok (coordinatesDocument type_ coordinates bb).
Proof.
  intros Hv. unfold marshalOutput. destruct SerializeBBox.
  - destruct (bbox_marshalable vertices Hv) as (bb & -> & Hm). cbn [bind].
    rewrite Hm. exists bb. reflexivity.
  - exists []. reflexivity.
Qed.

Lemma UnmarshalJSON_coordinatesDocument (type_ : GeometryType) (c : value) (bb : list float) :
  GeometryObject_UnmarshalJSON (coordinatesDocument type_ c bb)
  = GeometryObject_dispatch (mkGeometryJSONInput type_ c [] bb).
Proof. reflexivity. Qed.

Lemma roundTrip_Ok_inv (g : Geometry) (o : GeometryObject) :
  roundTrip g = Ok o ->
  exists d, Geometry_MarshalJSON g = Ok d /\ GeometryObject_UnmarshalJSON d = Ok o.
Proof.
  unfold roundTrip. destruct (Geometry_MarshalJSON g) as [d| |]; try discriminate.
  cbn [bind]. intros H. exists d. auto.
Qed.

Lemma roundTrip_coordinates (g : Geometry) (type_ : GeometryType) (c : value)
  (flag : bool) (vertices : Vertices) (o : GeometryObject) :
  Geometry_MarshalJSON g = marshalOutput type_ (Ok c) flag vertices ->
  validVertices vertices ->
  GeometryObject_dispatch (mkGeometryJSONInput type_ c [] []) = Ok o ->
  (forall bb, GeometryObject_dispatch (mkGeometryJSONInput type_ c [] bb)
              = GeometryObject_dispatch (mkGeometryJSONInput type_ c [] [])) ->
  roundTrip g = Ok o.
Proof.
  intros Hm Hv Hd Hbb. unfold roundTrip. rewrite Hm.
  destruct (marshalOutput_Ok type_ c flag vertices Hv) as [bb ->]. cbn [bind].
  rewrite UnmarshalJSON_coordinatesDocument, Hbb. exact Hd.
Qed.

Lemma dispatch_ignores_bbox (type_ : GeometryType) (c : value)
  (gs : list GeometryObject) (bb : BoundingBox) :
  GeometryObject_dispatch (mkGeometryJSONInput type_ c gs bb)
  = GeometryObject_dispatch (mkGeometryJSONInput type_ c gs []).
Proof. reflexivity. Qed.

Lemma Forall_concat {A : Type} (P : A -> Prop) (ll : list (list A)) :
  Forall (Forall P) ll -> Forall P (List.concat ll).
Proof.
  induction 1 as [|l t Hl _ IH]; [constructor|].
  cbn [List.concat]. apply Forall_app. auto.
Qed.

Lemma LineString_buildCoordinates_enc (l : LineString) (s : Vertices) :
  validSegment s ->
  LineString_buildCoordinates l (encVertices s) = Ok (mkLineString s (ls_SerializeBBox l)).
Proof.
  intros [Hl Hv]. unfold LineString_buildCoordinates, encVertices.
  rewrite length_map.
  destruct (Nat.ltb_spec (List.length s) LineStringMinimumSize) as [H|H];
    [unfold LineStringMinimumSize in H; lia|].
  rewrite (buildVertices_enc s Hv). reflexivity.
Qed.

Lemma MultiPoint_buildCoordinates_enc (m : MultiPoint) (vs : Vertices) :
  validVertices vs ->
  MultiPoint_buildCoordinates m (encVertices vs) = Ok (mkMultiPoint vs (mp_SerializeBBox m)).
Proof.
  intros Hv. unfold MultiPoint_buildCoordinates, encVertices.
  rewrite (buildVertices_enc vs Hv). reflexivity.
Qed.

Lemma MultiLineString_buildCoordinates_enc (m : MultiLineString) (ss : Segments) :
  ss <> [] -> Forall validSegment ss ->
  MultiLineString_buildCoordinates m (encSegments ss)
  = Ok (mkMultiLineString ss (mls_SerializeBBox m)).
Proof.
  intros Hne Hv. unfold MultiLineString_buildCoordinates, encSegments.
  rewrite length_map. destruct ss as [|s0 rest]; [congruence|].
  cbn [List.length Nat.eqb].
  rewrite (mapM_map_Ok buildSegment encVertices (fun x => x) validSegment _
             buildSegment_enc Hv).
  rewrite map_id. reflexivity.
Qed.

Lemma MultiPolygon_buildCoordinates_enc (m : MultiPolygon) (gs : list LinearRings) :
  Forall validRings gs ->
  MultiPolygon_buildCoordinates m (encGroups gs)
  = Ok (mkMultiPolygon gs (mpg_SerializeBBox m)).
Proof.
  intros Hv. unfold MultiPolygon_buildCoordinates, encGroups.
  rewrite (mapM_map_Ok buildRingGroup encSegments (fun x => x) validRings _
             buildRingGroup_enc Hv).
  rewrite map_id. reflexivity.
Qed.

Lemma validRings_vertices (rs : LinearRings) :
  validRings rs -> Forall validVertices rs.
Proof.
  intros (_ & Hv & _). eapply Forall_impl; [|exact Hv].
  intros r Hr. exact (proj1 Hr).
Qed.

Lemma roundTrip_Point (p : Point) :
  valid (GPoint p) -> roundTrip (GPoint p) = Ok (Some (withoutBBox (GPoint p))).
Proof.
  cbn [valid]. intros Hv.
  apply (roundTrip_coordinates _ TypePoint (encCoordinates (pt_coords p))
           (pt_SerializeBBox p) [pt_coords p]).
  - cbn [Geometry_MarshalJSON]. rewrite (marshalCoordinates_Ok _ Hv). reflexivity.
  - constructor; [exact Hv | constructor].
  - rewrite (proj1 (dispatch_tags _ _ _)). unfold held, Point_buildCoordinates.
    change (match encCoordinates (pt_coords p) with VSlice _ => ?a | _ => _ end) with a.
    rewrite (buildCoordinates_enc _ Hv). reflexivity.
  - intros bb. apply dispatch_ignores_bbox.
Qed.

Lemma roundTrip_LineString (l : LineString) :
  valid (GLineString l) ->
  roundTrip (GLineString l) = Ok (Some (withoutBBox (GLineString l))).
Proof.
  cbn [valid]. intros Hv.
  apply (roundTrip_coordinates _ TypeLineString (encVertices (ls_vertices l))
           (ls_SerializeBBox l) (ls_vertices l)).
  - cbn [Geometry_MarshalJSON]. rewrite (marshalVertices_Ok _ (proj2 Hv)). reflexivity.
  - exact (proj2 Hv).
  - rewrite (proj1 (proj2 (dispatch_tags _ _ _))). unfold held.
    rewrite (LineString_buildCoordinates_enc _ _ Hv). reflexivity.
  - intros bb. apply dispatch_ignores_bbox.
Qed.

Lemma roundTrip_MultiPoint (m : MultiPoint) :
  valid (GMultiPoint m) ->
  roundTrip (GMultiPoint m) = Ok (Some (withoutBBox (GMultiPoint m))).
Proof.
  cbn [valid]. intros Hv.
  apply (roundTrip_coordinates _ TypeMultiPoint (encVertices (mp_vertices m))
           (mp_SerializeBBox m) (mp_vertices m)).
  - cbn [Geometry_MarshalJSON]. rewrite (marshalVertices_Ok _ Hv). reflexivity.
  - exact Hv.
  - rewrite (proj1 (proj2 (proj2 (dispatch_tags _ _ _)))). unfold held.
    rewrite (MultiPoint_buildCoordinates_enc _ _ Hv). reflexivity.
  - intros bb. apply dispatch_ignores_bbox.
Qed.

Lemma roundTrip_MultiLineString (m : MultiLineString) :
  valid (GMultiLineString m) ->
  roundTrip (GMultiLineString m) = Ok (Some (withoutBBox (GMultiLineString m))).
Proof.
  cbn [valid]. intros [Hne Hv].
  assert (Hvv : Forall validVertices (mls_segments m))
    by (eapply Forall_impl; [|exact Hv]; intros s Hs; exact (proj2 Hs)).
  apply (roundTrip_coordinates _ TypeMultiLineString (encSegments (mls_segments m))
           (mls_SerializeBBox m) (List.concat (mls_segments m))).
  - cbn [Geometry_MarshalJSON]. rewrite (marshalSegments_Ok _ Hvv). reflexivity.
  - apply Forall_concat. exact Hvv.
  - rewrite (proj1 (proj2 (proj2 (proj2 (dispatch_tags _ _ _))))). unfold held.
    rewrite (MultiLineString_buildCoordinates_enc _ _ Hne Hv). reflexivity.
  - intros bb. apply dispatch_ignores_bbox.
Qed.

Lemma roundTrip_Polygon (p : Polygon) :
  valid (GPolygon p) ->
  roundTrip (GPolygon p) = Ok (Some (withoutBBox (GPolygon p))).
Proof.
  cbn [valid]. intros Hv. pose proof (validRings_vertices _ Hv) as Hvv.
  apply (roundTrip_coordinates _ TypePolygon (encSegments (pg_rings p))
           (pg_SerializeBBox p) (List.concat (pg_rings p))).
  - cbn [Geometry_MarshalJSON]. rewrite (marshalSegments_Ok _ Hvv). reflexivity.
  - apply Forall_concat. exact Hvv.
  - rewrite (proj1 (proj2 (proj2 (proj2 (proj2 (dispatch_tags _ _ _)))))). unfold held.
    rewrite (Polygon_buildCoordinates_enc _ _ Hv). reflexivity.
  - intros bb. apply dispatch_ignores_bbox.
Qed.

Lemma roundTrip_MultiPolygon (m : MultiPolygon) :
  valid (GMultiPolygon m) ->
  roundTrip (GMultiPolygon m) = Ok (Some (withoutBBox (GMultiPolygon m))).
Proof.
  cbn [valid]. intros Hv.
  assert (Hvv : Forall (Forall validVertices) (mpg_rings m))
    by (eapply Forall_impl; [|exact Hv]; exact validRings_vertices).
  apply (roundTrip_coordinates _ TypeMultiPolygon (encGroups (mpg_rings m))
           (mpg_SerializeBBox m)
           (List.concat (map (@List.concat Coordinates) (mpg_rings m)))).
  - cbn [Geometry_MarshalJSON]. rewrite (marshalRingGroups_Ok _ Hvv). reflexivity.
  - apply Forall_concat. apply Forall_map.
    eapply Forall_impl; [|exact Hvv]. intros rs Hrs. apply Forall_concat. exact Hrs.
  - rewrite (proj2 (proj2 (proj2 (proj2 (proj2 (dispatch_tags _ _ _)))))). unfold held.
    rewrite (MultiPolygon_buildCoordinates_enc _ _ Hv). reflexivity.
  - intros bb. apply dispatch_ignores_bbox.
Qed.

(** The children of a valid collection, encoded and decoded one by one. *)
Lemma roundTrip_children (geometries : list (option Geometry)) :
  list_all (option Geometry)
    (option_all Geometry
       (fun g => valid g -> roundTrip g = Ok (Some (withoutBBox g)))) geometries ->
  valid (GGeometryCollection geometries) ->
  exists ds,
    mapM (fun c => match c with
                   | Some g' => Geometry_MarshalJSON g'
                   | None => Ok nullDocument
                   end) geometries = Ok ds /\
    mapM GeometryObject_UnmarshalJSON ds
    = Ok (map (option_map withoutBBox) geometries).
Proof.
  induction 1 as [|c Hc rest _ IH]; intros Hv.
  - exists []. split; reflexivity.
  - destruct Hc as [g Hg|]; cbn [valid] in Hv; [|contradiction].
    destruct Hv as [Hvg Hvrest].
    destruct (roundTrip_Ok_inv g _ (Hg Hvg)) as (d & Hm & Hu).
    destruct (IH Hvrest) as (ds & Hms & Hus).
    exists (d :: ds). cbn [mapM map option_map].
    rewrite Hm, Hms, Hu, Hus. split; reflexivity.
Qed.

Lemma roundTrip_valid (g : Geometry) :
  valid g -> roundTrip g = Ok (Some (withoutBBox g)).
Proof.
  induction g as [p|l|m|m|p|m|geometries IH].
  - apply roundTrip_Point.
  - apply roundTrip_LineString.
  - apply roundTrip_MultiPoint.
  - apply roundTrip_MultiLineString.
  - apply roundTrip_Polygon.
  - apply roundTrip_MultiPolygon.
  - intros Hv. destruct (roundTrip_children geometries IH Hv) as (ds & Hm & Hu).
    unfold roundTrip. cbn [Geometry_MarshalJSON]. rewrite Hm. cbn [bind].
    cbn [GeometryObject_UnmarshalJSON]. rewrite Hu. reflexivity.
Qed.

Lemma withoutBBox_idem (g : Geometry) : withoutBBox (withoutBBox g) = withoutBBox g.
Proof.
  induction g as [p|l|m|m|p|m|geometries IH]; try reflexivity.
  cbn [withoutBBox]. f_equal. rewrite map_map.
  induction IH as [|c Hc rest _ IHrest]; [reflexivity|].
  cbn [map]. rewrite IHrest. f_equal.
  destruct Hc as [g Hg|]; cbn [option_map]; [rewrite Hg|]; reflexivity.
Qed.

(** C2, as amended: for every geometry of any of the seven variants
    (nesting of collections included) that satisfies the invariants of the
    data model, the orientation of the rings among them (coordinates that
    [NewCoordinates] accepts and that are finite; two vertices per line
    string; one segment per multi-line string; one ring per polygon and per
    ring group, each closed with four vertices, the first counterclockwise
    and the others clockwise; children of collections present and valid),
    encoding succeeds and decoding the encoding through [GeometryObject]
    gives a geometry of the same variant with the same coordinates,
    two-element coordinates staying two-element and three-element ones
    three-element; the decoded geometry has its bounding-box toggles off, so
    it is the very geometry when these were off. *)
Theorem C2_decode_encode_roundtrip (g : Geometry) :
  valid g ->
  exists (d : document) (g' : Geometry),
    GeometryObject_MarshalJSON (Some g) = Ok d /\
    GeometryObject_UnmarshalJSON d = Ok (Some g') /\
    valueEqual g' g /\
    g' = withoutBBox g /\
    (withoutBBox g = g -> g' = g).
Proof.
  intros Hv. destruct (roundTrip_Ok_inv g _ (roundTrip_valid g Hv)) as (d & Hm & Hu).
  exists d, (withoutBBox g). cbn [GeometryObject_MarshalJSON].
  split; [exact Hm|]. split; [exact Hu|]. split; [|split].
  - unfold valueEqual. apply withoutBBox_idem.
  - reflexivity.
  - intros H. exact H.
Qed.

Lemma sampleCollection_valid : valid sampleCollection.
Proof.
  cbn [valid sampleCollection].
  repeat split; try discriminate; repeat constructor; try reflexivity.
Qed.

Lemma C2_witness :
  valid sampleCollection /\
  exists (d : document) (g' : Geometry),
    GeometryObject_MarshalJSON (Some sampleCollection) = Ok d /\
    GeometryObject_UnmarshalJSON d = Ok (Some g') /\
    valueEqual g' sampleCollection /\
    g' = withoutBBox sampleCollection /\
    (withoutBBox sampleCollection = sampleCollection -> g' = sampleCollection).
Proof.
  split; [exact sampleCollection_valid|].
  exact (C2_decode_encode_roundtrip sampleCollection sampleCollection_valid).
Defined.

(** C2 fails on the polygon that [NewPolygon] builds from the bowtie of
    the tests, a closed ring of five valid coordinates: its outer ring has
    zero signed area, so decoding reverses it once more, and the decoded
    polygon has the vertices of its ring in the opposite order. *)
Lemma C2_counterexample :
  mapM NewCoordinates bowtie = Ok bowtie /\
  NewPolygon [bowtie] = Ok (mkPolygon [rev bowtie] false) /\
  roundTrip bowtiePolygon = Ok (Some (GPolygon (mkPolygon [bowtie] false))) /\
  ~ valueEqual (GPolygon (mkPolygon [bowtie] false)) bowtiePolygon.
Proof.
  repeat split; try reflexivity.
  unfold valueEqual. intros H.
  apply (f_equal (fun g => secondLongitudeIs 4%float (firstRing g))) in H.
  vm_compute in H. discriminate H.
Qed.

Example roundTrip_sampleCollection :
  roundTrip sampleCollection = Ok (Some (withoutBBox sampleCollection)).
Proof. reflexivity. Qed.

(** * Further properties of the package *)

(** ** The order of float64 *)

Module F64Order.

Lemma lexCompare_Eq (a b : Z * Z * Z) : lexCompare a b = Eq <-> a = b.
Proof.
  destruct a as [[a1 a2] a3], b as [[b1 b2] b3]. unfold lexCompare.
  destruct (a1 ?= b1)%Z eqn:E1; [|split; [discriminate|]..].
  - apply Z.compare_eq in E1. subst b1.
    destruct (a2 ?= b2)%Z eqn:E2; [|split; [discriminate|]..].
    + apply Z.compare_eq in E2. subst b2. rewrite Z.compare_eq_iff.
      split; [intros ->; reflexivity | intros H; injection H; auto].
    + intros H. injection H as -> ->. rewrite Z.compare_refl in E2. discriminate.
    + intros H. injection H as -> ->. rewrite Z.compare_refl in E2. discriminate.
  - intros H. injection H as -> -> ->. rewrite Z.compare_refl in E1. discriminate.
  - intros H. injection H as -> -> ->. rewrite Z.compare_refl in E1. discriminate.
Qed.

(** [lexCompare] read as an order on triples. *)
Lemma lexCompare_le (a1 a2 a3 b1 b2 b3 : Z) :
  lexCompare (a1, a2, a3) (b1, b2, b3) <> Gt <->
  (a1 < b1 \/ (a1 = b1 /\ (a2 < b2 \/ (a2 = b2 /\ a3 <= b3))))%Z.
Proof.
  unfold lexCompare.
  destruct (Z.compare_spec a1 b1) as [E1|E1|E1];
    [destruct (Z.compare_spec a2 b2) as [E2|E2|E2];
       [destruct (Z.compare_spec a3 b3) as [E3|E3|E3]|..]|..];
    split; intros H; try congruence; try lia;
    try (intros Hc; discriminate Hc).
Qed.

Lemma lexCompare_lt (a1 a2 a3 b1 b2 b3 : Z) :
  lexCompare (a1, a2, a3) (b1, b2, b3) = Lt <->
  (a1 < b1 \/ (a1 = b1 /\ (a2 < b2 \/ (a2 = b2 /\ a3 < b3))))%Z.
Proof.
  unfold lexCompare.
  destruct (Z.compare_spec a1 b1) as [E1|E1|E1];
    [destruct (Z.compare_spec a2 b2) as [E2|E2|E2];
       [destruct (Z.compare_spec a3 b3) as [E3|E3|E3]|..]|..];
    split; intros H; try congruence; try lia.
Qed.

(** [SFcompare] is the comparison of the keys. *)
Lemma SFcompare_key (x y : spec_float) :
  x <> S754_nan -> y <> S754_nan ->
  SFcompare x y = Some (lexCompare (floatKey x) (floatKey y)).
Proof.
  intros Hx Hy.
  destruct x as [sx|sx| |sx mx ex], y as [sy|sy| |sy my ey]; try congruence;
    simpl; try (destruct sx; reflexivity); try (destruct sy; reflexivity);
    try (destruct sx, sy; reflexivity).
  destruct sx, sy; simpl; try reflexivity;
    try (rewrite Z.compare_opp, (Z.compare_antisym ex ey));
    destruct (ex ?= ey)%Z; reflexivity.
Qed.

Lemma leb_key (x y : float) :
  PrimFloat.leb x y = true <->
  PrimFloat.is_nan x = false /\ PrimFloat.is_nan y = false /\
  lexCompare (floatKey (Prim2SF x)) (floatKey (Prim2SF y)) <> Gt.
Proof.
  rewrite leb_spec. unfold SFleb.
  destruct (PrimFloat.is_nan x) eqn:Hx.
  - apply F64Facts.is_nan_spec in Hx. rewrite Hx. simpl.
    split; [discriminate | intros [H _]; discriminate].
  - destruct (PrimFloat.is_nan y) eqn:Hy.
    + apply F64Facts.is_nan_spec in Hy. rewrite Hy.
      destruct (Prim2SF x); simpl; split; try discriminate;
        intros (_ & H & _); discriminate.
    + apply F64Facts.is_nan_false in Hx, Hy.
      rewrite (SFcompare_key _ _ Hx Hy).
      destruct (lexCompare _ _);
        (split;
         [ intros H; try discriminate H; repeat split; auto; discriminate
         | intros (_ & _ & H); try reflexivity; try discriminate H; congruence ]).
Qed.

Lemma ltb_key (x y : float) :
  PrimFloat.ltb x y = true <->
  PrimFloat.is_nan x = false /\ PrimFloat.is_nan y = false /\
  lexCompare (floatKey (Prim2SF x)) (floatKey (Prim2SF y)) = Lt.
Proof.
  rewrite ltb_spec. unfold SFltb.
  destruct (PrimFloat.is_nan x) eqn:Hx.
  - apply F64Facts.is_nan_spec in Hx. rewrite Hx. simpl.
    split; [discriminate | intros [H _]; discriminate].
  - destruct (PrimFloat.is_nan y) eqn:Hy.
    + apply F64Facts.is_nan_spec in Hy. rewrite Hy.
      destruct (Prim2SF x); simpl; split; try discriminate;
        intros (_ & H & _); discriminate.
    + apply F64Facts.is_nan_false in Hx, Hy.
      rewrite (SFcompare_key _ _ Hx Hy).
      destruct (lexCompare _ _);
        (split;
         [ intros H; try discriminate H; repeat split; auto; discriminate
         | intros (_ & _ & H); try reflexivity; try discriminate H; congruence ]).
Qed.

Lemma eqb_key (x y : float) :
  PrimFloat.eqb x y = true <->
  PrimFloat.is_nan x = false /\ PrimFloat.is_nan y = false /\
  floatKey (Prim2SF x) = floatKey (Prim2SF y).
Proof.
  rewrite eqb_spec. unfold SFeqb. rewrite <- lexCompare_Eq.
  destruct (PrimFloat.is_nan x) eqn:Hx.
  - apply F64Facts.is_nan_spec in Hx. rewrite Hx. simpl.
    split; [discriminate | intros [H _]; discriminate].
  - destruct (PrimFloat.is_nan y) eqn:Hy.
    + apply F64Facts.is_nan_spec in Hy. rewrite Hy.
      destruct (Prim2SF x); simpl; split; try discriminate;
        intros (_ & H & _); discriminate.
    + apply F64Facts.is_nan_false in Hx, Hy.
      rewrite (SFcompare_key _ _ Hx Hy).
      destruct (lexCompare _ _);
        (split;
         [ intros H; try discriminate H; repeat split; auto; discriminate
         | intros (_ & _ & H); try reflexivity; try discriminate H; congruence ]).
Qed.

Lemma leb_refl (x : float) : PrimFloat.is_nan x = false -> PrimFloat.leb x x = true.
Proof.
  intros Hx. apply leb_key. repeat split; auto.
  rewrite (proj2 (lexCompare_Eq _ _) eq_refl). discriminate.
Qed.

Lemma leb_trans (x y z : float) :
  PrimFloat.leb x y = true -> PrimFloat.leb y z = true -> PrimFloat.leb x z = true.
Proof.
  rewrite !leb_key. intros (Hx & Hy & Hxy) (_ & Hz & Hyz). repeat split; auto.
  destruct (floatKey (Prim2SF x)) as [[a1 a2] a3],
           (floatKey (Prim2SF y)) as [[b1 b2] b3],
           (floatKey (Prim2SF z)) as [[c1 c2] c3].
  rewrite lexCompare_le in *. lia.
Qed.

Lemma ltb_leb (x y : float) : PrimFloat.ltb x y = true -> PrimFloat.leb x y = true.
Proof.
  rewrite ltb_key, leb_key. intros (Hx & Hy & H). repeat split; auto. congruence.
Qed.

(** On numbers, not [x < y] gives [y <= x]. *)
Lemma not_ltb_leb (x y : float) :
  PrimFloat.is_nan x = false -> PrimFloat.is_nan y = false ->
  PrimFloat.ltb x y = false -> PrimFloat.leb y x = true.
Proof.
  intros Hx Hy H. rewrite (F64Facts.ltb_negb_leb x y Hx Hy) in H.
  destruct (PrimFloat.leb y x); [reflexivity | discriminate].
Qed.

Lemma ltb_not_nan (x y : float) :
  PrimFloat.ltb x y = true -> PrimFloat.is_nan x = false /\ PrimFloat.is_nan y = false.
Proof. rewrite ltb_key. tauto. Qed.

(** [cmp.Compare] answers [Eq] exactly on equal keys. *)
Lemma cmp_Compare_Eq (x y : float) :
  F64.cmp_Compare x y = Eq <-> compareKey x = compareKey y.
Proof.
  unfold F64.cmp_Compare, compareKey, F64.gtb.
  destruct (PrimFloat.is_nan x) eqn:Hx, (PrimFloat.is_nan y) eqn:Hy;
    try (split; [reflexivity | reflexivity]);
    try (split; discriminate).
  destruct (PrimFloat.ltb x y) eqn:Hlt.
  - apply ltb_key in Hlt. destruct Hlt as (_ & _ & Hlt).
    split; [discriminate|]. intros H. injection H as H.
    apply lexCompare_Eq in H. congruence.
  - destruct (PrimFloat.ltb y x) eqn:Hgt.
    + apply ltb_key in Hgt. destruct Hgt as (_ & _ & Hgt).
      split; [discriminate|]. intros H. injection H as H. symmetry in H.
      apply lexCompare_Eq in H. congruence.
    + split; [intros _|reflexivity]. f_equal.
      apply (not_ltb_leb _ _ Hx Hy) in Hlt. apply (not_ltb_leb _ _ Hy Hx) in Hgt.
      apply leb_key in Hlt, Hgt.
      destruct Hlt as (_ & _ & Hlt), Hgt as (_ & _ & Hgt).
      destruct (floatKey (Prim2SF x)) as [[a1 a2] a3],
               (floatKey (Prim2SF y)) as [[b1 b2] b3].
      rewrite lexCompare_le in *.
      assert (a1 = b1 /\ a2 = b2 /\ a3 = b3) as (-> & -> & ->) by lia.
      reflexivity.
Qed.

Lemma compareKey_sameNumber (x y : float) :
  compareKey x = compareKey y <-> sameNumber x y.
Proof.
  unfold compareKey, sameNumber. rewrite eqb_key.
  destruct (PrimFloat.is_nan x), (PrimFloat.is_nan y); split.
  - intros _. right. split; reflexivity.
  - reflexivity.
  - discriminate.
  - intros [(H & _)|(_ & H)]; discriminate H.
  - discriminate.
  - intros [(_ & H & _)|(H & _)]; discriminate H.
  - intros H. injection H as H. left. auto.
  - intros [(_ & _ & H)|(H & _)]; [congruence | discriminate].
Qed.

Lemma slices_Compare_Eq (s1 s2 : list float) :
  F64.slices_Compare s1 s2 = Eq <-> map compareKey s1 = map compareKey s2.
Proof.
  revert s2. induction s1 as [|v1 t1 IH]; intros [|v2 t2]; simpl;
    try (split; [reflexivity | reflexivity]); try (split; discriminate).
  destruct (F64.cmp_Compare v1 v2) eqn:E.
  - apply cmp_Compare_Eq in E. rewrite IH. rewrite E.
    split; [intros ->; reflexivity | intros H; injection H; auto].
  - split; [discriminate|]. intros H. injection H as H _.
    apply cmp_Compare_Eq in H. congruence.
  - split; [discriminate|]. intros H. injection H as H _.
    apply cmp_Compare_Eq in H. congruence.
Qed.

End F64Order.

(** ** Equality of coordinates *)

Lemma IsEqual_key (c v : Coordinates) :
  IsEqual c v = true <-> map compareKey c = map compareKey v.
Proof.
  unfold IsEqual. rewrite <- F64Order.slices_Compare_Eq.
  destruct (F64.slices_Compare c v); split; congruence.
Qed.

Lemma IsEqual_sym (c v : Coordinates) : IsEqual c v = IsEqual v c.
Proof.
  destruct (IsEqual c v) eqn:E1, (IsEqual v c) eqn:E2; try reflexivity.
  - apply IsEqual_key in E1. symmetry in E1. apply IsEqual_key in E1. congruence.
  - apply IsEqual_key in E2. symmetry in E2. apply IsEqual_key in E2. congruence.
Qed.

Lemma map_compareKey_Forall2 (c v : list float) :
  map compareKey c = map compareKey v <-> Forall2 sameNumber c v.
Proof.
  revert v. induction c as [|x c IH]; intros [|y v]; simpl.
  - split; [constructor | reflexivity].
  - split; [discriminate | intros H; inversion H].
  - split; [discriminate | intros H; inversion H].
  - split.
    + intros H. injection H as Hx Hc. constructor.
      * apply F64Order.compareKey_sameNumber. exact Hx.
      * apply IH. exact Hc.
    + intros H. inversion H as [|? ? ? ? Hx Hc]; subst. f_equal.
      * apply F64Order.compareKey_sameNumber. exact Hx.
      * apply IH. exact Hc.
Qed.

(** X1: [IsEqual] is an equivalence relation on coordinates, reflexive also
    on coordinates that hold NaN; it holds exactly when the two slices have
    the same length and hold, position by position, numbers that are [==]
    or both NaN. *)
Theorem X1_IsEqual_equivalence :
  (forall c : Coordinates, IsEqual c c = true) /\
  (forall c v : Coordinates, IsEqual c v = IsEqual v c) /\
  (forall a b c : Coordinates,
     IsEqual a b = true -> IsEqual b c = true -> IsEqual a c = true) /\
  (forall c v : Coordinates, IsEqual c v = true <-> Forall2 sameNumber c v).
Proof.
  split; [|split; [|split]].
  - intros c. apply (proj2 (IsEqual_key c c)). reflexivity.
  - apply IsEqual_sym.
  - intros a b c Hab Hbc. apply IsEqual_key in Hab, Hbc.
    apply (proj2 (IsEqual_key a c)). congruence.
  - intros c v. rewrite IsEqual_key. apply map_compareKey_Forall2.
Qed.

(** ** Validity of rings under reversal *)

Lemma hd_rev {A : Type} (l : list A) (d : A) : hd d (rev l) = last l d.
Proof.
  induction l as [|a l IH]; [reflexivity|].
  simpl rev. destruct l as [|b l'].
  - reflexivity.
  - change (last (a :: b :: l') d) with (last (b :: l') d). rewrite <- IH.
    destruct (rev (b :: l')) as [|x r] eqn:E; [|reflexivity].
    apply (f_equal (@List.length A)) in E. rewrite length_rev in E. discriminate.
Qed.

Lemma last_rev {A : Type} (l : list A) (d : A) : last (rev l) d = hd d l.
Proof.
  rewrite <- (rev_involutive l) at 2. rewrite hd_rev. reflexivity.
Qed.

Lemma last_default {A : Type} (l : list A) (d1 d2 : A) :
  l <> [] -> last l d1 = last l d2.
Proof.
  induction l as [|a l IH]; intros Hl; [congruence|].
  destruct l as [|b l']; [reflexivity|].
  change (last (b :: l') d1 = last (b :: l') d2). apply IH. discriminate.
Qed.

Lemma IsClosed_hd_last (lr : LinearRing) :
  IsClosed lr = match lr with
                | [] => false
                | _ :: _ => IsEqual (hd [] lr) (last lr [])
                end.
Proof.
  destruct lr as [|first rest]; [reflexivity|]. unfold IsClosed. cbn [hd].
  f_equal. apply last_default. discriminate.
Qed.

Lemma IsClosed_rev (lr : LinearRing) : IsClosed (rev lr) = IsClosed lr.
Proof.
  rewrite !IsClosed_hd_last.
  destruct lr as [|a t]; [reflexivity|].
  destruct (rev (a :: t)) as [|x r] eqn:E.
  - apply (f_equal (@List.length Coordinates)) in E. rewrite length_rev in E.
    discriminate.
  - rewrite <- E. rewrite hd_rev, last_rev. apply IsEqual_sym.
Qed.

Lemma HasValidSize_rev (lr : LinearRing) : HasValidSize (rev lr) = HasValidSize lr.
Proof. unfold HasValidSize. rewrite length_rev. reflexivity. Qed.

Lemma IsValid_rev (lr : LinearRing) : IsValid (rev lr) = IsValid lr.
Proof. unfold IsValid. rewrite HasValidSize_rev, IsClosed_rev. reflexivity. Qed.

Lemma EnsureOrientation_Ok_inv (lr lr' : LinearRing) (flag : bool) :
  EnsureOrientation lr flag = Ok lr' -> lr' = lr \/ lr' = rev lr.
Proof.
  intros H.
  destruct (EnsureOrientation_cases lr flag)
    as [(_ & E)|[(_ & E)|[(_ & E)|(e & _ & E)]]]; rewrite E in H;
    try discriminate H; injection H as <-; auto.
Qed.

(** X2: a call of [EnsureOrientation] that returns leaves the ring or its
    reversal, so the ring keeps its length, and [HasValidSize], [IsClosed]
    and [IsValid] answer after the call what they answered before. *)
Theorem X2_EnsureOrientation_keeps_validity (lr lr' : LinearRing) (flag : bool) :
  EnsureOrientation lr flag = Ok lr' ->
  (lr' = lr \/ lr' = rev lr) /\
  List.length lr' = List.length lr /\
  HasValidSize lr' = HasValidSize lr /\
  IsClosed lr' = IsClosed lr /\
  IsValid lr' = IsValid lr.
Proof.
  intros H. pose proof (EnsureOrientation_Ok_inv _ _ _ H) as Hc.
  split; [exact Hc|].
  destruct Hc as [-> | ->].
  - repeat split; reflexivity.
  - rewrite length_rev, HasValidSize_rev, IsClosed_rev, IsValid_rev.
    repeat split; reflexivity.
Qed.

Lemma X2_witness :
  EnsureOrientation square_cw true = Ok square_ccw /\
  IsValid square_ccw = IsValid square_cw.
Proof.
  split; [reflexivity|].
  apply (X2_EnsureOrientation_keeps_validity square_cw square_ccw true).
  reflexivity.
Defined.

(** ** NewLinearRing *)

Lemma NewLinearRing_no_Panic (vertices : Vertices) : NewLinearRing vertices <> Panic.
Proof.
  unfold NewLinearRing.
  destruct (negb (HasValidSize vertices)); [discriminate|].
  destruct (negb (IsClosed vertices)); discriminate.
Qed.

(** X3: [NewLinearRing] never panics; it succeeds exactly on the vertex
    lists for which [IsValid] holds and returns them unchanged; it reports
    the size error whenever there are fewer than four vertices, also on a
    ring that is not closed, and the closure error only on a ring of valid
    size. *)
Theorem X3_NewLinearRing_iff_IsValid (vertices : Vertices) :
  (forall lr, NewLinearRing vertices = Ok lr <-> IsValid vertices = true /\ lr = vertices) /\
  (NewLinearRing vertices = Err ErrLinearRingSize <-> HasValidSize vertices = false) /\
  (NewLinearRing vertices = Err ErrLinearRingClosed <->
   HasValidSize vertices = true /\ IsClosed vertices = false) /\
  NewLinearRing vertices <> Panic.
Proof.
  unfold NewLinearRing, IsValid.
  destruct (HasValidSize vertices), (IsClosed vertices); simpl;
    (split; [intros lr; split; [intros H | intros [H ->]]
            |split; [split; intros H|split; [split; [intros H|intros [H H']]|]]]);
    try discriminate; try reflexivity; try (split; reflexivity).
  all: injection H as <-; split; reflexivity.
Qed.

(** ** The rings of polygons *)

Lemma ensureOrientation_reoriented (rings rings' : LinearRings) :
  ensureOrientation rings = Ok rings' -> Forall2 reoriented rings rings'.
Proof.
  destruct rings as [|outer inner]; cbn [ensureOrientation].
  - intros H. injection H as <-. constructor.
  - destruct (EnsureOrientation outer true) as [outer'| |] eqn:Eo; try discriminate.
    cbn [bind].
    destruct (mapM (fun r => EnsureOrientation r false) inner) as [inner'| |] eqn:Ei;
      try discriminate.
    cbn [bind]. intros H. injection H as <-. constructor.
    + exact (EnsureOrientation_Ok_inv _ _ _ Eo).
    + apply mapM_Forall2 in Ei.
      induction Ei as [|r r' t t' Hr _ IH]; constructor; [|exact IH].
      exact (EnsureOrientation_Ok_inv _ _ _ Hr).
Qed.


Lemma checkRings_allValid (rings : LinearRings) :
  checkRings rings = None <-> allValid rings.
Proof.
  rewrite checkRings_None. unfold allValid, IsValid.
  split; intros H; (eapply Forall_impl; [|exact H]); cbv beta; intros r.
  - intros [-> ->]. reflexivity.
  - intros Hr. apply andb_prop in Hr. exact Hr.
Qed.


Lemma buildRing_valid (r : value) (lr : LinearRing) :
  buildRing r = Ok lr -> IsValid lr = true.
Proof.
  unfold buildRing. destruct r as [ |b|f|z|s|rawRing|m]; try discriminate.
  destruct (mapM buildCoordinates rawRing) as [ring| |]; try discriminate.
  cbn [bind]. unfold NewLinearRing, IsValid.
  destruct (HasValidSize ring) eqn:Es; [|discriminate]. cbn [negb].
  destruct (IsClosed ring) eqn:Ec; [|discriminate]. cbn [negb].
  intros H. injection H as <-. rewrite Es, Ec. reflexivity.
Qed.






(** Rings that overlap in one array are outside X4: both rings pass the
    checks and the call returns, but reversing the second ring in place
    rewrites the first, which is then neither the ring given nor its
    reversal, and is not closed. *)
Example NewPolygon_overlapping_rings :
  allValid (loadAll overlapStore [overlapFirst; overlapSecond]) /\
  match InPlace.NewPolygon overlapStore [overlapFirst; overlapSecond] with
  | Ok st' =>
      InPlace.load st' overlapFirst
        = [pt 0 0; pt 2 0; pt 0 0; pt 0 2; pt 2 2]%float /\
      IsClosed (InPlace.load st' overlapFirst) = false
  | _ => False
  end.
Proof. split; [repeat constructor | split; reflexivity]. Qed.

(** ** The bounding box on arbitrary vertices *)

Lemma bbox_step_ge2 (b : bounds) (v : Coordinates) :
  2 <= List.length v -> bbox_step b v = Ok (stepSpec b v).
Proof.
  intros H. destruct v as [|x [|y [|z [|w v]]]]; simpl in H; try lia; reflexivity.
Qed.

Lemma bbox_step_short (b : bounds) (v : Coordinates) :
  shortVertex v -> bbox_step b v = Panic.
Proof.
  unfold shortVertex. intros H.
  destruct v as [|x [|y v]]; simpl in H; try lia; reflexivity.
Qed.

Lemma bbox_loop1_ge2 (vs : Vertices) :
  Forall (fun v => 2 <= List.length v) vs ->
  forall b, bbox_loop1 b vs = Ok (fold_left stepSpec vs b).
Proof.
  induction 1 as [|v rest Hv _ IH]; intros b; [reflexivity|].
  cbn [bbox_loop1 fold_left]. rewrite (bbox_step_ge2 b v Hv). cbn [bind]. apply IH.
Qed.

Lemma bbox_loop1_short (vs : Vertices) :
  Exists shortVertex vs -> forall b, bbox_loop1 b vs = Panic.
Proof.
  induction vs as [|v rest IH]; intros H b; [inversion H|].
  cbn [bbox_loop1].
  destruct (Nat.lt_ge_cases (List.length v) 2) as [Hs|Hl].
  - rewrite (bbox_step_short b v Hs). reflexivity.
  - rewrite (bbox_step_ge2 b v Hl). cbn [bind]. apply IH.
    inversion H as [? ? Hv|? ? Hr]; subst; [|exact Hr].
    unfold shortVertex in Hv. lia.
Qed.

Lemma short_or_not (vs : Vertices) :
  Exists shortVertex vs \/ Forall (fun v => 2 <= List.length v) vs.
Proof.
  induction vs as [|v rest [IH|IH]].
  - right. constructor.
  - left. apply Exists_cons_tl, IH.
  - destruct (Nat.lt_ge_cases (List.length v) 2) as [Hs|Hl].
    + left. apply Exists_cons_hd, Hs.
    + right. constructor; assumption.
Qed.

Lemma count3D_fold (vs : Vertices) :
  count3D (fold_left stepSpec vs bounds_init) = List.length (filter HasAltitude vs).
Proof.
  destruct (fold_stepSpec_fields vs bounds_init) as (_ & _ & _ & _ & _ & _ & H).
  rewrite H. unfold altitudes. rewrite length_map. reflexivity.
Qed.

Lemma filter_length_existsb {A : Type} (f : A -> bool) (l : list A) :
  (0 <? List.length (filter f l))%nat = existsb f l.
Proof.
  induction l as [|x l IH]; [reflexivity|]. cbn [filter existsb].
  destruct (f x); [reflexivity | exact IH].
Qed.

(** [bbox] on vertices of two or more elements. *)
Lemma bbox_finalBounds (vs : Vertices) :
  Forall (fun v => 2 <= List.length v) vs ->
  bbox vs =
    Ok (match vs with
        | [] => []
        | _ :: _ => if existsb HasAltitude vs then box3D (finalBounds vs)
                    else box2D (finalBounds vs)
        end).
Proof.
  intros Hvs. destruct vs as [|v0 rest]; [reflexivity|].
  unfold bbox. change (List.length (v0 :: rest) =? 0)%nat with false. cbv iota.
  rewrite (bbox_loop1_ge2 _ Hvs). cbn [bind].
  set (vs := v0 :: rest) in *.
  pose proof (count3D_fold vs) as Hc.
  set (b := fold_left stepSpec vs bounds_init) in *.
  destruct (fold_widen_spec vs b) as [_ Hw]. rewrite Hw.
  rewrite Hc, filter_length_forallb.
  unfold finalBounds. fold b.
  destruct (forallb HasAltitude vs) eqn:Efa; cbn [negb].
  - rewrite Hc, filter_length_existsb.
    destruct (existsb HasAltitude vs); reflexivity.
  - unfold widenOnce at 1. cbn [count3D]. rewrite Hc, filter_length_existsb.
    destruct (existsb HasAltitude vs); reflexivity.
Qed.

Lemma bbox_short (vs : Vertices) : Exists shortVertex vs -> bbox vs = Panic.
Proof.
  intros H. destruct vs as [|v0 rest]; [inversion H|].
  unfold bbox. change (List.length (v0 :: rest) =? 0)%nat with false. cbv iota.
  rewrite (bbox_loop1_short _ H). reflexivity.
Qed.

(** X5: [bbox] panics exactly when some vertex has fewer than two elements;
    it never returns an error; and a box it returns passes [IsValid]: it is
    the empty box exactly on no vertex, a 3D box exactly when some vertex
    has an altitude (three elements), and a 2D box otherwise. *)
Theorem X5_bbox_shape (vs : Vertices) :
  (bbox vs = Panic <-> Exists shortVertex vs) /\
  (forall e, bbox vs <> Err e) /\
  (forall b, bbox vs = Ok b ->
     BoundingBox_IsValid b = true /\
     IsZero b = (List.length vs =? 0)%nat /\
     Is3D b = existsb HasAltitude vs /\
     Is2D b = negb (List.length vs =? 0)%nat && negb (existsb HasAltitude vs)).
Proof.
  pose proof (bbox_short vs) as Hshort.
  destruct (short_or_not vs) as [H|H].
  - rewrite (Hshort H). repeat split; try discriminate. intros _. exact H.
  - rewrite (bbox_finalBounds vs H). split; [|split].
    + split; [discriminate|]. intros Hs. apply Hshort in Hs.
      rewrite (bbox_finalBounds vs H) in Hs. discriminate.
    + discriminate.
    + intros b Hb. injection Hb as <-.
      destruct vs as [|v0 rest]; [repeat split|].
      destruct (existsb HasAltitude (v0 :: rest)); repeat split.
Qed.

Lemma X5_witness :
  bbox threeVertices = Ok [(-3); 0; 0; 200; 95; 7]%float /\
  Is3D [(-3); 0; 0; 200; 95; 7]%float = existsb HasAltitude threeVertices.
Proof.
  split; [reflexivity|].
  apply (proj2 (proj2 (X5_bbox_shape threeVertices))
           [(-3); 0; 0; 200; 95; 7]%float eq_refl).
Defined.

(** ** The box contains the vertices *)

Lemma fmin_bound (m a : float) :
  PrimFloat.is_nan m = false ->
  PrimFloat.is_nan (fmin m a) = false /\
  PrimFloat.leb (fmin m a) m = true /\
  (PrimFloat.is_nan a = false -> PrimFloat.leb (fmin m a) a = true).
Proof.
  intros Hm. unfold fmin. destruct (PrimFloat.ltb a m) eqn:E.
  - destruct (F64Order.ltb_not_nan _ _ E) as [Ha _].
    repeat split; [exact Ha | exact (F64Order.ltb_leb _ _ E) |].
    intros _. exact (F64Order.leb_refl a Ha).
  - repeat split; [exact Hm | exact (F64Order.leb_refl m Hm) |].
    intros Ha. exact (F64Order.not_ltb_leb a m Ha Hm E).
Qed.

Lemma fmax_bound (m a : float) :
  PrimFloat.is_nan m = false ->
  PrimFloat.is_nan (fmax m a) = false /\
  PrimFloat.leb m (fmax m a) = true /\
  (PrimFloat.is_nan a = false -> PrimFloat.leb a (fmax m a) = true).
Proof.
  intros Hm. unfold fmax. destruct (PrimFloat.ltb m a) eqn:E.
  - destruct (F64Order.ltb_not_nan _ _ E) as [_ Ha].
    repeat split; [exact Ha | exact (F64Order.ltb_leb _ _ E) |].
    intros _. exact (F64Order.leb_refl a Ha).
  - repeat split; [exact Hm | exact (F64Order.leb_refl m Hm) |].
    intros Ha. exact (F64Order.not_ltb_leb m a Hm Ha E).
Qed.

(** The running minimum is a number below its start and below every number
    met. *)
Lemma fold_fmin_bound (l : list float) :
  forall m, PrimFloat.is_nan m = false ->
    PrimFloat.is_nan (fold_left fmin l m) = false /\
    PrimFloat.leb (fold_left fmin l m) m = true /\
    (forall x, In x l -> PrimFloat.is_nan x = false ->
               PrimFloat.leb (fold_left fmin l m) x = true).
Proof.
  induction l as [|a l IH]; intros m Hm; cbn [fold_left].
  - repeat split; [exact Hm | exact (F64Order.leb_refl m Hm) |]. intros x [].
  - destruct (fmin_bound m a Hm) as (Hn & Hle & Ha).
    destruct (IH (fmin m a) Hn) as (Hn' & Hle' & Hin).
    repeat split; [exact Hn' | exact (F64Order.leb_trans _ _ _ Hle' Hle) |].
    intros x [<- | Hx] Hnx.
    + exact (F64Order.leb_trans _ _ _ Hle' (Ha Hnx)).
    + exact (Hin x Hx Hnx).
Qed.

Lemma fold_fmax_bound (l : list float) :
  forall m, PrimFloat.is_nan m = false ->
    PrimFloat.is_nan (fold_left fmax l m) = false /\
    PrimFloat.leb m (fold_left fmax l m) = true /\
    (forall x, In x l -> PrimFloat.is_nan x = false ->
               PrimFloat.leb x (fold_left fmax l m) = true).
Proof.
  induction l as [|a l IH]; intros m Hm; cbn [fold_left].
  - repeat split; [exact Hm | exact (F64Order.leb_refl m Hm) |]. intros x [].
  - destruct (fmax_bound m a Hm) as (Hn & Hle & Ha).
    destruct (IH (fmax m a) Hn) as (Hn' & Hle' & Hin).
    repeat split; [exact Hn' | exact (F64Order.leb_trans _ _ _ Hle Hle') |].
    intros x [<- | Hx] Hnx.
    + exact (F64Order.leb_trans _ _ _ (Ha Hnx) Hle').
    + exact (Hin x Hx Hnx).
Qed.

Lemma within_fold (l : list float) (lo hi x : float) :
  PrimFloat.is_nan lo = false -> PrimFloat.is_nan hi = false ->
  In x l -> PrimFloat.is_nan x = false ->
  within (fold_left fmin l lo) x (fold_left fmax l hi).
Proof.
  intros Hlo Hhi Hin Hx. split.
  - exact (proj2 (proj2 (fold_fmin_bound l lo Hlo)) x Hin Hx).
  - exact (proj2 (proj2 (fold_fmax_bound l hi Hhi)) x Hin Hx).
Qed.

Lemma In_altitudes (vs : Vertices) (v : Coordinates) :
  In v vs -> HasAltitude v = true -> In (altOf v) (altitudes vs).
Proof.
  intros Hin Ha. unfold altitudes. apply in_map. apply filter_In. auto.
Qed.

(** The altitude range of the variables of [bbox] when it returns. *)
Lemma finalBounds_altitude (vs : Vertices) (v : Coordinates) :
  In v vs -> (HasAltitude v = true -> PrimFloat.is_nan (altOf v) = false) ->
  within (minAlt (finalBounds vs))
         (if HasAltitude v then altOf v else 0%float)
         (maxAlt (finalBounds vs)).
Proof.
  intros Hin Hnum. unfold finalBounds.
  destruct (fold_stepSpec_fields vs bounds_init) as (_ & _ & _ & _ & H5 & H6 & _).
  cbn zeta in H5, H6.
  set (b := fold_left stepSpec vs bounds_init) in *.
  assert (Hmin0 : PrimFloat.is_nan (minAlt bounds_init) = false) by reflexivity.
  assert (Hmax0 : PrimFloat.is_nan (maxAlt bounds_init) = false) by reflexivity.
  destruct (fold_fmin_bound (altitudes vs) _ Hmin0) as (Hnmin & _ & Hmin).
  destruct (fold_fmax_bound (altitudes vs) _ Hmax0) as (Hnmax & _ & Hmax).
  rewrite <- H5 in Hnmin, Hmin. rewrite <- H6 in Hnmax, Hmax.
  destruct (fmin_bound (minAlt b) 0%float Hnmin) as (_ & Hwmin & Hwmin0).
  destruct (fmax_bound (maxAlt b) 0%float Hnmax) as (_ & Hwmax & Hwmax0).
  destruct (HasAltitude v) eqn:Ha.
  - pose proof (In_altitudes vs v Hin Ha) as Hia. specialize (Hnum eq_refl).
    destruct (forallb HasAltitude vs).
    + split; [exact (Hmin _ Hia Hnum) | exact (Hmax _ Hia Hnum)].
    + unfold widenOnce. cbn [minAlt maxAlt]. split.
      * exact (F64Order.leb_trans _ _ _ Hwmin (Hmin _ Hia Hnum)).
      * exact (F64Order.leb_trans _ _ _ (Hmax _ Hia Hnum) Hwmax).
  - assert (Hfa : forallb HasAltitude vs = false).
    { destruct (forallb HasAltitude vs) eqn:Efa; [|reflexivity].
      rewrite forallb_forall in Efa. rewrite (Efa v Hin) in Ha. discriminate. }
    rewrite Hfa. unfold widenOnce. cbn [minAlt maxAlt].
    split; [exact (Hwmin0 eq_refl) | exact (Hwmax0 eq_refl)].
Qed.

Lemma finalBounds_plane (vs : Vertices) (v : Coordinates) :
  In v vs ->
  PrimFloat.is_nan (lngOf v) = false -> PrimFloat.is_nan (latOf v) = false ->
  within (minLng (finalBounds vs)) (lngOf v) (maxLng (finalBounds vs)) /\
  within (minLat (finalBounds vs)) (latOf v) (maxLat (finalBounds vs)).
Proof.
  intros Hin Hlng Hlat.
  destruct (fold_stepSpec_fields vs bounds_init) as (H1 & H2 & H3 & H4 & _).
  cbn zeta in H1, H2, H3, H4.
  assert (E : forall b : bounds,
            let b' := if forallb HasAltitude vs then b else widenOnce b in
            minLng b' = minLng b /\ minLat b' = minLat b /\
            maxLng b' = maxLng b /\ maxLat b' = maxLat b)
    by (intros b; destruct (forallb HasAltitude vs); repeat split).
  unfold finalBounds.
  destruct (E (fold_left stepSpec vs bounds_init)) as (-> & -> & -> & ->).
  rewrite H1, H2, H3, H4. split.
  - apply within_fold; try reflexivity; [apply in_map; exact Hin | exact Hlng].
  - apply within_fold; try reflexivity; [apply in_map; exact Hin | exact Hlat].
Qed.

(** X6: a box that [bbox] returns contains every vertex whose coordinates
    are numbers: the longitude and the latitude of the vertex lie between
    the bounds of the box, and, in a 3D box, so does its altitude, a vertex
    without altitude counting as at altitude 0. This holds for coordinates
    outside the ranges of longitude and latitude as well. *)
Theorem X6_bbox_contains (vs : Vertices) (b : BoundingBox) (v : Coordinates) :
  bbox vs = Ok b -> In v vs -> numericVertex v -> contains b v.
Proof.
  intros Hb Hin (Hlng & Hlat & Halt).
  destruct (short_or_not vs) as [Hs|Hl].
  - apply bbox_short in Hs. congruence.
  - rewrite (bbox_finalBounds vs Hl) in Hb.
    destruct (finalBounds_plane _ v Hin Hlng Hlat) as [H1 H2].
    pose proof (finalBounds_altitude _ v Hin Halt) as H3.
    destruct vs as [|v0 rest] eqn:E; [inversion Hin|]. rewrite <- E in *.
    destruct (existsb HasAltitude vs); injection Hb as <-;
      unfold box2D, box3D, contains.
    + split; [exact H1|]. split; [exact H2 | exact H3].
    + split; [exact H1 | exact H2].
Qed.

Lemma X6_witness :
  bbox threeVertices = Ok [(-3); 0; 0; 200; 95; 7]%float /\
  contains [(-3); 0; 0; 200; 95; 7]%float (pt 200 0)%float.
Proof.
  split; [reflexivity|].
  apply (X6_bbox_contains threeVertices).
  - reflexivity.
  - left. reflexivity.
  - repeat split.
Defined.

(** ** Coordinates and points *)

(** X7: [Coordinates.UnmarshalJSON], once the bytes are read into a slice,
    makes the checks of [NewCoordinates] in the same order: on every slice
    the two return the same coordinates or the same error. *)
Theorem X7_Coordinates_UnmarshalJSON_as_NewCoordinates (v : list float) :
  Coordinates_UnmarshalJSON v = NewCoordinates v.
Proof.
  unfold Coordinates_UnmarshalJSON, NewCoordinates.
  destruct v as [|lng [|lat [|alt [|d v]]]]; try reflexivity;
    cbn [List.length Nat.eqb coordsMinLen coordsMaxLen negb andb index
         idxCoordsLng idxCoordsLat idxCoordsAlt nth_error bind];
    destruct (validateCoordinates lng lat); reflexivity.
Qed.

Lemma validateCoordinates_None (lng lat : float) :
  validateCoordinates lng lat = None ->
  PrimFloat.ltb lng LongitudeMin = false /\ F64.gtb lng LongitudeMax = false /\
  PrimFloat.ltb lat LatitudeMin = false /\ F64.gtb lat LatitudeMax = false.
Proof.
  unfold validateCoordinates.
  destruct (PrimFloat.ltb lng LongitudeMin); [discriminate|].
  destruct (F64.gtb lng LongitudeMax); [discriminate|].
  destruct (PrimFloat.ltb lat LatitudeMin); [discriminate|].
  destruct (F64.gtb lat LatitudeMax); [discriminate|].
  auto.
Qed.

(** X8: on a point that [NewPoint] returns, [Coordinates] gives back the
    input, [Longitude] and [Latitude] return numbers that are neither below
    the lower limit nor above the upper limit of their range, [HasAltitude]
    holds exactly when the input had three elements, and [Altitude] returns
    the third element when [HasAltitude] holds and panics when it does
    not. *)
Theorem X8_point_accessors (v : list float) (p : Point) :
  NewPoint v = Ok p ->
  Point_Coordinates p = v /\
  (exists lng lat,
     Point_Longitude p = Ok lng /\ Point_Latitude p = Ok lat /\
     PrimFloat.ltb lng LongitudeMin = false /\ F64.gtb lng LongitudeMax = false /\
     PrimFloat.ltb lat LatitudeMin = false /\ F64.gtb lat LatitudeMax = false) /\
  Point_HasAltitude p = (List.length v =? 3)%nat /\
  (Point_HasAltitude p = true -> Point_Altitude p = Ok (nth 2 v 0%float)) /\
  (Point_HasAltitude p = false -> Point_Altitude p = Panic).
Proof.
  unfold NewPoint. destruct (NewCoordinates v) as [c| |] eqn:E; try discriminate.
  cbn [bind]. intros H. injection H as <-.
  destruct (NewCoordinates_Ok_inv v c E) as (-> & lng & lat & rest & -> & Hlen & Hv).
  unfold Point_Coordinates, Point_Longitude, Point_Latitude, Point_HasAltitude,
    Point_Altitude. cbn [pt_coords].
  split; [reflexivity|]. split.
  - exists lng, lat. split; [reflexivity|]. split; [reflexivity|].
    exact (validateCoordinates_None lng lat Hv).
  - destruct rest as [|alt [|d rest]]; simpl in Hlen; try lia.
    + repeat split; try reflexivity. discriminate.
    + repeat split; try reflexivity. discriminate.
Qed.

Lemma X8_witness :
  NewPoint [1; 2; 3]%float = Ok (mkPoint [1; 2; 3]%float false) /\
  Point_HasAltitude (mkPoint [1; 2; 3]%float false) = true.
Proof.
  split; [reflexivity|].
  exact (proj1 (proj2 (proj2
           (X8_point_accessors [1; 2; 3]%float (mkPoint [1; 2; 3]%float false)
              eq_refl)))).
Defined.

(** ** What decoding guarantees *)

Lemma NewCoordinates_no_Panic (v : list float) : NewCoordinates v <> Panic.
Proof.
  pose proof (NewCoordinates_cases v) as H.
  destruct v as [|lng [|lat [|alt [|d v]]]]; cbv beta iota in H;
    try (rewrite H; discriminate);
    destruct (negb (passesRange LongitudeMin LongitudeMax lng));
    try (rewrite H; discriminate);
    destruct (negb (passesRange LatitudeMin LatitudeMax lat));
    rewrite H; discriminate.
Qed.

Lemma NewCoordinates_accepted (v : list float) (c : Coordinates) :
  NewCoordinates v = Ok c -> accepted c.
Proof.
  intros H. destruct (NewCoordinates_Ok_inv v c H) as [-> _]. exact H.
Qed.

Lemma accepted_length (c : Coordinates) : accepted c -> 2 <= List.length c.
Proof.
  intros H. destruct (NewCoordinates_Ok_inv c c H) as (_ & lng & lat & rest & -> & _).
  simpl. lia.
Qed.

Lemma mapM_no_Panic {A B : Type} (f : A -> result B) (l : list A) :
  (forall x, f x <> Panic) -> mapM f l <> Panic.
Proof.
  intros Hf. induction l as [|x t IH]; cbn [mapM]; [discriminate|].
  destruct (f x) as [y|e|] eqn:Ex; cbn [bind];
    [|discriminate|exact (fun _ => Hf x Ex)].
  destruct (mapM f t) as [ys|e|]; cbn [bind]; [discriminate|discriminate|exact IH].
Qed.

Lemma buildCoordinates_sound (v : value) :
  buildCoordinates v <> Panic /\
  (forall c, buildCoordinates v = Ok c -> accepted c).
Proof.
  unfold buildCoordinates. destruct v as [ |b|f|z|s|rawSlice|m];
    try (split; [discriminate | intros c H; discriminate H]).
  destruct (negb (List.length rawSlice =? coordsMinLen)%nat &&
            negb (List.length rawSlice =? coordsMaxLen)%nat);
    [split; [discriminate | intros c H; discriminate H]|].
  destruct (mapM toFloat64 rawSlice) as [slice|e|] eqn:E; cbn [bind].
  - split; [apply NewCoordinates_no_Panic | apply NewCoordinates_accepted].
  - split; [discriminate | intros c H; discriminate H].
  - exfalso. revert E. apply mapM_no_Panic.
    intros x. destruct x; discriminate.
Qed.

Lemma buildVertex_sound (s : value) :
  buildVertex s <> Panic /\ (forall c, buildVertex s = Ok c -> accepted c).
Proof.
  unfold buildVertex, Point_buildCoordinates.
  destruct s as [ |b|f|z|s|rawSlice|m];
    try (split; [discriminate | intros c H; discriminate H]).
  destruct (buildCoordinates_sound (VSlice rawSlice)) as [Hp Hs].
  destruct (buildCoordinates (VSlice rawSlice)) as [c|e|]; cbn [bind pt_coords].
  - split; [discriminate|]. intros c' H. injection H as <-. apply Hs. reflexivity.
  - split; [discriminate | intros c' H; discriminate H].
  - congruence.
Qed.

(** A loop of a builder over the raw slice: no panic, and every element
    built has what the builder of one element guarantees. *)
Lemma mapM_sound {A B : Type} (f : A -> result B) (Q : B -> Prop) (l : list A) :
  (forall x, f x <> Panic /\ forall y, f x = Ok y -> Q y) ->
  mapM f l <> Panic /\
  forall l', mapM f l = Ok l' -> Forall Q l' /\ List.length l' = List.length l.
Proof.
  intros Hf. split.
  - apply mapM_no_Panic. intros x. apply Hf.
  - intros l' H. split; [|exact (mapM_length f l l' H)].
    apply (mapM_Forall_result f Q l); [|exact H].
    intros x y. apply Hf.
Qed.

Lemma LineString_buildCoordinates_sound (l : LineString) (v : value) :
  LineString_buildCoordinates l v <> Panic /\
  (forall l', LineString_buildCoordinates l v = Ok l' -> soundSegment (ls_vertices l')).
Proof.
  unfold LineString_buildCoordinates.
  destruct v as [ |b|f|z|s|rawSlice|m];
    try (split; [discriminate | intros c H; discriminate H]).
  destruct (List.length rawSlice <? LineStringMinimumSize)%nat eqn:El;
    [split; [discriminate | intros c H; discriminate H]|].
  destruct (mapM_sound buildVertex accepted rawSlice buildVertex_sound) as [Hp Hs].
  destruct (mapM buildVertex rawSlice) as [vertices|e|]; cbn [bind ls_vertices].
  - split; [discriminate|]. intros l' H. injection H as <-. cbn [ls_vertices].
    destruct (Hs vertices eq_refl) as [Hall Hlen]. split; [|exact Hall].
    apply Nat.ltb_ge in El. unfold LineStringMinimumSize in El. lia.
  - split; [discriminate | intros c H; discriminate H].
  - congruence.
Qed.

Lemma MultiPoint_buildCoordinates_sound (m : MultiPoint) (v : value) :
  MultiPoint_buildCoordinates m v <> Panic /\
  (forall m', MultiPoint_buildCoordinates m v = Ok m' -> Forall accepted (mp_vertices m')).
Proof.
  unfold MultiPoint_buildCoordinates.
  destruct v as [ |b|f|z|s|rawSlice|mm];
    try (split; [discriminate | intros c H; discriminate H]).
  destruct (mapM_sound buildVertex accepted rawSlice buildVertex_sound) as [Hp Hs].
  destruct (mapM buildVertex rawSlice) as [vertices|e|]; cbn [bind].
  - split; [discriminate|]. intros m' H. injection H as <-. cbn [mp_vertices].
    exact (proj1 (Hs vertices eq_refl)).
  - split; [discriminate | intros c H; discriminate H].
  - congruence.
Qed.

Lemma buildSegment_sound (s : value) :
  buildSegment s <> Panic /\ (forall vs, buildSegment s = Ok vs -> soundSegment vs).
Proof.
  unfold buildSegment.
  destruct (LineString_buildCoordinates_sound (mkLineString [] false) s) as [Hp Hs].
  destruct (LineString_buildCoordinates (mkLineString [] false) s) as [l|e|];
    cbn [bind].
  - split; [discriminate|]. intros vs H. injection H as <-. apply Hs. reflexivity.
  - split; [discriminate | intros c H; discriminate H].
  - congruence.
Qed.

Lemma MultiLineString_buildCoordinates_sound (m : MultiLineString) (v : value) :
  MultiLineString_buildCoordinates m v <> Panic /\
  (forall m', MultiLineString_buildCoordinates m v = Ok m' ->
     mls_segments m' <> [] /\ Forall soundSegment (mls_segments m')).
Proof.
  unfold MultiLineString_buildCoordinates.
  destruct v as [ |b|f|z|s|rawSlice|mm];
    try (split; [discriminate | intros c H; discriminate H]).
  destruct rawSlice as [|r0 raw] eqn:Er;
    [split; [discriminate | intros c H; discriminate H]|].
  rewrite <- Er. replace (List.length rawSlice =? 0)%nat with false by (subst; reflexivity).
  destruct (mapM_sound buildSegment soundSegment rawSlice buildSegment_sound) as [Hp Hs].
  destruct (mapM buildSegment rawSlice) as [segments|e|]; cbn [bind].
  - split; [discriminate|]. intros m' H. injection H as <-. cbn [mls_segments].
    destruct (Hs segments eq_refl) as [Hall Hlen]. split; [|exact Hall].
    intros ->. subst rawSlice. discriminate Hlen.
  - split; [discriminate | intros c H; discriminate H].
  - congruence.
Qed.

Lemma buildRing_sound (r : value) :
  buildRing r <> Panic /\
  (forall lr, buildRing r = Ok lr -> IsValid lr = true /\ Forall accepted lr).
Proof.
  split.
  - unfold buildRing. destruct r as [ |b|f|z|s|rawRing|m]; try discriminate.
    destruct (mapM_sound buildCoordinates accepted rawRing buildCoordinates_sound)
      as [Hp _].
    destruct (mapM buildCoordinates rawRing) as [ring|e|]; cbn [bind];
      [|discriminate|congruence].
    apply NewLinearRing_no_Panic.
  - intros lr H. split; [exact (buildRing_valid r lr H)|].
    unfold buildRing in H. destruct r as [ |b|f|z|s|rawRing|m]; try discriminate.
    destruct (mapM_sound buildCoordinates accepted rawRing buildCoordinates_sound)
      as [_ Hs].
    destruct (mapM buildCoordinates rawRing) as [ring|e|]; try discriminate.
    cbn [bind] in H. destruct (Hs ring eq_refl) as [Hall _].
    unfold NewLinearRing in H.
    destruct (negb (HasValidSize ring)); [discriminate|].
    destruct (negb (IsClosed ring)); [discriminate|].
    injection H as <-. exact Hall.
Qed.

Lemma accepted_wellFormed (r : LinearRing) : Forall accepted r -> wellFormed r.
Proof.
  unfold wellFormed. intros H. eapply Forall_impl; [|exact H].
  exact accepted_length.
Qed.

Lemma reoriented_sound (rings rings' : LinearRings) :
  Forall2 reoriented rings rings' ->
  Forall (fun r => IsValid r = true /\ Forall accepted r) rings ->
  Forall (fun r => IsValid r = true /\ Forall accepted r) rings'.
Proof.
  induction 1 as [|r r' t t' Hr _ IH]; intros H; [constructor|].
  inversion H as [|? ? [Hv Ha] Ht]; subst. constructor; [|exact (IH Ht)].
  destruct Hr as [-> | ->]; [auto|].
  rewrite IsValid_rev. split; [exact Hv|]. apply Forall_rev. exact Ha.
Qed.

Lemma Polygon_buildCoordinates_sound (p : Polygon) (v : value) :
  Polygon_buildCoordinates p v <> Panic /\
  (forall p', Polygon_buildCoordinates p v = Ok p' -> soundRings (pg_rings p')).
Proof.
  unfold Polygon_buildCoordinates.
  destruct v as [ |b|f|z|s|rawSlice|m];
    try (split; [discriminate | intros c H; discriminate H]).
  destruct (mapM_sound buildRing (fun r => IsValid r = true /\ Forall accepted r)
              rawSlice buildRing_sound) as [Hp Hs].
  destruct (mapM buildRing rawSlice) as [rings|e|]; cbn [bind];
    [|split; [discriminate | intros c H; discriminate H]|congruence].
  destruct (Hs rings eq_refl) as [Hall _].
  destruct rings as [|r0 rest] eqn:Er;
    [split; [discriminate | intros c H; discriminate H]|].
  rewrite <- Er in *.
  replace (List.length rings =? 0)%nat with false by (subst; reflexivity).
  assert (Hwf : Forall wellFormed rings).
  { eapply Forall_impl; [|exact Hall]. intros r [_ Hr].
    exact (accepted_wellFormed r Hr). }
  destruct (ensureOrientation_total rings Hwf) as [rings' E]. rewrite E. cbn [bind].
  split; [discriminate|]. intros p' H. injection H as <-. cbn [pg_rings].
  pose proof (ensureOrientation_reoriented _ _ E) as Hre. split.
  - intros ->. inversion Hre; subst; discriminate.
  - exact (reoriented_sound _ _ Hre Hall).
Qed.

Lemma buildRingGroup_sound (s : value) :
  buildRingGroup s <> Panic /\ (forall rs, buildRingGroup s = Ok rs -> soundRings rs).
Proof.
  unfold buildRingGroup.
  destruct (Polygon_buildCoordinates_sound (mkPolygon [] false) s) as [Hp Hs].
  destruct (Polygon_buildCoordinates (mkPolygon [] false) s) as [p|e|]; cbn [bind].
  - split; [discriminate|]. intros rs H. injection H as <-. apply Hs. reflexivity.
  - split; [discriminate | intros c H; discriminate H].
  - congruence.
Qed.

Lemma MultiPolygon_buildCoordinates_sound (m : MultiPolygon) (v : value) :
  MultiPolygon_buildCoordinates m v <> Panic /\
  (forall m', MultiPolygon_buildCoordinates m v = Ok m' ->
     Forall soundRings (mpg_rings m')).
Proof.
  unfold MultiPolygon_buildCoordinates.
  destruct v as [ |b|f|z|s|rawSlice|mm];
    try (split; [discriminate | intros c H; discriminate H]).
  destruct (mapM_sound buildRingGroup soundRings rawSlice buildRingGroup_sound)
    as [Hp Hs].
  destruct (mapM buildRingGroup rawSlice) as [lrSlice|e|]; cbn [bind].
  - split; [discriminate|]. intros m' H. injection H as <-. cbn [mpg_rings].
    exact (proj1 (Hs lrSlice eq_refl)).
  - split; [discriminate | intros c H; discriminate H].
  - congruence.
Qed.

Lemma Point_buildCoordinates_sound (p : Point) (v : value) :
  Point_buildCoordinates p v <> Panic /\
  (forall p', Point_buildCoordinates p v = Ok p' -> accepted (pt_coords p')).
Proof.
  unfold Point_buildCoordinates.
  destruct v as [ |b|f|z|s|rawSlice|m];
    try (split; [discriminate | intros c H; discriminate H]).
  destruct (buildCoordinates_sound (VSlice rawSlice)) as [Hp Hs].
  destruct (buildCoordinates (VSlice rawSlice)) as [c|e|]; cbn [bind].
  - split; [discriminate|]. intros p' H. injection H as <-. apply Hs. reflexivity.
  - split; [discriminate | intros c H; discriminate H].
  - congruence.
Qed.

(** The coordinate builder of each variant. *)
Lemma Geometry_buildCoordinates_sound (g : Geometry) (v : value) :
  Geometry_buildCoordinates g v <> Panic /\
  (forall g', Geometry_buildCoordinates g v = Ok g' -> sound g').
Proof.
  destruct g as [p|l|m|m|p|m|gs]; cbn [Geometry_buildCoordinates].
  - destruct (Point_buildCoordinates_sound p v) as [Hp Hs].
    destruct (Point_buildCoordinates p v) as [p'|e|]; cbn [bind].
    + split; [discriminate|]. intros g' H. injection H as <-. apply Hs. reflexivity.
    + split; [discriminate | intros c H; discriminate H].
    + congruence.
  - destruct (LineString_buildCoordinates_sound l v) as [Hp Hs].
    destruct (LineString_buildCoordinates l v) as [p'|e|]; cbn [bind].
    + split; [discriminate|]. intros g' H. injection H as <-. apply Hs. reflexivity.
    + split; [discriminate | intros c H; discriminate H].
    + congruence.
  - destruct (MultiPoint_buildCoordinates_sound m v) as [Hp Hs].
    destruct (MultiPoint_buildCoordinates m v) as [p'|e|]; cbn [bind].
    + split; [discriminate|]. intros g' H. injection H as <-. apply Hs. reflexivity.
    + split; [discriminate | intros c H; discriminate H].
    + congruence.
  - destruct (MultiLineString_buildCoordinates_sound m v) as [Hp Hs].
    destruct (MultiLineString_buildCoordinates m v) as [p'|e|]; cbn [bind].
    + split; [discriminate|]. intros g' H. injection H as <-. apply Hs. reflexivity.
    + split; [discriminate | intros c H; discriminate H].
    + congruence.
  - destruct (Polygon_buildCoordinates_sound p v) as [Hp Hs].
    destruct (Polygon_buildCoordinates p v) as [p'|e|]; cbn [bind].
    + split; [discriminate|]. intros g' H. injection H as <-. apply Hs. reflexivity.
    + split; [discriminate | intros c H; discriminate H].
    + congruence.
  - destruct (MultiPolygon_buildCoordinates_sound m v) as [Hp Hs].
    destruct (MultiPolygon_buildCoordinates m v) as [p'|e|]; cbn [bind].
    + split; [discriminate|]. intros g' H. injection H as <-. apply Hs. reflexivity.
    + split; [discriminate | intros c H; discriminate H].
    + congruence.
  - split; [discriminate | intros c H; discriminate H].
Qed.

Lemma sound_collection (gs : list GeometryObject) :
  Forall soundObject gs -> sound (GGeometryCollection gs).
Proof.
  cbn [sound]. induction 1 as [|o t Ho _ IH]; [exact I|].
  destruct o as [g|]; [split; assumption | destruct Ho].
Qed.

(** The dispatcher, given children that are sound. *)
Lemma dispatch_sound (geometry : geometryJSONInput) :
  Forall soundObject (in_Geometries geometry) ->
  GeometryObject_dispatch geometry <> Panic /\
  (forall o, GeometryObject_dispatch geometry = Ok o -> soundObject o).
Proof.
  intros Hc. unfold GeometryObject_dispatch. cbv zeta.
  assert (Hb : forall g : Geometry,
            (do v' <- Geometry_buildCoordinates g (in_Coordinates geometry);
             Ok (Some v')) <> Panic /\
            (forall o,
               (do v' <- Geometry_buildCoordinates g (in_Coordinates geometry);
                Ok (Some v')) = Ok o -> soundObject o)).
  { intros g.
    destruct (Geometry_buildCoordinates_sound g (in_Coordinates geometry)) as [Hp Hs].
    destruct (Geometry_buildCoordinates g (in_Coordinates geometry)) as [g'|e|];
      cbn [bind].
    - split; [discriminate|]. intros o H. injection H as <-. apply Hs. reflexivity.
    - split; [discriminate | intros c H; discriminate H].
    - congruence. }
  repeat (match goal with
          | |- context [if ?c then _ else _] => destruct c; [apply Hb|]
          end).
  destruct (String.eqb (in_Type geometry) TypeGeometryCollection).
  - split; [discriminate|]. intros o H. injection H as <-.
    exact (sound_collection _ Hc).
  - split; [discriminate | intros c H; discriminate H].
Qed.

Lemma GeometryObject_UnmarshalJSON_sound (d : document) :
  GeometryObject_UnmarshalJSON d <> Panic /\
  (forall o, GeometryObject_UnmarshalJSON d = Ok o -> soundObject o).
Proof.
  induction d as [type_ coordinates geometries IH bbox_] using document_ind.
  cbn [GeometryObject_UnmarshalJSON].
  assert (Hch : mapM GeometryObject_UnmarshalJSON geometries <> Panic /\
                forall gs, mapM GeometryObject_UnmarshalJSON geometries = Ok gs ->
                           Forall soundObject gs).
  { induction IH as [|d [Hp Hs] t _ [IHp IHs]]; cbn [mapM].
    - split; [discriminate|]. intros gs H. injection H as <-. constructor.
    - destruct (GeometryObject_UnmarshalJSON d) as [o|e|]; cbn [bind];
        [|split; [discriminate | intros c H; discriminate H]|congruence].
      destruct (mapM GeometryObject_UnmarshalJSON t) as [os|e|]; cbn [bind];
        [|split; [discriminate | intros c H; discriminate H]|congruence].
      split; [discriminate|]. intros gs H. injection H as <-.
      constructor; [apply Hs; reflexivity | apply IHs; reflexivity]. }
  destruct Hch as [Hp Hs].
  destruct (mapM GeometryObject_UnmarshalJSON geometries) as [children|e|];
    cbn [bind]; [|split; [discriminate | intros c H; discriminate H]|congruence].
  apply dispatch_sound. cbn [in_Geometries]. apply Hs. reflexivity.
Qed.

(** X9: the decoder of geometries never panics, and a geometry it returns
    keeps the invariants of the data model: [NewCoordinates] accepts every
    coordinate; a line string has at least two vertices; a multi-line
    string has at least one segment, each of at least two vertices; a
    polygon, and each ring group of a multi-polygon, has at least one ring,
    each of at least four vertices and closed; and every child of a
    collection is present and keeps these invariants in turn. *)
Theorem X9_decoded_geometry_sound (d : document) :
  GeometryObject_UnmarshalJSON d <> Panic /\
  (forall o, GeometryObject_UnmarshalJSON d = Ok o -> exists g, o = Some g /\ sound g).
Proof.
  destruct (GeometryObject_UnmarshalJSON_sound d) as [Hp Hs].
  split; [exact Hp|]. intros o H. specialize (Hs o H).
  destruct o as [g|]; [exists g; auto | destruct Hs].
Qed.

Lemma X9_witness :
  GeometryObject_UnmarshalJSON bowtieDocument = Ok (Some bowtiePolygon) /\
  exists g, Some bowtiePolygon = Some g /\ sound g.
Proof.
  split; [reflexivity|].
  exact (proj2 (X9_decoded_geometry_sound bowtieDocument) (Some bowtiePolygon) eq_refl).
Defined.

(** ** Vertices and boxes of sound geometries *)

Lemma Forall_concat_intro {A : Type} (P : A -> Prop) (ll : list (list A)) :
  Forall (Forall P) ll -> Forall P (List.concat ll).
Proof.
  induction 1 as [|l t Hl _ IH]; [constructor|]. cbn [List.concat].
  apply Forall_app. split; assumption.
Qed.

Lemma sound_Vertices (g : Geometry) :
  sound g -> exists vs, Geometry_Vertices g = Ok vs /\ Forall accepted vs.
Proof.
  induction g as [p|l|m|m|p|m|gs IH] using Geometry_ind; intros H;
    cbn [Geometry_Vertices sound] in *.
  - eexists. split; [reflexivity|]. constructor; [exact H | constructor].
  - eexists. split; [reflexivity|]. exact (proj2 H).
  - eexists. split; [reflexivity|]. exact H.
  - eexists. split; [reflexivity|]. apply Forall_concat_intro.
    eapply Forall_impl; [|exact (proj2 H)]. intros s Hs. exact (proj2 Hs).
  - eexists. split; [reflexivity|]. apply Forall_concat_intro.
    eapply Forall_impl; [|exact (proj2 H)]. intros r Hr. exact (proj2 Hr).
  - eexists. split; [reflexivity|]. apply Forall_concat_intro.
    rewrite Forall_map. eapply Forall_impl; [|exact H].
    intros rs Hrs. apply Forall_concat_intro.
    eapply Forall_impl; [|exact (proj2 Hrs)]. intros r Hr. exact (proj2 Hr).
  - assert (Hm : exists vss,
              mapM (fun c => match c with
                             | Some g' => Geometry_Vertices g'
                             | None => Panic
                             end) gs = Ok vss /\ Forall (Forall accepted) vss).
    { induction IH as [|o Ho t _ IHt]; cbn [mapM].
      - exists []. split; [reflexivity | constructor].
      - destruct o as [g'|]; [|destruct H]. destruct H as [Hg Ht].
        inversion Ho as [? Hg'|]; subst.
        destruct (Hg' Hg) as (vs & -> & Hvs).
        destruct (IHt Ht) as (vss & -> & Hvss). cbn [bind].
        eexists. split; [reflexivity|]. constructor; assumption. }
    destruct Hm as (vss & -> & Hvss). cbn [bind].
    eexists. split; [reflexivity|]. apply Forall_concat_intro. exact Hvss.
Qed.

Lemma bbox_Ok_valid (vs : Vertices) :
  Forall (fun v => 2 <= List.length v) vs ->
  exists b, bbox vs = Ok b /\ BoundingBox_IsValid b = true.
Proof.
  intros H. rewrite (bbox_finalBounds vs H).
  destruct vs as [|v0 rest]; [exists []; split; reflexivity|].
  destruct (existsb HasAltitude (v0 :: rest)); eexists; split; reflexivity.
Qed.

(** X10: on a geometry that the decoder returned, [Vertices] and
    [BoundingBox] return without panic; the vertices are coordinates that
    [NewCoordinates] accepts, and the box passes [IsValid]. *)
Theorem X10_decoded_geometry_has_box (d : document) (g : Geometry) :
  GeometryObject_UnmarshalJSON d = Ok (Some g) ->
  exists vs b,
    Geometry_Vertices g = Ok vs /\ Forall accepted vs /\
    Geometry_BoundingBox g = Ok b /\ BoundingBox_IsValid b = true.
Proof.
  intros H.
  pose proof (proj2 (GeometryObject_UnmarshalJSON_sound d) (Some g) H) as Hs.
  cbn [soundObject] in Hs.
  destruct (sound_Vertices g Hs) as (vs & Ev & Hvs).
  assert (Hlen : Forall (fun v => 2 <= List.length v) vs)
    by (eapply Forall_impl; [|exact Hvs]; exact accepted_length).
  destruct (bbox_Ok_valid vs Hlen) as (b & Eb & Hb).
  exists vs, b. unfold Geometry_BoundingBox. rewrite Ev. cbn [bind]. auto.
Qed.

Lemma X10_witness :
  exists vs b,
    Geometry_Vertices bowtiePolygon = Ok vs /\ Forall accepted vs /\
    Geometry_BoundingBox bowtiePolygon = Ok b /\ BoundingBox_IsValid b = true.
Proof.
  exact (X10_decoded_geometry_has_box bowtieDocument bowtiePolygon eq_refl).
Defined.

(** ** The decoders of the variants *)

Lemma Geometry_buildCoordinates_keeps (g g' : Geometry) (v : value) :
  Geometry_buildCoordinates g v = Ok g' ->
  Geometry_Type g' = Geometry_Type g /\ flagOf g' = flagOf g.
Proof.
  destruct g as [p|l|m|m|p|m|gs]; cbn [Geometry_buildCoordinates].
  - unfold Point_buildCoordinates. destruct v; try discriminate.
    destruct (buildCoordinates _); try discriminate. cbn [bind].
    intros H. injection H as <-. split; reflexivity.
  - unfold LineString_buildCoordinates. destruct v; try discriminate.
    destruct (_ <? _)%nat; try discriminate.
    destruct (mapM _ _); try discriminate. cbn [bind].
    intros H. injection H as <-. split; reflexivity.
  - unfold MultiPoint_buildCoordinates. destruct v; try discriminate.
    destruct (mapM _ _); try discriminate. cbn [bind].
    intros H. injection H as <-. split; reflexivity.
  - unfold MultiLineString_buildCoordinates. destruct v; try discriminate.
    destruct (_ =? _)%nat; try discriminate.
    destruct (mapM _ _); try discriminate. cbn [bind].
    intros H. injection H as <-. split; reflexivity.
  - unfold Polygon_buildCoordinates. destruct v; try discriminate.
    destruct (mapM _ _); try discriminate. cbn [bind].
    destruct (_ =? _)%nat; try discriminate.
    destruct (ensureOrientation _); try discriminate. cbn [bind].
    intros H. injection H as <-. split; reflexivity.
  - unfold MultiPolygon_buildCoordinates. destruct v; try discriminate.
    destruct (mapM _ _); try discriminate. cbn [bind].
    intros H. injection H as <-. split; reflexivity.
  - discriminate.
Qed.

(** The geometry decoded from a document is of the variant that the tag
    names, with the toggle off. *)
Lemma decoded_tag (d : document) (g : Geometry) :
  GeometryObject_UnmarshalJSON d = Ok (Some g) ->
  Geometry_Type g = tagOf d /\ flagOf g = false.
Proof.
  destruct d as [type_ coordinates geometries bbox_].
  cbn [GeometryObject_UnmarshalJSON tagOf].
  destruct (mapM GeometryObject_UnmarshalJSON geometries) as [children|e|];
    try discriminate.
  cbn [bind]. unfold GeometryObject_dispatch. cbv zeta. cbn [in_Type in_Coordinates].
  assert (Hb : forall g0 : Geometry,
            flagOf g0 = false -> Geometry_Type g0 = type_ ->
            (do v' <- Geometry_buildCoordinates g0 coordinates; Ok (Some v'))
              = Ok (Some g) ->
            Geometry_Type g = type_ /\ flagOf g = false).
  { intros g0 Hf Ht H.
    destruct (Geometry_buildCoordinates g0 coordinates) as [g'|e|] eqn:E;
      try discriminate H.
    cbn [bind] in H. injection H as <-.
    destruct (Geometry_buildCoordinates_keeps _ _ _ E) as [H1 H2]. split; congruence. }
  repeat (match goal with
          | |- context [if String.eqb type_ ?t then _ else _] =>
              destruct (String.eqb_spec type_ t) as [->|];
              [apply Hb; reflexivity|]
          end).
  destruct (String.eqb_spec type_ TypeGeometryCollection) as [->|]; [|discriminate].
  cbn [in_Geometries]. intros H. injection H as <-. split; reflexivity.
Qed.

Ltac decodes_variant unmarshal :=
  intros recv data; unfold unmarshal;
  pose proof (proj1 (GeometryObject_UnmarshalJSON_sound data)) as Hnp;
  pose proof (decoded_tag data) as Htag;
  destruct (GeometryObject_UnmarshalJSON data) as [[g|]|e|];
    [| | |congruence];
    (split; [|split]);
    try (destruct g as [[c f]|[c f]|[c f]|[c f]|[c f]|[c f]|gs]);
    try discriminate;
    try (intros r H; discriminate H);
    try (intros o H; discriminate H);
    try (intros o _ _; reflexivity);
    try (intros r H; injection H as <-;
         destruct (Htag _ eq_refl) as [Ht Hf]; cbn in Ht, Hf; subst;
         repeat split; symmetry; exact Ht);
    try (intros o _ Hne; exfalso; apply Hne;
         destruct (Htag _ eq_refl) as [Ht _]; symmetry; exact Ht).

Lemma Point_UnmarshalJSON_spec :
  decodesVariant TypePoint (fun c => GPoint (mkPoint c false)) pt_coords
    pt_SerializeBBox Point_UnmarshalJSON.
Proof. decodes_variant Point_UnmarshalJSON. Qed.

Lemma LineString_UnmarshalJSON_spec :
  decodesVariant TypeLineString (fun c => GLineString (mkLineString c false)) ls_vertices
    ls_SerializeBBox LineString_UnmarshalJSON.
Proof. decodes_variant LineString_UnmarshalJSON. Qed.

Lemma MultiPoint_UnmarshalJSON_spec :
  decodesVariant TypeMultiPoint (fun c => GMultiPoint (mkMultiPoint c false)) mp_vertices
    mp_SerializeBBox MultiPoint_UnmarshalJSON.
Proof. decodes_variant MultiPoint_UnmarshalJSON. Qed.

Lemma MultiLineString_UnmarshalJSON_spec :
  decodesVariant TypeMultiLineString
    (fun c => GMultiLineString (mkMultiLineString c false)) mls_segments
    mls_SerializeBBox MultiLineString_UnmarshalJSON.
Proof. decodes_variant MultiLineString_UnmarshalJSON. Qed.

Lemma Polygon_UnmarshalJSON_spec :
  decodesVariant TypePolygon (fun c => GPolygon (mkPolygon c false)) pg_rings
    pg_SerializeBBox Polygon_UnmarshalJSON.
Proof. decodes_variant Polygon_UnmarshalJSON. Qed.

Lemma MultiPolygon_UnmarshalJSON_spec :
  decodesVariant TypeMultiPolygon (fun c => GMultiPolygon (mkMultiPolygon c false))
    mpg_rings mpg_SerializeBBox MultiPolygon_UnmarshalJSON.
Proof. decodes_variant MultiPolygon_UnmarshalJSON. Qed.

Lemma GeometryCollection_UnmarshalJSON_spec :
  decodesVariant TypeGeometryCollection GGeometryCollection (fun gs => gs)
    (fun _ => false) GeometryCollection_UnmarshalJSON.
Proof. decodes_variant GeometryCollection_UnmarshalJSON. Qed.

(** X11: each of the seven [UnmarshalJSON] methods of the variants never
    panics; it succeeds only on a document that carries the tag of its own
    variant, and then leaves in the receiver the coordinates (or children)
    that the envelope decoder returns for the document, keeping the
    receiver's [SerializeBBox]; and on a document of another tag that the
    envelope decoder accepts it fails with [ErrInvalidTypeField]. *)
Theorem X11_variant_decoders :
  decodesVariant TypePoint (fun c => GPoint (mkPoint c false)) pt_coords
    pt_SerializeBBox Point_UnmarshalJSON /\
  decodesVariant TypeLineString (fun c => GLineString (mkLineString c false)) ls_vertices
    ls_SerializeBBox LineString_UnmarshalJSON /\
  decodesVariant TypeMultiPoint (fun c => GMultiPoint (mkMultiPoint c false)) mp_vertices
    mp_SerializeBBox MultiPoint_UnmarshalJSON /\
  decodesVariant TypeMultiLineString
    (fun c => GMultiLineString (mkMultiLineString c false)) mls_segments
    mls_SerializeBBox MultiLineString_UnmarshalJSON /\
  decodesVariant TypePolygon (fun c => GPolygon (mkPolygon c false)) pg_rings
    pg_SerializeBBox Polygon_UnmarshalJSON /\
  decodesVariant TypeMultiPolygon (fun c => GMultiPolygon (mkMultiPolygon c false))
    mpg_rings mpg_SerializeBBox MultiPolygon_UnmarshalJSON /\
  decodesVariant TypeGeometryCollection GGeometryCollection (fun gs => gs)
    (fun _ => false) GeometryCollection_UnmarshalJSON.
Proof.
  split; [exact Point_UnmarshalJSON_spec|].
  split; [exact LineString_UnmarshalJSON_spec|].
  split; [exact MultiPoint_UnmarshalJSON_spec|].
  split; [exact MultiLineString_UnmarshalJSON_spec|].
  split; [exact Polygon_UnmarshalJSON_spec|].
  split; [exact MultiPolygon_UnmarshalJSON_spec|].
  exact GeometryCollection_UnmarshalJSON_spec.
Qed.

Lemma X11_witness :
  Point_UnmarshalJSON (mkPoint [] true) pointDocument = Ok (mkPoint [1; 2]%float true) /\
  tagOf pointDocument = TypePoint.
Proof.
  split; [reflexivity|].
  exact (proj1 (proj1 (proj2 (proj1 X11_variant_decoders (mkPoint [] true) pointDocument))
                  (mkPoint [1; 2]%float true) eq_refl)).
Defined.

(** ** Objects, features and feature collections *)

Lemma Object_dispatch_Ok_inv (feature : featuresJSONInput) (o : Object) :
  Object_dispatch feature = Ok o ->
  (fin_Type feature = TypeFeature /\ o_featureType o = TypeFeature /\
   (exists f, o_feature o = Some f) /\ o_features o = None) \/
  (fin_Type feature = TypeFeatureCollection /\ o_featureType o = TypeFeatureCollection /\
   o_feature o = None /\
   o_features o = Some (mkFeatureCollection (fin_Features feature) false)).
Proof.
  unfold Object_dispatch. cbv zeta.
  destruct (String.eqb_spec (fin_Type feature) TypeFeature) as [E|_].
  - intros H. injection H as <-. left. cbn. rewrite E. eauto 6.
  - destruct (String.eqb_spec (fin_Type feature) TypeFeatureCollection) as [E|_];
      [|discriminate].
    intros H. injection H as <-. right. cbn. rewrite E. auto.
Qed.

Lemma Object_UnmarshalJSON_Ok_inv (d : featureDocument) (o : Object) :
  Object_UnmarshalJSON d = Ok o ->
  (o_featureType o = TypeFeature /\ (exists f, o_feature o = Some f) /\
   o_features o = None) \/
  (o_featureType o = TypeFeatureCollection /\ o_feature o = None /\
   exists fs, o_features o = Some (mkFeatureCollection fs false)).
Proof.
  destruct d as [type_ geometry properties id features].
  cbn [Object_UnmarshalJSON].
  destruct (unmarshalGeometryMember geometry) as [g|e|]; cbn [bind]; try discriminate.
  destruct (mapM _ features) as [fs|e|]; cbn [bind]; try discriminate.
  intros H. apply Object_dispatch_Ok_inv in H.
  destruct H as [(_ & H1 & H2 & H3)|(_ & H1 & H2 & H3)]; [left|right]; eauto.
Qed.

(** X12: an object that [Object.UnmarshalJSON] returns is a feature or a
    feature collection, and exactly one of the two accessors succeeds: on a
    feature, [Feature] returns the feature and [FeatureCollection] fails
    with [ErrInvalidFeature]; on a collection it is the other way round. The
    zero object has the type [TypeEmptyObject], and both accessors fail on
    it. *)
Theorem X12_object_accessors :
  (forall d o, Object_UnmarshalJSON d = Ok o ->
     (IsFeature o = true /\ IsFeatureCollection o = false /\
      (exists f, Object_Feature o = Ok (Some f)) /\
      Object_FeatureCollection o = Err ErrInvalidFeature) \/
     (IsFeature o = false /\ IsFeatureCollection o = true /\
      Object_Feature o = Err ErrInvalidFeature /\
      exists fc, Object_FeatureCollection o = Ok (Some fc))) /\
  Object_Type zeroObject = TypeEmptyObject /\
  Object_Feature zeroObject = Err ErrInvalidFeature /\
  Object_FeatureCollection zeroObject = Err ErrInvalidFeature.
Proof.
  split; [|repeat split].
  intros d o H. apply Object_UnmarshalJSON_Ok_inv in H.
  unfold Object_Feature, Object_FeatureCollection, IsFeature, IsFeatureCollection,
    Object_Type.
  destruct H as [(Ht & (f & Hf) & Hfs)|(Ht & Hf & (fs & Hfs))]; rewrite Ht; cbn.
  - left. rewrite Hf. eauto 6.
  - right. rewrite Hfs. eauto 6.
Qed.

Lemma X12_witness :
  Object_UnmarshalJSON featureOnly
    = Ok (mkObject TypeFeature (Some (mkFeature None [] None false)) None) /\
  IsFeature (mkObject TypeFeature (Some (mkFeature None [] None false)) None) = true.
Proof.
  split; [reflexivity|].
  destruct (proj1 X12_object_accessors featureOnly _ eq_refl) as [H|H].
  - exact (proj1 H).
  - destruct H as (H & _). discriminate H.
Defined.

Lemma unmarshalGeometryMember_no_Panic (m : member document) :
  unmarshalGeometryMember m <> Panic.
Proof.
  destruct m as [ | |d]; cbn [unmarshalGeometryMember]; try discriminate.
  pose proof (proj1 (GeometryObject_UnmarshalJSON_sound d)) as H.
  destruct (GeometryObject_UnmarshalJSON d); cbn [bind]; congruence.
Qed.

Lemma Feature_ofObject_no_Panic (few : result Object) :
  few <> Panic -> Feature_ofObject few <> Panic.
Proof.
  unfold Feature_ofObject. destruct few as [o|e|]; [|discriminate|congruence].
  destruct (o_feature o); discriminate.
Qed.

Lemma Object_UnmarshalJSON_no_Panic (d : featureDocument) :
  Object_UnmarshalJSON d <> Panic.
Proof.
  induction d as [type_ geometry properties id features IH] using featureDocument_ind.
  cbn [Object_UnmarshalJSON].
  pose proof (unmarshalGeometryMember_no_Panic geometry) as Hg.
  destruct (unmarshalGeometryMember geometry) as [g|e|]; cbn [bind];
    [|discriminate|congruence].
  assert (Hm : mapM (fun c => Feature_ofObject (Object_UnmarshalJSON c)) features
               <> Panic).
  { induction IH as [|c Hc t _ IHt]; cbn [mapM]; [discriminate|].
    pose proof (Feature_ofObject_no_Panic _ Hc) as Hf.
    destruct (Feature_ofObject (Object_UnmarshalJSON c)); cbn [bind];
      [|discriminate|congruence].
    destruct (mapM _ t); cbn [bind]; [discriminate|discriminate|congruence]. }
  destruct (mapM _ features) as [fs|e|]; cbn [bind]; [|discriminate|congruence].
  unfold Object_dispatch. cbv zeta.
  destruct (String.eqb _ TypeFeature); [discriminate|].
  destruct (String.eqb _ TypeFeatureCollection); discriminate.
Qed.

(** X13: [Feature.UnmarshalJSON] never panics, but
    [FeatureCollection.UnmarshalJSON] panics on exactly the documents that
    decode as a feature (it dereferences the collection pointer of the
    object, which is [nil] for a feature). When it succeeds, the document
    is not a feature ([Feature.UnmarshalJSON] fails on it with
    [ErrInvalidFeature]) and the collection has its [SerializeBBox] off. *)
Theorem X13_FeatureCollection_UnmarshalJSON (d : featureDocument) :
  Feature_UnmarshalJSON d <> Panic /\
  (FeatureCollection_UnmarshalJSON d = Panic <-> exists f, Feature_UnmarshalJSON d = Ok f) /\
  (forall fc, FeatureCollection_UnmarshalJSON d = Ok fc ->
     Feature_UnmarshalJSON d = Err ErrInvalidFeature /\ fc_SerializeBBox fc = false).
Proof.
  unfold Feature_UnmarshalJSON, FeatureCollection_UnmarshalJSON, Feature_ofObject.
  pose proof (Object_UnmarshalJSON_no_Panic d) as Hnp.
  pose proof (Object_UnmarshalJSON_Ok_inv d) as Hinv.
  destruct (Object_UnmarshalJSON d) as [o|e|]; [| |congruence].
  - destruct (Hinv o eq_refl) as [(_ & (f & Hf) & Hfs)|(_ & Hf & (fs & Hfs))];
      rewrite Hf, Hfs.
    + split; [discriminate|]. split.
      * split; [intros _; eexists; reflexivity | reflexivity].
      * intros fc H. discriminate H.
    + split; [discriminate|]. split.
      * split; [discriminate | intros [f H]; discriminate H].
      * intros fc H. injection H as <-. split; reflexivity.
  - split; [discriminate|]. split.
    + split; [discriminate | intros [f H]; discriminate H].
    + intros fc H. discriminate H.
Qed.

Lemma X13_witness :
  Feature_UnmarshalJSON featureOnly = Ok (mkFeature None [] None false) /\
  FeatureCollection_UnmarshalJSON featureOnly = Panic.
Proof.
  split; [reflexivity|].
  apply (proj2 (proj1 (proj2 (X13_FeatureCollection_UnmarshalJSON featureOnly)))).
  eexists. reflexivity.
Defined.

(** ** The builders *)

Lemma VerticesBuilder_AddAll_failed (vs : list (list float)) (acc : Vertices) (e : error) :
  VerticesBuilder_AddAll (mkVerticesBuilder acc (Some e)) vs
    = Ok (mkVerticesBuilder acc (Some e)).
Proof.
  induction vs as [|v rest IH]; [reflexivity|].
  cbn [VerticesBuilder_AddAll VerticesBuilder_Add vb_err bind]. exact IH.
Qed.

Lemma VerticesBuilder_AddAll_spec (vs : list (list float)) :
  forall acc,
    (do vb <- VerticesBuilder_AddAll (mkVerticesBuilder acc None) vs;
     VerticesBuilder_Build vb)
    = match mapM NewCoordinates vs with
      | Ok vertices => Ok (acc ++ vertices)
      | Err err => Err (Wrap "failed to create coordinates" err)
      | Panic => Panic
      end.
Proof.
  induction vs as [|v rest IH]; intros acc.
  - cbn. rewrite app_nil_r. reflexivity.
  - cbn [VerticesBuilder_AddAll VerticesBuilder_Add vb_err vb_vertices mapM].
    destruct (NewCoordinates v) as [c|e|]; cbn [bind].
    + rewrite IH. destruct (mapM NewCoordinates rest) as [l|e|]; cbn [bind];
        try reflexivity.
      rewrite <- app_assoc. reflexivity.
    + rewrite VerticesBuilder_AddAll_failed. reflexivity.
    + reflexivity.
Qed.

Lemma mapM_NewCoordinates_id (vs : list (list float)) (vertices : Vertices) :
  mapM NewCoordinates vs = Ok vertices -> vertices = vs.
Proof.
  intros H. apply mapM_Forall2 in H.
  induction H as [|v c t t' Hv _ IH]; [reflexivity|].
  destruct (NewCoordinates_Ok_inv v c Hv) as [-> _]. rewrite IH. reflexivity.
Qed.

(** X14: a chain of [Add] calls on a new vertices builder followed by
    [Build] never panics; it returns the inputs themselves, in order, when
    [NewCoordinates] accepts every one of them, and otherwise the error of
    the first input that [NewCoordinates] rejects, wrapped, whatever was
    added after it. No [Add] at all builds the empty vertex list. *)
Theorem X14_VerticesBuilder (vs : list (list float)) :
  buildVertices vs <> Panic /\
  (Forall accepted vs -> buildVertices vs = Ok vs) /\
  (forall vertices, buildVertices vs = Ok vertices -> vertices = vs /\ Forall accepted vs) /\
  (forall ok v rest err,
     vs = ok ++ v :: rest -> Forall accepted ok -> NewCoordinates v = Err err ->
     buildVertices vs = Err (Wrap "failed to create coordinates" err)).
Proof.
  unfold buildVertices, NewVerticesBuilder.
  rewrite (VerticesBuilder_AddAll_spec vs []). cbn [app].
  assert (Hacc : forall l : list (list float), Forall accepted l ->
            mapM NewCoordinates l = Ok l).
  { induction 1 as [|c t Hc _ IH]; [reflexivity|].
    cbn [mapM]. rewrite Hc, IH. reflexivity. }
  split; [|split; [|split]].
  - pose proof (mapM_no_Panic NewCoordinates vs NewCoordinates_no_Panic) as H.
    destruct (mapM NewCoordinates vs); congruence.
  - intros H. rewrite (Hacc vs H). reflexivity.
  - intros vertices H.
    destruct (mapM NewCoordinates vs) as [l|e|] eqn:E; try discriminate H.
    injection H as <-. pose proof (mapM_NewCoordinates_id _ _ E) as ->.
    split; [reflexivity|].
    apply mapM_Forall2 in E. clear Hacc.
    induction vs as [|v t IH]; [constructor|].
    inversion E; subst. constructor; [assumption | apply IH; assumption].
  - intros ok v rest err -> Hok Hv.
    assert (E : mapM NewCoordinates (ok ++ v :: rest) = Err err).
    { clear Hacc. induction Hok as [|c t Hc _ IH]; cbn [app mapM].
      - rewrite Hv. reflexivity.
      - rewrite Hc. cbn [bind]. rewrite IH. reflexivity. }
    rewrite E. reflexivity.
Qed.

Lemma X14_witness :
  buildVertices [[1; 2]; [200; 0]; [3; 4]]%float
    = Err (Wrap "failed to create coordinates"
             (Wrap "invalid coordinates" ErrLongitudeRange)).
Proof.
  apply (proj2 (proj2 (proj2 (X14_VerticesBuilder [[1; 2]; [200; 0]; [3; 4]]%float)))
           [[1; 2]%float] [200; 0]%float [[3; 4]%float]).
  - reflexivity.
  - constructor; [reflexivity | constructor].
  - reflexivity.
Defined.

Lemma SegmentsBuilder_fold_failed (segs : list Vertices) (acc : Segments) :
  fold_left SegmentsBuilder_Add segs (mkSegmentsBuilder acc (Some ErrVerticesEmpty))
    = mkSegmentsBuilder acc (Some ErrVerticesEmpty).
Proof.
  induction segs as [|s rest IH]; [reflexivity|]. cbn [fold_left]. exact IH.
Qed.

Lemma SegmentsBuilder_fold_spec (segs : list Vertices) :
  forall acc,
    SegmentsBuilder_Build (fold_left SegmentsBuilder_Add segs (mkSegmentsBuilder acc None))
    = if forallb (fun s => negb (List.length s =? 0)%nat) segs
      then Returns (acc ++ segs) else Fails ErrVerticesEmpty.
Proof.
  induction segs as [|s rest IH]; intros acc; cbn [fold_left forallb].
  - rewrite app_nil_r. reflexivity.
  - unfold SegmentsBuilder_Add at 2. cbn [sb_err sb_segments].
    destruct (List.length s =? 0)%nat; cbn [negb andb].
    + rewrite SegmentsBuilder_fold_failed. reflexivity.
    + rewrite IH. rewrite <- app_assoc. reflexivity.
Qed.

(** X15: a chain of [Add] calls on a new segments builder followed by
    [Build] returns the segments given, in order, when none of them is
    empty, and fails with [ErrVerticesEmpty] when one is. The builder does
    not ask for two vertices per segment: a segment of one vertex is built,
    and [NewMultiLineString] then rejects the result with
    [ErrLineStringTooShort]; the result of no [Add] at all is rejected with
    [ErrMultiLineStringTooShort]. *)
Theorem X15_SegmentsBuilder (segs : list Vertices) :
  (Forall (fun s => s <> []) segs -> buildSegments segs = Returns segs) /\
  (Exists (fun s => s = []) segs -> buildSegments segs = Fails ErrVerticesEmpty) /\
  (forall v, buildSegments [[v]] = Returns [[v]] /\
             NewMultiLineString [[v]] = Err ErrLineStringTooShort) /\
  (buildSegments [] = Returns [] /\ NewMultiLineString [] = Err ErrMultiLineStringTooShort).
Proof.
  unfold buildSegments, NewSegmentsBuilder.
  split; [|split; [|split; [intros v; split; reflexivity | split; reflexivity]]].
  - intros H. rewrite SegmentsBuilder_fold_spec. cbn [app].
    replace (forallb _ segs) with true; [reflexivity|].
    symmetry. apply forallb_forall. intros s Hs.
    rewrite Forall_forall in H. specialize (H s Hs).
    destruct s; [congruence | reflexivity].
  - intros H. rewrite SegmentsBuilder_fold_spec.
    replace (forallb _ segs) with false; [reflexivity|].
    symmetry. apply Bool.not_true_is_false. intros Hall.
    rewrite forallb_forall in Hall. apply Exists_exists in H.
    destruct H as (s & Hs & ->). specialize (Hall [] Hs). discriminate Hall.
Qed.

Lemma X15_witness :
  buildSegments [[pt 1 2; pt 3 4]; [pt 5 6]]%float
    = Returns [[pt 1 2; pt 3 4]; [pt 5 6]]%float.
Proof.
  apply (proj1 (X15_SegmentsBuilder _)).
  repeat constructor; discriminate.
Defined.

(** ** Constructors on decoded geometries *)

Lemma NewLineString_sound (s : Vertices) :
  2 <= List.length s -> NewLineString s = Ok (mkLineString s false).
Proof.
  intros H. unfold NewLineString.
  replace (List.length s <? LineStringMinimumSize)%nat with false; [reflexivity|].
  symmetry. apply Nat.ltb_ge. exact H.
Qed.

Lemma NewMultiLineString_sound (segs : Segments) :
  segs <> [] -> Forall soundSegment segs ->
  NewMultiLineString segs = Ok (mkMultiLineString segs false).
Proof.
  intros Hne Hall. unfold NewMultiLineString.
  destruct segs as [|s0 rest] eqn:E; [congruence|]. rewrite <- E in *.
  replace (List.length segs =? 0)%nat with false by (subst; reflexivity).
  destruct (mapM_total NewLineString soundSegment segs) as [ls ->]; [|exact Hall|reflexivity].
  intros s [Hs _]. eexists. exact (NewLineString_sound s Hs).
Qed.

Lemma soundRings_checkRings (rs : LinearRings) :
  soundRings rs -> checkRings rs = None /\ Forall wellFormed rs.
Proof.
  intros [_ Hall]. split.
  - apply checkRings_allValid. unfold allValid.
    eapply Forall_impl; [|exact Hall]. intros r [Hr _]. exact Hr.
  - eapply Forall_impl; [|exact Hall]. intros r [_ Hr].
    exact (accepted_wellFormed r Hr).
Qed.

Lemma NewPolygon_sound (rs : LinearRings) :
  soundRings rs -> exists p, NewPolygon rs = Ok p.
Proof.
  intros H. destruct (soundRings_checkRings rs H) as [Hc Hwf].
  destruct H as [Hne _]. unfold NewPolygon.
  destruct rs as [|r0 rest] eqn:E; [congruence|]. rewrite <- E in *.
  replace (List.length rs =? 0)%nat with false by (subst; reflexivity).
  rewrite Hc. destruct (ensureOrientation_total rs Hwf) as [rs' ->].
  eexists. reflexivity.
Qed.

Lemma NewMultiPolygonFromRingSlice_sound (groups : list LinearRings) :
  Forall soundRings groups -> exists m, NewMultiPolygonFromRingSlice groups = Ok m.
Proof.
  intros H. unfold NewMultiPolygonFromRingSlice.
  destruct (mapM_total checkAndOrient soundRings groups) as [gs ->];
    [|exact H|eexists; reflexivity].
  intros rs Hrs. unfold checkAndOrient.
  destruct (soundRings_checkRings rs Hrs) as [-> Hwf].
  exact (ensureOrientation_total rs Hwf).
Qed.

(** X16: the exported constructor of its variant accepts the coordinates of
    every geometry that the decoder returns, and builds a geometry of the
    same variant; for the variants without rings it builds the decoded
    geometry itself. *)
Theorem X16_constructors_accept_decoded (d : document) (g : Geometry) :
  GeometryObject_UnmarshalJSON d = Ok (Some g) ->
  exists g', rebuild g = Ok g' /\ Geometry_Type g' = Geometry_Type g /\
             (hasRings g = false -> g' = g).
Proof.
  intros H.
  pose proof (proj2 (GeometryObject_UnmarshalJSON_sound d) (Some g) H) as Hs.
  destruct (decoded_tag d g H) as [_ Hf].
  cbn [soundObject] in Hs.
  destruct g as [[c f]|[vs f]|[vs f]|[ss f]|[rs f]|[gs f]|gs];
    cbn [sound flagOf rebuild pt_coords ls_vertices mls_segments mp_vertices
         pg_rings mpg_rings pt_SerializeBBox ls_SerializeBBox mp_SerializeBBox
         mls_SerializeBBox pg_SerializeBBox mpg_SerializeBBox] in *;
    try subst f.
  - unfold NewPoint. rewrite Hs. cbn [bind]. eexists. repeat split.
  - rewrite (NewLineString_sound vs (proj1 Hs)). cbn [bind]. eexists. repeat split.
  - eexists. repeat split.
  - rewrite (NewMultiLineString_sound ss (proj1 Hs) (proj2 Hs)). cbn [bind].
    eexists. repeat split.
  - destruct (NewPolygon_sound rs Hs) as [p ->]. cbn [bind].
    eexists. repeat split. discriminate.
  - destruct (NewMultiPolygonFromRingSlice_sound gs Hs) as [m ->]. cbn [bind].
    eexists. repeat split. discriminate.
  - eexists. repeat split.
Qed.

Lemma X16_witness :
  exists g', rebuild bowtiePolygon = Ok g' /\
             Geometry_Type g' = Geometry_Type bowtiePolygon /\
             (hasRings bowtiePolygon = false -> g' = bowtiePolygon).
Proof.
  exact (X16_constructors_accept_decoded bowtieDocument bowtiePolygon eq_refl).
Defined.

(** ** Properties *)

Lemma mapLookup_filter_other (m : Properties) (key k : string) :
  k <> key ->
  mapLookup (filter (fun kv => negb (String.eqb (fst kv) key)) m) k = mapLookup m k.
Proof.
  intros Hk. induction m as [|[k0 v0] rest IH]; [reflexivity|].
  cbn [filter fst mapLookup].
  destruct (String.eqb_spec k0 key) as [->|Hne]; cbn [negb].
  - rewrite IH. destruct (String.eqb_spec key k) as [E|_]; [congruence | reflexivity].
  - cbn [mapLookup]. rewrite IH. reflexivity.
Qed.

Lemma mapLookup_store (m : Properties) (key k : string) (v : value) :
  mapLookup (mapStore m key v) k = if String.eqb key k then Some v else mapLookup m k.
Proof.
  unfold mapStore. cbn [mapLookup].
  destruct (String.eqb_spec key k) as [E|Hne]; [reflexivity|].
  apply mapLookup_filter_other. congruence.
Qed.

Lemma Properties_Get_lookup (m : Properties) (k : string) :
  Properties_Get (Some m) k =
    match mapLookup m k with
    | Some v => (v, true)
    | None => (VNil, false)
    end.
Proof.
  unfold Properties_Get. destruct m as [|kv rest]; reflexivity.
Qed.

(** X17: [Set] with a key that is not empty stores the value: [Get] of the
    key then returns that value and [true], and [Get] of every other key
    answers as before; a second [Set] of the key replaces the first. [Set]
    with the empty key fails with [ErrKeyEmpty], also on a [nil] receiver,
    on which every other [Set] panics; [Get] on a [nil] receiver or an
    empty map finds nothing. *)
Theorem X17_Properties_Set_Get :
  (forall m key v, key <> EmptyString ->
     Properties_Set (Some m) key v = Returns (mapStore m key v) /\
     Properties_Get (Some (mapStore m key v)) key = (v, true) /\
     (forall k, k <> key ->
        Properties_Get (Some (mapStore m key v)) k = Properties_Get (Some m) k) /\
     (forall v' k,
        Properties_Get (Some (mapStore (mapStore m key v) key v')) k
          = Properties_Get (Some (mapStore m key v')) k)) /\
  (forall p v, Properties_Set p EmptyString v = Fails ErrKeyEmpty) /\
  (forall key v, key <> EmptyString -> Properties_Set None key v = Panics) /\
  (forall k, Properties_Get None k = (VNil, false) /\
             Properties_Get (Some []) k = (VNil, false)).
Proof.
  split; [|split; [|split]].
  - intros m key v Hkey. split; [|split; [|split]].
    + unfold Properties_Set.
      destruct (String.eqb_spec key EmptyString) as [E|_]; [congruence | reflexivity].
    + rewrite Properties_Get_lookup, mapLookup_store, String.eqb_refl. reflexivity.
    + intros k Hk. rewrite !Properties_Get_lookup, mapLookup_store.
      destruct (String.eqb_spec key k) as [E|_]; [congruence | reflexivity].
    + intros v' k. rewrite !Properties_Get_lookup, !mapLookup_store.
      destruct (String.eqb key k); reflexivity.
  - intros p v. reflexivity.
  - intros key v Hkey. unfold Properties_Set.
    destruct (String.eqb_spec key EmptyString) as [E|_]; [congruence | reflexivity].
  - intros k. split; reflexivity.
Qed.

Lemma X17_witness :
  Properties_Get (Some (mapStore [("name", VString "a")] "name" (VFloat 1)))%string "name"%string
    = (VFloat 1, true).
Proof.
  refine (proj1 (proj2 (proj1 X17_Properties_Set_Get _ _ _ _))).
  discriminate.
Defined.

(** X18: the typed getters agree with [Get]: each fails with
    [ErrPropertyNotFound] exactly when [Get] finds nothing, and otherwise
    returns the value when it has the getter's type and fails with the
    getter's own error when it has not. [GetInt] wants a float64 like
    [GetFloat] does, and converts it; so a value stored as a Go [int]
    is an integer for neither of them. *)
Theorem X18_typed_getters (p : option Properties) (key : string) :
  gettersAgree p key /\
  (forall m m' z,
     Properties_Set (Some m) key (VInt z) = Returns m' ->
     Properties_GetInt (Some m') key = Fails ErrInvalidInt).
Proof.
  split.
  - unfold gettersAgree, Properties_Get, Properties_GetString, Properties_GetInt,
      Properties_GetFloat, Properties_GetBool, Properties_find.
    destruct p as [m|]; [|repeat split].
    destruct (List.length m =? 0)%nat; [repeat split|].
    destruct (mapLookup m key) as [[ |b|f|z|s|l|mm]|]; repeat split.
  - intros m m' z. unfold Properties_Set.
    destruct (String.eqb key EmptyString); [discriminate|].
    intros H. injection H as <-. unfold Properties_GetInt, Properties_find.
    cbn [mapStore List.length Nat.eqb mapLookup]. rewrite String.eqb_refl. reflexivity.
Qed.

Lemma X18_witness :
  Properties_GetInt (Some [("n", VInt 5)])%string "n"%string = Fails ErrInvalidInt.
Proof.
  exact (proj2 (X18_typed_getters None "n"%string) [] [("n", VInt 5)]%string 5%Z eq_refl).
Defined.

(** The conversion of [GetInt] discards the fraction. *)
Example to_int_examples :
  to_int 1.5%float = Some 1%Z /\ to_int (-1.5)%float = Some (-1)%Z /\
  to_int 0x1p62%float = Some (2 ^ 62)%Z /\ to_int 0x1p63%float = None /\
  to_int PrimFloat.nan = None /\ to_int PrimFloat.infinity = None.
Proof. repeat split; reflexivity. Qed.


(** ** Encoding *)

Lemma mapM_returns {A B : Type} (f : A -> result B) (l : list A) :
  returns (mapM f l) <-> Forall (fun x => returns (f x)) l.
Proof.
  unfold returns. induction l as [|x t IH]; cbn [mapM].
  - split; [constructor | eexists; reflexivity].
  - split.
    + intros [l' H]. destruct (f x) as [y|e|] eqn:Ex; try discriminate H.
      cbn [bind] in H. destruct (mapM f t) as [ys|e|] eqn:Et; try discriminate H.
      constructor; [exists y; exact Ex | apply IH; eexists; reflexivity].
    + intros H. inversion H as [|? ? [y Hy] Ht]; subst.
      apply IH in Ht. destruct Ht as [ys Hys]. rewrite Hy, Hys.
      eexists. reflexivity.
Qed.

Lemma mapM_no_Panic_Forall {A B : Type} (f : A -> result B) (l : list A) :
  Forall (fun x => f x <> Panic) l -> mapM f l <> Panic.
Proof.
  induction 1 as [|x t Hx _ IH]; cbn [mapM]; [discriminate|].
  destruct (f x) as [y|e|]; cbn [bind]; [|discriminate|congruence].
  destruct (mapM f t) as [ys|e|]; cbn [bind]; [discriminate|discriminate|congruence].
Qed.

Lemma bind_returns {A B : Type} (r : result A) (k : A -> B) :
  returns (do a <- r; Ok (k a)) <-> returns r.
Proof.
  unfold returns. destruct r as [a|e|]; cbn [bind];
    split; intros [x H]; try discriminate H; eexists; reflexivity.
Qed.

Lemma marshalFloat_returns (x : float) :
  marshalFloat x <> Panic /\ (returns (marshalFloat x) <-> PrimFloat.is_finite x = true).
Proof.
  unfold marshalFloat, returns, F64.marshalable.
  destruct (PrimFloat.is_finite x); (split; [discriminate|]); split;
    try reflexivity; try discriminate; try (intros _; eexists; reflexivity).
  intros [a H]. discriminate H.
Qed.

(** Writing a nest of slices of numbers. *)
Lemma marshalSlice_returns {A : Type} (f : A -> result value) (P : A -> Prop)
  (l : list A) :
  (forall x, f x <> Panic /\ (returns (f x) <-> P x)) ->
  (do l' <- mapM f l; Ok (VSlice l')) <> Panic /\
  (returns (do l' <- mapM f l; Ok (VSlice l')) <-> Forall P l).
Proof.
  intros Hf. split.
  - pose proof (mapM_no_Panic f l (fun x => proj1 (Hf x))) as H.
    destruct (mapM f l); cbn [bind]; congruence.
  - rewrite bind_returns, mapM_returns. split; intros H;
      (eapply Forall_impl; [|exact H]); intros x; apply Hf.
Qed.

Lemma marshalCoordinates_returns (c : Coordinates) :
  marshalCoordinates c <> Panic /\ (returns (marshalCoordinates c) <-> finiteCoordinates c).
Proof. exact (marshalSlice_returns marshalFloat _ c marshalFloat_returns). Qed.

Lemma marshalVertices_returns (vs : Vertices) :
  marshalVertices vs <> Panic /\
  (returns (marshalVertices vs) <-> Forall finiteCoordinates vs).
Proof. exact (marshalSlice_returns marshalCoordinates _ vs marshalCoordinates_returns). Qed.

Lemma marshalSegments_returns (ss : list Vertices) :
  marshalSegments ss <> Panic /\
  (returns (marshalSegments ss) <-> Forall (Forall finiteCoordinates) ss).
Proof. exact (marshalSlice_returns marshalVertices _ ss marshalVertices_returns). Qed.

Lemma marshalRingGroups_returns (gs : list LinearRings) :
  marshalRingGroups gs <> Panic /\
  (returns (marshalRingGroups gs) <-> Forall (Forall (Forall finiteCoordinates)) gs).
Proof. exact (marshalSlice_returns marshalSegments _ gs marshalSegments_returns). Qed.

Lemma marshalOutput_off (type_ : GeometryType) (coordinates : result value)
  (vertices : Vertices) :
  (marshalOutput type_ coordinates false vertices = Panic <-> coordinates = Panic) /\
  (returns (marshalOutput type_ coordinates false vertices) <-> returns coordinates).
Proof.
  unfold marshalOutput, returns. destruct coordinates as [c|e|]; cbn; split; split;
    try discriminate; try reflexivity;
    try (intros [a H]; discriminate H); intros _; eexists; reflexivity.
Qed.

Lemma Geometry_MarshalJSON_off (g : Geometry) :
  Geometry_MarshalJSON (withoutBBox g) <> Panic /\
  (returns (Geometry_MarshalJSON (withoutBBox g)) <-> allFinite g).
Proof.
  induction g as [p|l|m|m|p|m|gs IH] using Geometry_ind;
    cbn [withoutBBox Geometry_MarshalJSON allFinite pt_coords pt_SerializeBBox
         ls_vertices ls_SerializeBBox mp_vertices mp_SerializeBBox
         mls_segments mls_SerializeBBox pg_rings pg_SerializeBBox
         mpg_rings mpg_SerializeBBox].
  - destruct (marshalOutput_off TypePoint (marshalCoordinates (pt_coords p))
                [pt_coords p]) as [Hp Hr].
    destruct (marshalCoordinates_returns (pt_coords p)) as [Hp' Hr'].
    rewrite Hp, Hr, Hr'. split; [exact Hp' | reflexivity].
  - destruct (marshalOutput_off TypeLineString (marshalVertices (ls_vertices l))
                (ls_vertices l)) as [Hp Hr].
    destruct (marshalVertices_returns (ls_vertices l)) as [Hp' Hr'].
    rewrite Hp, Hr, Hr'. split; [exact Hp' | reflexivity].
  - destruct (marshalOutput_off TypeMultiPoint (marshalVertices (mp_vertices m))
                (mp_vertices m)) as [Hp Hr].
    destruct (marshalVertices_returns (mp_vertices m)) as [Hp' Hr'].
    rewrite Hp, Hr, Hr'. split; [exact Hp' | reflexivity].
  - destruct (marshalOutput_off TypeMultiLineString (marshalSegments (mls_segments m))
                (List.concat (mls_segments m))) as [Hp Hr].
    destruct (marshalSegments_returns (mls_segments m)) as [Hp' Hr'].
    rewrite Hp, Hr, Hr'. split; [exact Hp' | reflexivity].
  - destruct (marshalOutput_off TypePolygon (marshalSegments (pg_rings p))
                (List.concat (pg_rings p))) as [Hp Hr].
    destruct (marshalSegments_returns (pg_rings p)) as [Hp' Hr'].
    rewrite Hp, Hr, Hr'. split; [exact Hp' | reflexivity].
  - destruct (marshalOutput_off TypeMultiPolygon (marshalRingGroups (mpg_rings m))
                (List.concat (map (@List.concat Coordinates) (mpg_rings m))))
      as [Hp Hr].
    destruct (marshalRingGroups_returns (mpg_rings m)) as [Hp' Hr'].
    rewrite Hp, Hr, Hr'. split; [exact Hp' | reflexivity].
  - set (enc := fun c : option Geometry =>
                  match c with
                  | Some g' => Geometry_MarshalJSON g'
                  | None => Ok nullDocument
                  end).
    assert (H : mapM enc (map (option_map withoutBBox) gs) <> Panic /\
                (returns (mapM enc (map (option_map withoutBBox) gs)) <->
                 (fix all (l : list (option Geometry)) : Prop :=
                    match l with
                    | [] => True
                    | Some g' :: t => allFinite g' /\ all t
                    | None :: t => all t
                    end) gs)).
    { induction IH as [|o Ho t _ [IHp IHr]]; cbn [map mapM].
      - split; [discriminate|]. split; [intros _; exact I|].
        intros _. eexists. reflexivity.
      - destruct o as [g'|]; cbn [option_map enc].
        + inversion Ho as [? [Hp Hr]|]; subst.
          destruct (Geometry_MarshalJSON (withoutBBox g')) as [d|e|]; cbn [bind].
          * destruct (mapM enc (map (option_map withoutBBox) t)) as [ds|e|];
              cbn [bind].
            -- split; [discriminate|]. rewrite <- Hr, <- IHr.
               split; [intros _; split; eexists; reflexivity|].
               intros _. eexists. reflexivity.
            -- split; [discriminate|]. rewrite <- IHr.
               split; [intros [a H]; discriminate H|].
               intros [_ [a H]]. discriminate H.
            -- congruence.
          * split; [discriminate|]. rewrite <- Hr.
            split; [intros [a H]; discriminate H|].
            intros [[a H] _]. discriminate H.
          * congruence.
        + destruct (mapM enc (map (option_map withoutBBox) t)) as [ds|e|];
            cbn [bind].
          * split; [discriminate|]. rewrite <- IHr.
            split; intros _; eexists; reflexivity.
          * split; [discriminate|]. rewrite <- IHr.
            split; intros [a H]; discriminate H.
          * congruence. }
    fold enc. destruct H as [Hp Hr]. rewrite <- Hr.
    destruct (mapM enc (map (option_map withoutBBox) gs)) as [ds|e|]; cbn [bind].
    + split; [discriminate|]. split; intros _; eexists; reflexivity.
    + split; [discriminate|]. split; intros [a H]; discriminate H.
    + congruence.
Qed.

(** X20: with the bounding-box toggles off, [MarshalJSON] of a geometry
    never panics, and it succeeds exactly when every number the geometry
    holds is finite: a NaN or an infinity anywhere, which the constructors
    do not rule out, makes the encoding fail. A [nil] child of a collection
    is written as [null] and is no obstacle. *)
Theorem X20_MarshalJSON_iff_finite (g : Geometry) :
  Geometry_MarshalJSON (withoutBBox g) <> Panic /\
  (returns (Geometry_MarshalJSON (withoutBBox g)) <-> allFinite g) /\
  (forall d, Geometry_MarshalJSON (withoutBBox g) = Ok d ->
     tagOf d = Geometry_Type g /\ bboxOf d = []).
Proof.
  destruct (Geometry_MarshalJSON_off g) as [Hp Hr].
  split; [exact Hp|]. split; [exact Hr|].
  assert (Hout : forall t c vs d,
            marshalOutput t c false vs = Ok d -> tagOf d = t /\ bboxOf d = []).
  { intros t c vs d. unfold marshalOutput.
    destruct c as [c|e|]; cbn; try discriminate.
    intros H. injection H as <-. split; reflexivity. }
  intros d. destruct g as [p|l|m|m|p|m|gs];
    cbn [withoutBBox Geometry_MarshalJSON Geometry_Type
         pt_SerializeBBox ls_SerializeBBox mp_SerializeBBox mls_SerializeBBox
         pg_SerializeBBox mpg_SerializeBBox];
    try apply Hout.
  destruct (mapM _ _); cbn [bind]; try discriminate.
  intros H. injection H as <-. split; reflexivity.
Qed.

Lemma X20_witness :
  NewPoint [PrimFloat.nan; 0%float] = Ok (mkPoint [PrimFloat.nan; 0%float] false) /\
  ~ returns (Geometry_MarshalJSON nanPoint).
Proof.
  split; [reflexivity|].
  intros H. apply (proj1 (proj1 (proj2 (X20_MarshalJSON_iff_finite nanPoint)))) in H.
  cbn in H. inversion H as [|? ? Hn _]. discriminate Hn.
Defined.

Lemma marshalOutput_inv (type_ : GeometryType) (coordinates : result value)
  (flag : bool) (vertices : Vertices) :
  (forall d, marshalOutput type_ coordinates flag vertices = Ok d ->
     tagOf d = type_ /\
     if flag then bbox vertices = Ok (bboxOf d) else bboxOf d = []) /\
  (flag = true -> bbox vertices = Panic ->
   marshalOutput type_ coordinates flag vertices = Panic).
Proof.
  unfold marshalOutput, marshalFloats. split.
  - intros d. destruct flag.
    + destruct (bbox vertices) as [bb|e|]; cbn [bind]; try discriminate.
      destruct coordinates as [c|e|]; cbn [bind]; try discriminate.
      destruct (mapM marshalFloat bb); cbn [bind]; try discriminate.
      intros H. injection H as <-. split; reflexivity.
    + cbn [bind]. destruct coordinates as [c|e|]; cbn; try discriminate.
      intros H. injection H as <-. split; reflexivity.
  - intros -> ->. reflexivity.
Qed.

(** X21: the document that [MarshalJSON] writes for a geometry carries the
    type that [Type] returns; its [bbox] member is what [BoundingBox]
    returns when the [SerializeBBox] toggle of the geometry is on (so it is
    left out for a geometry without vertices), and is left out when the
    toggle is off and for every collection. With the toggle on,
    [MarshalJSON] panics whenever [BoundingBox] does. *)
Theorem X21_MarshalJSON_writes_BoundingBox (g : Geometry) :
  (forall d, Geometry_MarshalJSON g = Ok d ->
     tagOf d = Geometry_Type g /\
     if flagOf g then Geometry_BoundingBox g = Ok (bboxOf d) else bboxOf d = []) /\
  (flagOf g = true -> Geometry_BoundingBox g = Panic -> Geometry_MarshalJSON g = Panic).
Proof.
  destruct g as [p|l|m|m|p|m|gs];
    cbn [Geometry_MarshalJSON Geometry_Type flagOf];
    unfold Geometry_BoundingBox; cbn [Geometry_Vertices bind];
    try apply marshalOutput_inv.
  split; [|discriminate].
  intros d. destruct (mapM _ _); cbn [bind]; try discriminate.
  intros H. injection H as <-. split; reflexivity.
Qed.

Lemma X21_witness :
  Geometry_BoundingBox shortLine = Panic /\ Geometry_MarshalJSON shortLine = Panic.
Proof.
  split; [reflexivity|].
  apply (proj2 (X21_MarshalJSON_writes_BoundingBox shortLine)); reflexivity.
Defined.

(** ** The envelope: type tests and conversions *)

(** X22: on every envelope the type tests, which compare the string that
    [Type] returns, agree with the conversions, which assert the variant:
    each [Is...] holds exactly when its [To...] succeeds, and then the
    envelope holds what the conversion returns. Each of the seven
    conversions fails with [ErrGeometryNotDefined] exactly on the empty
    envelope, where every test is false, and with [ErrGeometryTypeMismatch]
    exactly on an envelope of another variant. *)
Theorem X22_tests_agree_with_conversions (g : GeometryObject) :
  (IsPoint g = is_Ok (ToPoint g) /\
   IsLineString g = is_Ok (ToLineString g) /\
   IsMultiPoint g = is_Ok (ToMultiPoint g) /\
   IsMultiLineString g = is_Ok (ToMultiLineString g) /\
   IsPolygon g = is_Ok (ToPolygon g) /\
   IsMultiPolygon g = is_Ok (ToMultiPolygon g) /\
   IsGeometryCollection g = is_Ok (ToGeometryCollection g)) /\
  (forall p, ToPoint g = Ok p <-> g = FromGeometry (Some (GPoint p))) /\
  (forall l, ToLineString g = Ok l <-> g = FromGeometry (Some (GLineString l))) /\
  (forall m, ToMultiPoint g = Ok m <-> g = FromGeometry (Some (GMultiPoint m))) /\
  (forall m, ToMultiLineString g = Ok m <-> g = FromGeometry (Some (GMultiLineString m))) /\
  (forall p, ToPolygon g = Ok p <-> g = FromGeometry (Some (GPolygon p))) /\
  (forall m, ToMultiPolygon g = Ok m <-> g = FromGeometry (Some (GMultiPolygon m))) /\
  (forall gs, ToGeometryCollection g = Ok gs <->
              g = FromGeometry (Some (GGeometryCollection gs))) /\
  (conversionErrors IsPoint ToPoint g /\
   conversionErrors IsLineString ToLineString g /\
   conversionErrors IsMultiPoint ToMultiPoint g /\
   conversionErrors IsMultiLineString ToMultiLineString g /\
   conversionErrors IsPolygon ToPolygon g /\
   conversionErrors IsMultiPolygon ToMultiPolygon g /\
   conversionErrors IsGeometryCollection ToGeometryCollection g) /\
  (IsEmpty g = true ->
   IsPoint g = false /\ IsLineString g = false /\ IsMultiPoint g = false /\
   IsMultiLineString g = false /\ IsPolygon g = false /\ IsMultiPolygon g = false /\
   IsGeometryCollection g = false).
Proof.
  unfold FromGeometry, conversionErrors.
  destruct g as [[p|l|m|m|p|m|gs]|]; cbn;
    repeat split; try discriminate; try congruence;
    try (intros [H _]; discriminate H); try (intros [_ H]; discriminate H).
Qed.

(** ** Decoded features and collections *)

Lemma unmarshalGeometryMember_sound (m : member document) (g : option GeometryObject) :
  unmarshalGeometryMember m = Ok g ->
  match g with
  | Some o => soundObject o
  | None => True
  end.
Proof.
  destruct m as [ | |d]; cbn [unmarshalGeometryMember].
  - intros H. injection H as <-. exact I.
  - intros H. injection H as <-. exact I.
  - pose proof (proj2 (GeometryObject_UnmarshalJSON_sound d)) as Hs.
    destruct (GeometryObject_UnmarshalJSON d) as [o|e|]; cbn [bind]; try discriminate.
    intros H. injection H as <-. apply Hs. reflexivity.
Qed.

Lemma Feature_ofObject_sound (few : result Object) (f : Feature) :
  (forall o, few = Ok o ->
     match o_feature o with Some f' => soundFeature f' | None => True end) ->
  Feature_ofObject few = Ok f -> soundFeature f.
Proof.
  intros Hs. unfold Feature_ofObject. destruct few as [o|e|]; try discriminate.
  specialize (Hs o eq_refl). destruct (o_feature o) as [f'|]; try discriminate.
  intros H. injection H as <-. exact Hs.
Qed.

Lemma Object_UnmarshalJSON_sound (d : featureDocument) (o : Object) :
  Object_UnmarshalJSON d = Ok o ->
  match o_feature o with Some f => soundFeature f | None => True end /\
  match o_features o with
  | Some fc => Forall soundFeature (fc_Features fc)
  | None => True
  end.
Proof.
  revert o.
  induction d as [type_ geometry properties id features IH] using featureDocument_ind.
  intros o. cbn [Object_UnmarshalJSON].
  pose proof (unmarshalGeometryMember_sound geometry) as Hg.
  destruct (unmarshalGeometryMember geometry) as [g|e|]; cbn [bind]; try discriminate.
  specialize (Hg g eq_refl).
  assert (Hm : forall fs,
            mapM (fun c => Feature_ofObject (Object_UnmarshalJSON c)) features = Ok fs ->
            Forall soundFeature fs).
  { induction IH as [|c Hc t _ IHt]; cbn [mapM]; intros fs H.
    - injection H as <-. constructor.
    - destruct (Feature_ofObject (Object_UnmarshalJSON c)) as [f|e|] eqn:Ef;
        try discriminate H.
      cbn [bind] in H. destruct (mapM _ t) as [fs'|e|]; try discriminate H.
      injection H as <-. constructor; [|apply IHt; reflexivity].
      apply (Feature_ofObject_sound (Object_UnmarshalJSON c)); [|exact Ef].
      intros o' Ho'. exact (proj1 (Hc o' Ho')). }
  destruct (mapM _ features) as [fs|e|]; cbn [bind]; try discriminate.
  specialize (Hm fs eq_refl).
  unfold Object_dispatch. cbv zeta.
  cbn [fin_Type fin_Geometry fin_Properties fin_ID fin_Features].
  destruct (String.eqb type_ TypeFeature).
  - intros H. injection H as <-. cbn. split; [|exact I].
    unfold soundFeature. cbn. destruct g as [[g|]|]; try exact I. exact Hg.
  - destruct (String.eqb type_ TypeFeatureCollection); [|discriminate].
    intros H. injection H as <-. cbn. split; [exact I | exact Hm].
Qed.

Lemma soundFeature_Vertices (f : Feature) :
  soundFeature f -> exists vs, Feature_Vertices f = Ok vs /\ Forall accepted vs.
Proof.
  unfold soundFeature, Feature_Vertices. destruct (f_Geometry f) as [g|].
  - apply sound_Vertices.
  - intros _. exists []. split; [reflexivity | constructor].
Qed.

Lemma accepted_box (vs : Vertices) :
  Forall accepted vs -> exists b, bbox vs = Ok b /\ BoundingBox_IsValid b = true.
Proof.
  intros H. apply bbox_Ok_valid. eapply Forall_impl; [|exact H].
  exact accepted_length.
Qed.

(** X23: on a feature that [Feature.UnmarshalJSON] returned, and on a
    collection that [FeatureCollection.UnmarshalJSON] returned,
    [BoundingBox] returns without panic a box that passes [IsValid]: the
    geometry of every decoded feature, when it has one, keeps the invariants
    of the decoder of geometries. *)
Theorem X23_decoded_features_have_boxes (d : featureDocument) :
  (forall f, Feature_UnmarshalJSON d = Ok f ->
     soundFeature f /\
     exists b, Feature_BoundingBox f = Ok b /\ BoundingBox_IsValid b = true) /\
  (forall fc, FeatureCollection_UnmarshalJSON d = Ok fc ->
     Forall soundFeature (fc_Features fc) /\
     exists b, FeatureCollection_BoundingBox fc = Ok b /\ BoundingBox_IsValid b = true).
Proof.
  pose proof (Object_UnmarshalJSON_sound d) as Hs. split.
  - intros f H. unfold Feature_UnmarshalJSON in H.
    assert (Hf : soundFeature f).
    { apply (Feature_ofObject_sound (Object_UnmarshalJSON d)); [|exact H].
      intros o Ho. exact (proj1 (Hs o Ho)). }
    split; [exact Hf|].
    destruct (soundFeature_Vertices f Hf) as (vs & Ev & Hvs).
    unfold Feature_BoundingBox. rewrite Ev. cbn [bind]. exact (accepted_box vs Hvs).
  - intros fc. unfold FeatureCollection_UnmarshalJSON.
    destruct (Object_UnmarshalJSON d) as [o|e|]; try discriminate.
    specialize (Hs o eq_refl). destruct Hs as [_ Hs].
    destruct (o_features o) as [fc'|]; try discriminate.
    intros H. injection H as <-. split; [exact Hs|].
    unfold FeatureCollection_BoundingBox, FeatureCollection_Vertices.
    assert (Hm : exists vss, mapM Feature_Vertices (fc_Features fc') = Ok vss /\
                             Forall (Forall accepted) vss).
    { induction Hs as [|f t Hf _ (vss & Et & Hvss)]; cbn [mapM].
      - exists []. split; [reflexivity | constructor].
      - destruct (soundFeature_Vertices f Hf) as (vs & -> & Hvs).
        rewrite Et. cbn [bind]. eexists. split; [reflexivity|].
        constructor; assumption. }
    destruct Hm as (vss & -> & Hvss). cbn [bind].
    apply accepted_box. apply Forall_concat_intro. exact Hvss.
Qed.

Lemma X23_witness :
  Feature_UnmarshalJSON bowtieFeature = Ok (mkFeature (Some bowtiePolygon) [] None false) /\
  exists b, Feature_BoundingBox (mkFeature (Some bowtiePolygon) [] None false) = Ok b /\
            BoundingBox_IsValid b = true.
Proof.
  split; [reflexivity|].
  exact (proj2 (proj1 (X23_decoded_features_have_boxes bowtieFeature) _ eq_refl)).
Defined.

(** ** The vertices of a feature collection *)

(** X24: the vertices of a feature collection are the vertices of its
    features appended in order, a feature without geometry contributing
    none; so [Vertices] and [BoundingBox] of the collection return what they
    return for the geometry collection of the geometries that are present,
    and the box of a collection without any geometry is the empty box. *)
Theorem X24_FeatureCollection_as_geometries (fc : FeatureCollection) :
  FeatureCollection_Vertices fc
    = Geometry_Vertices (GGeometryCollection (presentGeometries (fc_Features fc))) /\
  FeatureCollection_BoundingBox fc
    = Geometry_BoundingBox (GGeometryCollection (presentGeometries (fc_Features fc))) /\
  (Forall (fun f => f_Geometry f = None) (fc_Features fc) ->
   FeatureCollection_BoundingBox fc = Ok []).
Proof.
  assert (H : FeatureCollection_Vertices fc
              = Geometry_Vertices
                  (GGeometryCollection (presentGeometries (fc_Features fc)))).
  { unfold FeatureCollection_Vertices. cbn [Geometry_Vertices].
    induction (fc_Features fc) as [|f t IH]; [reflexivity|].
    cbn [mapM presentGeometries flat_map]. fold (presentGeometries t).
    unfold Feature_Vertices at 1.
    destruct (f_Geometry f) as [g|]; cbn [app mapM bind].
    - destruct (Geometry_Vertices g) as [vs|e|]; cbn [bind]; try reflexivity.
      destruct (mapM Feature_Vertices t) as [vss|e|];
        destruct (mapM _ (presentGeometries t)) as [vss'|e'|];
        cbn [bind] in IH |- *; try discriminate IH; try reflexivity.
      + injection IH as IH. cbn [List.concat]. rewrite IH. reflexivity.
      + exact IH.
    - destruct (mapM Feature_Vertices t) as [vss|e|];
        destruct (mapM _ (presentGeometries t)) as [vss'|e'|];
        cbn [bind] in IH |- *; try discriminate IH; try reflexivity; exact IH. }
  split; [exact H|]. split.
  - unfold FeatureCollection_BoundingBox, Geometry_BoundingBox. rewrite H. reflexivity.
  - intros Hn. unfold FeatureCollection_BoundingBox. rewrite H. clear H.
    replace (presentGeometries (fc_Features fc)) with (@nil (option Geometry));
      [reflexivity|].
    induction Hn as [|f t Hf _ IH]; [reflexivity|].
    cbn [presentGeometries flat_map]. rewrite Hf. exact IH.
Qed.

Lemma X24_witness :
  FeatureCollection_BoundingBox
    (mkFeatureCollection [mkFeature None [] None true; mkFeature None [] None false] true)
    = Ok [].
Proof.
  apply (proj2 (proj2 (X24_FeatureCollection_as_geometries _))).
  repeat constructor.
Defined.

(** ** A collection with a nil child *)

Lemma mapM_Ok_In {A B : Type} (f : A -> result B) (l : list A) (l' : list B) (x : A) :
  mapM f l = Ok l' -> In x l -> exists y, f x = Ok y /\ In y l'.
Proof.
  intros H. apply mapM_Forall2 in H.
  induction H as [|a b t t' Hab _ IH]; intros Hin; [destruct Hin|].
  destruct Hin as [<- | Hin].
  - exists b. split; [exact Hab | left; reflexivity].
  - destruct (IH Hin) as (y & Hy & Hy'). exists y. split; [exact Hy | right; exact Hy'].
Qed.

(** X25: a geometry collection that holds a [nil] geometry is written, the
    [nil] child as [null], whenever its other children are; but the decoder
    never accepts the document written: it fails with an error. *)
Theorem X25_nil_child_not_decodable (gs : list (option Geometry)) (d : document) :
  In None gs -> Geometry_MarshalJSON (GGeometryCollection gs) = Ok d ->
  exists e, GeometryObject_UnmarshalJSON d = Err e.
Proof.
  intros Hin. cbn [Geometry_MarshalJSON].
  destruct (mapM _ gs) as [children|e|] eqn:Em; cbn [bind]; try discriminate.
  intros H. injection H as <-.
  destruct (mapM_Ok_In _ gs children None Em Hin) as (y & Hy & Hy').
  injection Hy as <-.
  pose proof (proj1 (GeometryObject_UnmarshalJSON_sound
                       (Document TypeGeometryCollection VNil children []))) as Hnp.
  destruct (GeometryObject_UnmarshalJSON
              (Document TypeGeometryCollection VNil children [])) as [o|e|] eqn:Ed;
    [|exists e; reflexivity|congruence].
  exfalso. cbn [GeometryObject_UnmarshalJSON] in Ed.
  destruct (mapM GeometryObject_UnmarshalJSON children) as [os|e|] eqn:Ec;
    try discriminate Ed.
  destruct (mapM_Ok_In _ children os nullDocument Ec Hy') as (o' & Ho' & _).
  discriminate Ho'.
Qed.

Lemma X25_witness :
  Geometry_MarshalJSON (GGeometryCollection [None])
    = Ok (Document TypeGeometryCollection VNil [nullDocument] []) /\
  exists e, GeometryObject_UnmarshalJSON
              (Document TypeGeometryCollection VNil [nullDocument] []) = Err e.
Proof.
  split; [reflexivity|].
  apply (X25_nil_child_not_decodable [None]); [left; reflexivity | reflexivity].
Defined.

(** ** What a failed constructor leaves behind *)

Lemma InPlace_ensureOrientation_no_Err (st : InPlace.store) (rings : list InPlace.slice)
  (e : error) :
  InPlace.ensureOrientation st rings <> Err e.
Proof.
  assert (H1 : forall st r flag, InPlace.EnsureOrientation st r flag <> Err e).
  { intros st0 r flag. unfold InPlace.EnsureOrientation.
    destruct (IsCounterClockwise_cases (InPlace.load st0 r)) as [-> | [-> | ->]];
      cbn [bind]; try discriminate; destruct (Bool.eqb flag _); discriminate. }
  assert (H2 : forall inner st, InPlace.orientInner st inner <> Err e).
  { induction inner as [|r rest IH]; intros st0; cbn [InPlace.orientInner];
      [discriminate|].
    pose proof (H1 st0 r false) as Hr.
    destruct (InPlace.EnsureOrientation st0 r false); cbn [bind];
      [apply IH | congruence | discriminate]. }
  destruct rings as [|outer inner]; cbn [InPlace.ensureOrientation]; [discriminate|].
  pose proof (H1 st outer true) as Ho.
  destruct (InPlace.EnsureOrientation st outer true); cbn [bind];
    [apply H2 | congruence | discriminate].
Qed.

Lemma NewMultiPolygonFromRingSlice_effect_Failed (groups : list (list InPlace.slice)) :
  forall st st' e,
    NewMultiPolygonFromRingSlice_effect st groups = Failed st' e ->
    exists done bad rest,
      groups = done ++ bad :: rest /\
      InPlace.NewMultiPolygonFromRingSlice st done = Ok st' /\
      checkRings (map (InPlace.load st') bad) = Some e.
Proof.
  induction groups as [|rings rest IH]; intros st st' e;
    cbn [NewMultiPolygonFromRingSlice_effect]; [discriminate|].
  destruct (checkRings (map (InPlace.load st) rings)) as [err|] eqn:Ec.
  - intros H. injection H as <- <-. exists [], rings, rest. repeat split. exact Ec.
  - pose proof (InPlace_ensureOrientation_no_Err st rings) as Hne.
    destruct (InPlace.ensureOrientation st rings) as [st1|err|] eqn:Eo;
      [|exfalso; exact (Hne err eq_refl)|discriminate].
    intros H. destruct (IH st1 st' e H) as (done & bad & rest' & -> & Hd & Hb).
    exists (rings :: done), bad, rest'. repeat split; [|exact Hb].
    cbn [InPlace.NewMultiPolygonFromRingSlice]. rewrite Ec, Eo. exact Hd.
Qed.

(** X26: [NewPolygon] checks every ring before it reverses any, so a call
    that returns an error leaves the rings of the caller as they were.
    [NewMultiPolygonFromRingSlice] checks and orients group by group: when
    it returns an error for a group, the groups before it have already been
    oriented in the arrays of the caller, and stay so. Both return the
    error of the first ring that fails its check. *)
Theorem X26_failed_constructor_effect :
  (forall st rings st' e, NewPolygon_effect st rings = Failed st' e -> st' = st) /\
  (forall st groups st' e,
     NewMultiPolygonFromRingSlice_effect st groups = Failed st' e ->
     exists done bad rest,
       groups = done ++ bad :: rest /\
       InPlace.NewMultiPolygonFromRingSlice st done = Ok st' /\
       checkRings (map (InPlace.load st') bad) = Some e) /\
  (forall st rings st', NewPolygon_effect st rings = Done st' <->
                        InPlace.NewPolygon st rings = Ok st') /\
  (forall groups st st', NewMultiPolygonFromRingSlice_effect st groups = Done st' <->
                         InPlace.NewMultiPolygonFromRingSlice st groups = Ok st').
Proof.
  split; [|split; [|split]].
  - intros st rings st' e. unfold NewPolygon_effect.
    destruct (List.length rings =? 0)%nat; [intros H; injection H as <- _; reflexivity|].
    destruct (checkRings _); [intros H; injection H as <- _; reflexivity|].
    destruct (InPlace.ensureOrientation st rings); try discriminate.
    intros H. injection H as <- _. reflexivity.
  - intros st groups. apply NewMultiPolygonFromRingSlice_effect_Failed.
  - intros st rings st'. unfold NewPolygon_effect, InPlace.NewPolygon.
    destruct (List.length rings =? 0)%nat; [split; discriminate|].
    destruct (checkRings _); [split; discriminate|].
    destruct (InPlace.ensureOrientation st rings); split; try discriminate;
      intros H; injection H as <-; reflexivity.
  - induction groups as [|rings rest IH]; intros st st';
      cbn [NewMultiPolygonFromRingSlice_effect InPlace.NewMultiPolygonFromRingSlice].
    + split; intros H; injection H as <-; reflexivity.
    + destruct (checkRings _); [split; discriminate|].
      destruct (InPlace.ensureOrientation st rings); cbn [bind];
        [apply IH | split; discriminate | split; discriminate].
Qed.

Lemma X26_witness :
  exists st',
    NewMultiPolygonFromRingSlice_effect twoRingStore [[firstSlice]; [shortSlice]]
      = Failed st' ErrLinearRingSize /\
    exists done bad rest,
      [[firstSlice]; [shortSlice]] = done ++ bad :: rest /\
      InPlace.NewMultiPolygonFromRingSlice twoRingStore done = Ok st' /\
      checkRings (map (InPlace.load st') bad) = Some ErrLinearRingSize.
Proof.
  eexists. split; [reflexivity|].
  apply (proj1 (proj2 X26_failed_constructor_effect) twoRingStore
           [[firstSlice]; [shortSlice]]).
  reflexivity.
Defined.

(** The clockwise square of the first group has been reversed when the
    second group is rejected. *)
Example failed_call_reverses_first_group :
  exists st',
    NewMultiPolygonFromRingSlice_effect twoRingStore [[firstSlice]; [shortSlice]]
      = Failed st' ErrLinearRingSize /\
    InPlace.load twoRingStore firstSlice = square_cw /\
    InPlace.load st' firstSlice = square_ccw.
Proof. eexists. split; [reflexivity|]. split; reflexivity. Qed.

(** ** The area of a ring *)

Lemma abs_not_negative (x : float) : PrimFloat.ltb (PrimFloat.abs x) 0 = false.
Proof.
  rewrite ltb_spec, abs_spec. change (Prim2SF 0) with (S754_zero false).
  destruct (Prim2SF x) as [s|s| |s m e]; reflexivity.
Qed.

Lemma abs_positive (x : float) : PrimFloat.ltb 0 x = true -> PrimFloat.abs x = x.
Proof.
  rewrite ltb_spec. change (Prim2SF 0) with (S754_zero false). intros H.
  apply Prim2SF_inj. rewrite abs_spec.
  destruct (Prim2SF x) as [s|s| |s m e]; try discriminate H;
    destruct s; try discriminate H; reflexivity.
Qed.

(** X27: the area that [Area] returns is never negative; for a ring that
    [IsCounterClockwise] accepts it is the signed area itself, and it is
    positive; and a ring of fewer than two vertices, whatever its vertex
    holds, has the area 0 and is clockwise. [Area] never returns an
    error. *)
Theorem X27_Area :
  (forall lr a, Area lr = Ok a -> PrimFloat.ltb a 0 = false) /\
  (forall lr, IsCounterClockwise lr = Ok true ->
     exists a, signedArea lr = Ok a /\ Area lr = Ok a /\ PrimFloat.ltb 0 a = true) /\
  (forall lr, List.length lr <= 1 -> Area lr = Ok 0%float /\ IsClockwise lr = Ok true) /\
  (forall lr e, Area lr <> Err e).
Proof.
  split; [|split; [|split]].
  - intros lr a. unfold Area. destruct (signedArea lr) as [s|e|]; try discriminate.
    cbn [bind]. intros H. injection H as <-. apply abs_not_negative.
  - intros lr. unfold IsCounterClockwise, Area.
    destruct (signedArea lr) as [s|e|]; try discriminate. cbn [bind].
    intros H. injection H as H. unfold F64.gtb in H.
    exists s. rewrite (abs_positive s H). auto.
  - intros lr H. destruct lr as [|v [|w lr]]; simpl in H; try lia;
      split; reflexivity.
  - intros lr e. unfold Area, signedArea.
    pose proof (signedArea_loop_no_Err lr 0%float e) as H.
    destruct (signedArea_loop lr 0%float); cbn [bind]; congruence.
Qed.

Lemma X27_witness :
  IsCounterClockwise square_ccw = Ok true /\
  exists a, signedArea square_ccw = Ok a /\ Area square_ccw = Ok a /\
            PrimFloat.ltb 0 a = true.
Proof.
  split; [reflexivity|].
  exact (proj1 (proj2 X27_Area) square_ccw eq_refl).
Defined.

(** ** Vertices and boxes of arbitrary geometries *)

Lemma Geometry_Vertices_cases (g : Geometry) :
  (forall e, Geometry_Vertices g <> Err e) /\
  (Geometry_Vertices g = Panic <-> hasNil g).
Proof.
  induction g as [p|l|m|m|p|m|gs IH] using Geometry_ind;
    cbn [Geometry_Vertices hasNil];
    try (split; [discriminate | split; [discriminate | intros []]]).
  set (vert := fun c : option Geometry =>
                 match c with
                 | Some g' => Geometry_Vertices g'
                 | None => Panic
                 end).
  assert (H : (forall e, mapM vert gs <> Err e) /\
              (mapM vert gs = Panic <->
               (fix any (l : list (option Geometry)) : Prop :=
                  match l with
                  | [] => False
                  | None :: _ => True
                  | Some g' :: t => hasNil g' \/ any t
                  end) gs)).
  { induction IH as [|o Ho t _ [IHe IHp]]; cbn [mapM].
    - split; [discriminate | split; [discriminate | intros []]].
    - destruct o as [g'|]; cbn [vert bind].
      + inversion Ho as [? [He Hp]|]; subst.
        destruct (Geometry_Vertices g') as [vs|e|] eqn:Eg; cbn [bind].
        * destruct (mapM vert t) as [vss|e|]; cbn [bind].
          -- split; [discriminate|]. split; [discriminate|].
             intros [H|H]; [apply Hp in H | apply IHp in H]; discriminate H.
          -- exfalso. exact (IHe e eq_refl).
          -- split; [discriminate|]. split; [intros _; right; apply IHp; reflexivity|].
             reflexivity.
        * exfalso. exact (He e eq_refl).
        * split; [discriminate|]. split; [intros _; left; apply Hp; reflexivity|].
          reflexivity.
      + split; [discriminate|]. split; [intros _; exact I | reflexivity]. }
  fold vert. destruct H as [He Hp]. rewrite <- Hp.
  destruct (mapM vert gs) as [vss|e|]; cbn [bind].
  - split; [discriminate|]. split; discriminate.
  - exfalso. exact (He e eq_refl).
  - split; [discriminate|]. split; reflexivity.
Qed.

(** X28: [Vertices] and [BoundingBox] of a geometry never return an error.
    [Vertices] panics exactly when the geometry is a collection that holds
    a [nil] geometry at some depth; [BoundingBox] panics exactly then, or
    when some vertex of the geometry has fewer than two elements. *)
Theorem X28_Vertices_and_BoundingBox_panics (g : Geometry) :
  (forall e, Geometry_Vertices g <> Err e) /\
  (forall e, Geometry_BoundingBox g <> Err e) /\
  (Geometry_Vertices g = Panic <-> hasNil g) /\
  (Geometry_BoundingBox g = Panic <->
   hasNil g \/ exists vs, Geometry_Vertices g = Ok vs /\ Exists shortVertex vs).
Proof.
  destruct (Geometry_Vertices_cases g) as [He Hp].
  split; [exact He|]. split; [|split; [exact Hp|]];
    unfold Geometry_BoundingBox.
  - intros e. destruct (Geometry_Vertices g) as [vs|e'|]; cbn [bind];
      [|exact (fun _ => He e' eq_refl)|discriminate].
    destruct (short_or_not vs) as [H|H].
    + rewrite (bbox_short vs H). discriminate.
    + rewrite (bbox_finalBounds vs H). discriminate.
  - rewrite <- Hp. destruct (Geometry_Vertices g) as [vs|e'|]; cbn [bind].
    + split.
      * intros H. right. exists vs. split; [reflexivity|].
        destruct (short_or_not vs) as [Hs|Hl]; [exact Hs|].
        rewrite (bbox_finalBounds vs Hl) in H. discriminate H.
      * intros [H|(vs' & H & Hs)]; [discriminate H|].
        injection H as <-. exact (bbox_short vs Hs).
    + exfalso. exact (He e' eq_refl).
    + split; [intros _; left; reflexivity | reflexivity].
Qed.

Lemma X28_witness :
  hasNil nestedNil /\ Geometry_Vertices nestedNil = Panic /\
  Geometry_BoundingBox nestedNil = Panic.
Proof.
  assert (H : hasNil nestedNil) by (cbn; auto).
  split; [exact H|]. split.
  - exact (proj2 (proj1 (proj2 (proj2 (X28_Vertices_and_BoundingBox_panics nestedNil)))) H).
  - apply (proj2 (proj2 (proj2 (X28_Vertices_and_BoundingBox_panics nestedNil)))).
    left. exact H.
Defined.

(** ** When the ring functions panic *)

Lemma wellFormed_or_short (lr : Vertices) : wellFormed lr \/ Exists shortVertex lr.
Proof. destruct (short_or_not lr); [right | left]; assumption. Qed.

Lemma wellFormed_not_short (lr : Vertices) :
  wellFormed lr -> Exists shortVertex lr -> False.
Proof.
  unfold wellFormed, shortVertex. intros Hw Hs. apply Exists_exists in Hs.
  destruct Hs as (v & Hin & Hv). rewrite Forall_forall in Hw.
  specialize (Hw v Hin). lia.
Qed.

Lemma IsCounterClockwise_Panic_iff (lr : LinearRing) :
  IsCounterClockwise lr = Panic <-> 2 <= List.length lr /\ Exists shortVertex lr.
Proof.
  split.
  - intros H. destruct (Nat.lt_ge_cases (List.length lr) 2) as [Hl|Hl].
    + destruct (IsCounterClockwise_Ok lr) as [b Hb]; [left; lia | congruence].
    + split; [exact Hl|]. destruct (wellFormed_or_short lr) as [Hw|Hs]; [|exact Hs].
      destruct (IsCounterClockwise_Ok lr (or_intror Hw)) as [b Hb]. congruence.
  - intros [Hl Hs].
    destruct (IsCounterClockwise_cases lr) as [H|[H|H]]; [| |exact H];
      apply IsCounterClockwise_Ok_inv in H; destruct H as [H|H];
      try lia; destruct (wellFormed_not_short lr H Hs).
Qed.

Lemma EnsureOrientation_Panic_iff (lr : LinearRing) (flag : bool) :
  EnsureOrientation lr flag = Panic <-> IsCounterClockwise lr = Panic.
Proof.
  destruct (EnsureOrientation_cases lr flag)
    as [(Hc & He)|[(Hc & He)|[(Hc & He)|(e & Hc & He)]]]; rewrite Hc, He;
    split; congruence.
Qed.

Lemma EnsureOrientation_no_Err (lr : LinearRing) (flag : bool) (e : error) :
  EnsureOrientation lr flag <> Err e.
Proof.
  unfold EnsureOrientation.
  destruct (IsCounterClockwise_cases lr) as [-> | [-> | ->]]; cbn [bind];
    try discriminate; destruct (Bool.eqb flag _); discriminate.
Qed.

Lemma mapM_Panic_iff {A B : Type} (f : A -> result B) (l : list A) :
  (forall x e, f x <> Err e) ->
  (forall e, mapM f l <> Err e) /\
  (mapM f l = Panic <-> Exists (fun x => f x = Panic) l).
Proof.
  intros Hf. induction l as [|x t [IHe IHp]]; cbn [mapM].
  - split; [discriminate|]. split; [discriminate | intros H; inversion H].
  - destruct (f x) as [y|e|] eqn:Ex; cbn [bind].
    + destruct (mapM f t) as [ys|e|]; cbn [bind].
      * split; [discriminate|]. split; [discriminate|].
        intros H. inversion H as [? ? Hx|? ? Ht]; subst; [congruence|].
        apply IHp in Ht. discriminate Ht.
      * exfalso. exact (IHe e eq_refl).
      * split; [discriminate|]. split; [|reflexivity].
        intros _. apply Exists_cons_tl. apply IHp. reflexivity.
    + exfalso. exact (Hf x e Ex).
    + split; [discriminate|]. split; [|reflexivity].
      intros _. apply Exists_cons_hd. exact Ex.
Qed.

Lemma ensureOrientation_Panic_iff (rings : LinearRings) :
  (forall e, ensureOrientation rings <> Err e) /\
  (ensureOrientation rings = Panic <->
   Exists (fun r => IsCounterClockwise r = Panic) rings).
Proof.
  destruct rings as [|outer inner]; cbn [ensureOrientation].
  - split; [discriminate|]. split; [discriminate | intros H; inversion H].
  - pose proof (EnsureOrientation_no_Err outer true) as Hoe.
    pose proof (EnsureOrientation_Panic_iff outer true) as Hop.
    destruct (mapM_Panic_iff (fun r => EnsureOrientation r false) inner
                (fun r e => EnsureOrientation_no_Err r false e)) as [Hie Hip].
    assert (Hex : Exists (fun r => EnsureOrientation r false = Panic) inner <->
                  Exists (fun r => IsCounterClockwise r = Panic) inner).
    { split; intros H; (eapply Exists_impl; [|exact H]); intros r;
        apply EnsureOrientation_Panic_iff. }
    destruct (EnsureOrientation outer true) as [outer'|e|]; cbn [bind].
    + destruct (mapM _ inner) as [inner'|e|]; cbn [bind].
      * split; [discriminate|]. split; [discriminate|].
        intros H. inversion H as [? ? Hx|? ? Ht]; subst.
        -- apply Hop in Hx. discriminate Hx.
        -- apply Hex, Hip in Ht. discriminate Ht.
      * exfalso. exact (Hie e eq_refl).
      * split; [discriminate|]. split; [|reflexivity].
        intros _. apply Exists_cons_tl. apply Hex, Hip. reflexivity.
    + exfalso. exact (Hoe e eq_refl).
    + split; [discriminate|]. split; [|reflexivity].
      intros _. apply Exists_cons_hd. apply Hop. reflexivity.
Qed.

(** X29: [IsCounterClockwise], and with it [EnsureOrientation], panics
    exactly on a ring of two or more vertices of which one has fewer than
    two elements; [NewPolygon] panics exactly when it is given at least one
    ring, every ring passes the size and closure checks, and some vertex of
    some ring has fewer than two elements. On rings whose vertices all have
    a longitude and a latitude none of them panics. *)
Theorem X29_ring_panics :
  (forall lr, IsCounterClockwise lr = Panic <->
              2 <= List.length lr /\ Exists shortVertex lr) /\
  (forall lr flag, EnsureOrientation lr flag = Panic <->
                   2 <= List.length lr /\ Exists shortVertex lr) /\
  (forall rings, NewPolygon rings = Panic <->
                 rings <> [] /\ allValid rings /\ Exists (Exists shortVertex) rings).
Proof.
  split; [exact IsCounterClockwise_Panic_iff|]. split.
  - intros lr flag. rewrite EnsureOrientation_Panic_iff.
    apply IsCounterClockwise_Panic_iff.
  - intros rings. unfold NewPolygon.
    destruct rings as [|r0 rest] eqn:Er.
    { split; [discriminate | intros [H _]; congruence]. }
    rewrite <- Er. replace (List.length rings =? 0)%nat with false by (subst; reflexivity).
    assert (Hne : rings <> []) by (subst; discriminate).
    clear Er r0 rest.
    destruct (checkRings rings) as [err|] eqn:Ec.
    + split; [discriminate|]. intros (_ & Hv & _).
      apply checkRings_allValid in Hv. congruence.
    + apply checkRings_allValid in Ec.
      destruct (ensureOrientation_Panic_iff rings) as [He Hp].
      assert (Hex : Exists (fun r => IsCounterClockwise r = Panic) rings <->
                    Exists (Exists shortVertex) rings).
      { split; intros H; apply Exists_exists in H; destruct H as (r & Hin & Hr);
          apply Exists_exists; exists r; (split; [exact Hin|]).
        - apply IsCounterClockwise_Panic_iff in Hr. exact (proj2 Hr).
        - apply IsCounterClockwise_Panic_iff. split; [|exact Hr].
          unfold allValid in Ec. rewrite Forall_forall in Ec.
          specialize (Ec r Hin). unfold IsValid, HasValidSize in Ec.
          apply andb_prop in Ec. destruct Ec as [Ec _].
          apply Nat.leb_le in Ec. unfold LinearRingMinimumSize in Ec. lia. }
      rewrite <- Hex, <- Hp.
      destruct (ensureOrientation rings) as [rings'|e|]; cbn [bind].
      * split; [discriminate | intros (_ & _ & H); discriminate H].
      * exfalso. exact (He e eq_refl).
      * split; [intros _; auto | reflexivity].
Qed.

Lemma X29_witness :
  NewPolygon [emptyVertexRing] = Panic.
Proof.
  apply (proj2 (proj2 X29_ring_panics) [emptyVertexRing]).
  split; [discriminate|]. split.
  - repeat constructor.
  - left. left. unfold shortVertex. simpl. lia.
Defined.

(** ** The bounding box of a document is not kept *)

Lemma flagOf_withoutBBox (g : Geometry) :
  flagOf g = false ->
  match g with
  | GGeometryCollection _ => True
  | _ => withoutBBox g = g
  end.
Proof.
  destruct g as [[c f]|[c f]|[c f]|[c f]|[c f]|[c f]|gs]; cbn;
    try (intros ->; reflexivity). intros _. exact I.
Qed.

Lemma decoded_flags_off (d : document) :
  forall g, GeometryObject_UnmarshalJSON d = Ok (Some g) -> withoutBBox g = g.
Proof.
  induction d as [type_ coordinates geometries IH bbox_] using document_ind.
  intros g H.
  pose proof (decoded_tag _ g H) as [_ Hf].
  pose proof (flagOf_withoutBBox g Hf) as Hg.
  destruct g as [p|l|m|m|p|m|gs]; try exact Hg. clear Hg Hf.
  cbn [GeometryObject_UnmarshalJSON] in H.
  destruct (mapM GeometryObject_UnmarshalJSON geometries) as [children|e|] eqn:Em;
    try discriminate H.
  cbn [bind] in H.
  assert (Hc : map (option_map withoutBBox) children = children).
  { apply mapM_Forall2 in Em. clear H.
    induction Em as [|c o t t' Ho _ IHt]; [reflexivity|].
    inversion IH as [|? Hc ? Ht]; subst. cbn [map]. rewrite (IHt Ht). f_equal.
    destruct o as [g'|]; [|reflexivity]. cbn [option_map]. f_equal.
    apply Hc. exact Ho. }
  unfold GeometryObject_dispatch in H. cbv zeta in H.
  cbn [in_Type in_Coordinates in_Geometries] in H.
  repeat match type of H with
         | context [if String.eqb type_ ?t then _ else _] =>
             destruct (String.eqb type_ t);
             [destruct (Geometry_buildCoordinates _ coordinates) as [g0|e|] eqn:Eb;
              try discriminate H; cbn [bind] in H; injection H as H;
              apply Geometry_buildCoordinates_keeps in Eb; destruct Eb as [Eb _];
              rewrite H in Eb; discriminate Eb|]
         end.
  destruct (String.eqb type_ TypeGeometryCollection); [|discriminate H].
  injection H as <-. cbn [withoutBBox]. rewrite Hc. reflexivity.
Qed.

(** X19: the decoder of geometries does not keep the [bbox] member of a
    document, and turns no [SerializeBBox] toggle on, at any depth of a
    collection: encoding a geometry it returned never writes a [bbox]
    member, whatever the document decoded. *)
Theorem X19_decoding_drops_bbox (d : document) (g : Geometry) :
  GeometryObject_UnmarshalJSON d = Ok (Some g) ->
  withoutBBox g = g /\ flagOf g = false /\
  (forall d', Geometry_MarshalJSON g = Ok d' -> bboxOf d' = []).
Proof.
  intros H. pose proof (decoded_flags_off d g H) as Hoff.
  split; [exact Hoff|]. split; [exact (proj2 (decoded_tag d g H))|].
  intros d' Hd'. rewrite <- Hoff in Hd'.
  assert (Hout : forall t c vs d0,
            marshalOutput t c false vs = Ok d0 -> bboxOf d0 = []).
  { intros t c vs d0. unfold marshalOutput.
    destruct c as [c|e|]; cbn; try discriminate.
    intros E. injection E as <-. reflexivity. }
  destruct g as [p|l|m|m|p|m|gs];
    cbn [withoutBBox Geometry_MarshalJSON pt_SerializeBBox ls_SerializeBBox
         mp_SerializeBBox mls_SerializeBBox pg_SerializeBBox mpg_SerializeBBox] in Hd';
    try exact (Hout _ _ _ _ Hd').
  destruct (mapM _ _); cbn [bind] in Hd'; try discriminate Hd'.
  injection Hd' as <-. reflexivity.
Qed.

Lemma X19_witness :
  GeometryObject_UnmarshalJSON pointWithBox = Ok (Some (GPoint (mkPoint [1; 2]%float false))) /\
  bboxOf pointWithBox = [1; 2; 1; 2]%float /\
  Geometry_MarshalJSON (GPoint (mkPoint [1; 2]%float false))
    = Ok (Document TypePoint (VSlice [VFloat 1; VFloat 2]) [] []) /\
  bboxOf (Document TypePoint (VSlice [VFloat 1; VFloat 2]) [] []) = [].
Proof.
  split; [reflexivity|]. split; [reflexivity|]. split; [reflexivity|].
  exact (proj2 (proj2 (X19_decoding_drops_bbox pointWithBox _ eq_refl)) _ eq_refl).
Defined.

(** ** Further instances *)

Lemma X1_witness :
  IsEqual [PrimFloat.nan; 0%float] [PrimFloat.nan; (-0)%float] = true.
Proof.
  apply (proj2 (proj2 (proj2 X1_IsEqual_equivalence)) [PrimFloat.nan; 0%float]).
  constructor; [right; split; reflexivity|].
  constructor; [left; reflexivity | constructor].
Defined.

Lemma X3_witness :
  NewLinearRing square_cw = Ok square_cw /\ IsValid square_cw = true.
Proof.
  split; [reflexivity|].
  exact (proj1 (proj1 (proj1 (X3_NewLinearRing_iff_IsValid square_cw) square_cw) eq_refl)).
Defined.

Lemma X22_witness :
  ToPoint (FromGeometry (Some (GPoint (mkPoint [1; 2]%float false))))
    = Ok (mkPoint [1; 2]%float false).
Proof.
  apply (proj1 (proj2 (X22_tests_agree_with_conversions _))). reflexivity.
Defined.
